(** * Message moderation pipeline of talentpitch-tools-go

    A shallow embedding of the Go package [groq] (blocked-term matcher,
    moderation client, malicious-message saver) and of the validator
    adapter of package [validators], together with the properties the
    specification states about them.

    Go strings are byte sequences; they are modelled by [string], whose
    characters are the bytes.  Go [int] values are modelled by [Z]: every
    integer the code computes is a length or an offset into a string, far
    from the 64-bit bounds.

    The token helpers of package [helpers] and the Gin middlewares of
    package [talentpitchtools] are embedded as well.  They compute with
    [int64] seconds and durations; there the wrap-around of the machine
    arithmetic is written out. *)

From Stdlib Require Import ZArith Lia Bool List Ascii String DecimalString.
From Stdlib Require DecimalNat DecimalFacts.
Import ListNotations.

Local Open Scope string_scope.
Local Open Scope Z_scope.

(** ** Outcomes of code that can panic or loop *)

(** [Ret v] is a normal return, [Panic] a Go run-time panic (index or
    slice bound out of range) and [Diverge] a loop that used up the
    iteration budget given to its model. *)
Inductive Res (A : Type) : Type :=
| Ret (v : A)
| Panic
| Diverge.

Arguments Ret {A} v.
Arguments Panic {A}.
Arguments Diverge {A}.

Definition bindRes {A B : Type} (m : Res A) (k : A -> Res B) : Res B :=
  match m with
  | Ret v => k v
  | Panic => Panic
  | Diverge => Diverge
  end.

Declare Scope res_scope.
Delimit Scope res_scope with res.
Notation "'let*' x ':=' m 'in' k" := (bindRes m (fun x => k))
  (at level 10, x name, m at level 100, k at level 200) : res_scope.

(** ** Bytes and byte strings *)

Definition byteval (b : ascii) : Z := Z.of_N (N_of_ascii b).

Definition len (s : string) : Z := Z.of_nat (String.length s).

(** [drop n s] is [s] without its first [n] bytes, [take n s] its first
    [n] bytes. *)
Fixpoint drop (n : nat) (s : string) : string :=
  match n, s with
  | O, _ => s
  | S _, EmptyString => EmptyString
  | S n', String _ s' => drop n' s'
  end.

Fixpoint take (n : nat) (s : string) : string :=
  match n, s with
  | O, _ => EmptyString
  | S _, EmptyString => EmptyString
  | S n', String c s' => String c (take n' s')
  end.

(** [rev s] is [s] read from its last byte to its first. *)
Fixpoint rev (s : string) : string :=
  match s with
  | EmptyString => EmptyString
  | String c s' => rev s' ++ String c EmptyString
  end.

(** The slice expression [s[i:]]: panics unless [0 <= i <= len(s)]. *)
Definition sliceFrom (s : string) (i : Z) : Res string :=
  if (0 <=? i) && (i <=? len s) then Ret (drop (Z.to_nat i) s) else Panic.

(** The index expression [s[i]]: panics unless [0 <= i < len(s)]. *)
Definition byteAt (s : string) (i : Z) : Res ascii :=
  if (0 <=? i) && (i <? len s) then
    match String.get (Z.to_nat i) s with
    | Some b => Ret b
    | None => Panic
    end
  else Panic.

(** ** UTF-8 as Go decodes and encodes it (package [unicode/utf8]) *)

Module utf8.

Definition RuneError : Z := 0xFFFD.
Definition RuneSelf : Z := 0x80.
Definition MaxRune : Z := 0x10FFFF.

Definition ofByte (x : Z) : ascii := ascii_of_N (Z.to_N x).

Definition inRange (lo hi : Z) (b : ascii) : bool :=
  (lo <=? byteval b) && (byteval b <=? hi).

(** A continuation byte is [10xxxxxx]. *)
Definition isCont (b : ascii) : bool := inRange 0x80 0xBF b.

Definition low6 (b : ascii) : Z := Z.land (byteval b) 0x3F.

(** [DecodeRuneInString s] is the first code point of [s] and the number
    of bytes of its encoding; an encoding that is truncated, over-long,
    a surrogate or out of range gives [(RuneError, 1)], the empty string
    [(RuneError, 0)]. *)
Definition DecodeRuneInString (s : string) : Z * nat :=
  match s with
  | EmptyString => (RuneError, 0%nat)
  | String b0 rest =>
      let x0 := byteval b0 in
      if x0 <? RuneSelf then (x0, 1%nat)
      else if (0xC2 <=? x0) && (x0 <=? 0xDF) then
        match rest with
        | String b1 _ =>
            if isCont b1
            then (Z.lor (Z.shiftl (Z.land x0 0x1F) 6) (low6 b1), 2%nat)
            else (RuneError, 1%nat)
        | _ => (RuneError, 1%nat)
        end
      else if (0xE0 <=? x0) && (x0 <=? 0xEF) then
        let lo := if x0 =? 0xE0 then 0xA0 else 0x80 in
        let hi := if x0 =? 0xED then 0x9F else 0xBF in
        match rest with
        | String b1 (String b2 _) =>
            if inRange lo hi b1 && isCont b2
            then (Z.lor (Z.shiftl (Z.land x0 0x0F) 12)
                    (Z.lor (Z.shiftl (low6 b1) 6) (low6 b2)), 3%nat)
            else (RuneError, 1%nat)
        | _ => (RuneError, 1%nat)
        end
      else if (0xF0 <=? x0) && (x0 <=? 0xF4) then
        let lo := if x0 =? 0xF0 then 0x90 else 0x80 in
        let hi := if x0 =? 0xF4 then 0x8F else 0xBF in
        match rest with
        | String b1 (String b2 (String b3 _)) =>
            if inRange lo hi b1 && isCont b2 && isCont b3
            then (Z.lor (Z.shiftl (Z.land x0 0x07) 18)
                    (Z.lor (Z.shiftl (low6 b1) 12)
                       (Z.lor (Z.shiftl (low6 b2) 6) (low6 b3))), 4%nat)
            else (RuneError, 1%nat)
        | _ => (RuneError, 1%nat)
        end
      else (RuneError, 1%nat)
  end.

Definition str1 (x0 : Z) : string := String (ofByte x0) EmptyString.

Definition contByte (r : Z) (shift : Z) : Z :=
  Z.lor 0x80 (Z.land (Z.shiftr r shift) 0x3F).

Definition encode3 (r : Z) : string :=
  str1 (Z.lor 0xE0 (Z.shiftr r 12)) ++ str1 (contByte r 6) ++ str1 (contByte r 0).

(** [EncodeRune r] is the UTF-8 encoding of [r]; a surrogate, a negative
    value or a value above [MaxRune] is encoded as [RuneError]. *)
Definition EncodeRune (r : Z) : string :=
  if (0 <=? r) && (r <=? 0x7F) then str1 r
  else if (0 <=? r) && (r <=? 0x7FF) then
    str1 (Z.lor 0xC0 (Z.shiftr r 6)) ++ str1 (contByte r 0)
  else if (r <? 0) || (MaxRune <? r) || ((0xD800 <=? r) && (r <=? 0xDFFF))
  then encode3 RuneError
  else if r <=? 0xFFFF then encode3 r
  else str1 (Z.lor 0xF0 (Z.shiftr r 18)) ++ str1 (contByte r 12)
         ++ str1 (contByte r 6) ++ str1 (contByte r 0).

End utf8.

(** ** Package [unicode] *)

Module unicode.

Definition MaxASCII : Z := 0x7F.

(** The code points with the White_Space property, which is what
    [unicode.IsSpace] tests. *)
Definition IsSpace (r : Z) : bool :=
  ((0x09 <=? r) && (r <=? 0x0D)) || (r =? 0x20) || (r =? 0x85) || (r =? 0xA0)
  || (r =? 0x1680) || ((0x2000 <=? r) && (r <=? 0x200A))
  || (r =? 0x2028) || (r =? 0x2029) || (r =? 0x202F) || (r =? 0x205F)
  || (r =? 0x3000).

Definition spaceRunes : list Z :=
  [0x09; 0x0A; 0x0B; 0x0C; 0x0D; 0x20; 0x85; 0xA0; 0x1680;
   0x2000; 0x2001; 0x2002; 0x2003; 0x2004; 0x2005; 0x2006; 0x2007;
   0x2008; 0x2009; 0x200A; 0x2028; 0x2029; 0x202F; 0x205F; 0x3000].

(** [unicode.ToLower]: ASCII letters are handled in the function itself;
    every other code point goes through the Unicode case tables
    ([unicode.To(LowerCase, r)]), which are data of the Go distribution
    and are taken here as the argument [caseTable]. *)
Definition ToLower (caseTable : Z -> Z) (r : Z) : Z :=
  if r <=? MaxASCII then
    if (byteval "A" <=? r) && (r <=? byteval "Z")
    then r + (byteval "a" - byteval "A")
    else r
  else caseTable r.

End unicode.

(** ** The functions of Go's [strings] package the code calls *)

Module strings.

Fixpoint HasPrefix (s prefix : string) {struct prefix} : bool :=
  match prefix, s with
  | EmptyString, _ => true
  | String _ _, EmptyString => false
  | String p prefix', String c s' => Ascii.eqb c p && HasPrefix s' prefix'
  end.

(** [Index s substr] is the offset of the first occurrence of [substr]
    in [s], or [-1]. *)
Fixpoint Index (s substr : string) : Z :=
  if HasPrefix s substr then 0
  else match s with
       | EmptyString => -1
       | String _ s' =>
           let i := Index s' substr in
           if i =? -1 then -1 else i + 1
       end.

Definition Contains (s substr : string) : bool := 0 <=? Index s substr.

(** [ReplaceAll s old new] for a non-empty [old]: the non-overlapping
    occurrences of [old], found from the left, are replaced by [new].
    [skip] counts the bytes of an occurrence still to be passed over. *)
Fixpoint ReplaceAll_from (skip : nat) (s old new : string) : string :=
  match s with
  | EmptyString => EmptyString
  | String c s' =>
      match skip with
      | S k => ReplaceAll_from k s' old new
      | O =>
          if HasPrefix s old
          then new ++ ReplaceAll_from (String.length old - 1) s' old new
          else String c (ReplaceAll_from 0 s' old new)
      end
  end.

Definition ReplaceAll (s old new : string) : string :=
  ReplaceAll_from 0 s old new.

Definition HasSuffix (s suffix : string) : bool :=
  (String.length suffix <=? String.length s)%nat
  && String.eqb (drop (String.length s - String.length suffix) s) suffix.

Definition TrimPrefix (s prefix : string) : string :=
  if HasPrefix s prefix then drop (String.length prefix) s else s.

Definition TrimSuffix (s suffix : string) : string :=
  if HasSuffix s suffix
  then take (String.length s - String.length suffix) s
  else s.


(** [Map mapping s]: every code point of [s] (an invalid byte counts as
    [RuneError]) is replaced by its image, re-encoded; a negative image
    drops the code point.  [skip] counts the bytes of the current
    encoding still to be passed over. *)
Fixpoint Map_from (skip : nat) (mapping : Z -> Z) (s : string) : string :=
  match s with
  | EmptyString => EmptyString
  | String _ s' =>
      match skip with
      | S k => Map_from k mapping s'
      | O =>
          let (c, width) := utf8.DecodeRuneInString s in
          let r := mapping c in
          (if 0 <=? r then utf8.EncodeRune r else EmptyString)
            ++ Map_from (width - 1) mapping s'
      end
  end.

Definition Map (mapping : Z -> Z) (s : string) : string :=
  Map_from 0 mapping s.

Fixpoint isASCII (s : string) : bool :=
  match s with
  | EmptyString => true
  | String c s' => (byteval c <? utf8.RuneSelf) && isASCII s'
  end.

Definition lowerByte (c : ascii) : ascii :=
  if (byteval "A" <=? byteval c) && (byteval c <=? byteval "Z")
  then utf8.ofByte (byteval c + (byteval "a" - byteval "A"))
  else c.

Fixpoint mapBytes (f : ascii -> ascii) (s : string) : string :=
  match s with
  | EmptyString => EmptyString
  | String c s' => String (f c) (mapBytes f s')
  end.

(** [ToLower]: an all-ASCII string is lowered byte by byte; any other
    string is mapped with [unicode.ToLower]. *)
Definition ToLower (caseTable : Z -> Z) (s : string) : string :=
  if isASCII s then mapBytes lowerByte s
  else Map (unicode.ToLower caseTable) s.

(** The encodings of the white-space code points. *)
Definition spaceEncodings : list string :=
  List.map utf8.EncodeRune unicode.spaceRunes.

Fixpoint cutPrefix (cands : list string) (s : string) : option string :=
  match cands with
  | [] => None
  | e :: cands' =>
      if HasPrefix s e then Some (drop (String.length e) s)
      else cutPrefix cands' s
  end.

Fixpoint cutSuffix (cands : list string) (s : string) : option string :=
  match cands with
  | [] => None
  | e :: cands' =>
      if HasSuffix s e
      then Some (take (String.length s - String.length e) s)
      else cutSuffix cands' s
  end.

Fixpoint trimLeft (fuel : nat) (s : string) : string :=
  match fuel with
  | O => s
  | S fuel' =>
      match cutPrefix spaceEncodings s with
      | Some s' => trimLeft fuel' s'
      | None => s
      end
  end.

Fixpoint trimRight (fuel : nat) (s : string) : string :=
  match fuel with
  | O => s
  | S fuel' =>
      match cutSuffix spaceEncodings s with
      | Some s' => trimRight fuel' s'
      | None => s
      end
  end.

(** [TrimSpace s]: [s] without its leading and trailing white-space code
    points.  Each removal takes at least one byte, so [length s] rounds
    reach the end of every run of white space. *)
Definition TrimSpace (s : string) : string :=
  let s1 := trimLeft (String.length s) s in
  trimRight (String.length s1) s1.

(** [Split s sep] for a one-byte separator [sep]: the fields between the
    occurrences of [sep] (one field more than there are separators). *)
Fixpoint splitByte (sep : ascii) (s : string) : list string :=
  match s with
  | EmptyString => [EmptyString]
  | String c s' =>
      match splitByte sep s' with
      | [] => [EmptyString]
      | field :: fields =>
          if Ascii.eqb c sep then EmptyString :: field :: fields
          else String c field :: fields
      end
  end.

End strings.

(** ** Errors, log output and calls to collaborators *)

(** A Go [error] value is modelled by its message; [None] is [nil]. *)
Definition error : Type := option string.

Definition Errorf_w (prefix : string) (err : string) : error :=
  Some (prefix ++ err).

(** [context.Context]: the code only passes it on. *)
Inductive Context : Type :=
| Background
| Derived (id : nat).

Module openai.

Definition ChatMessageRoleUser : string := "user".

Record ChatCompletionMessage : Type :=
  { Role : string; Content : string }.

(** [Temperature] is the [float32] literal the request carries, written
    as the fraction [numerator / denominator]. *)
Record ChatCompletionRequest : Type :=
  { Model : string;
    Messages : list ChatCompletionMessage;
    Temperature : Z * Z;
    MaxTokens : Z }.

Record ChatCompletionChoice : Type :=
  { Message : ChatCompletionMessage }.

Record ChatCompletionResponse : Type :=
  { Choices : list ChatCompletionChoice }.

Record ClientConfig : Type :=
  { authToken : string; BaseURL : string }.

Definition DefaultConfig (authToken : string) : ClientConfig :=
  {| authToken := authToken; BaseURL := "https://api.openai.com/v1" |}.

(** An API client is what it answers to a chat-completion request: the
    remote classifier is a collaborator outside the repository. *)
Record Client : Type :=
  { CreateChatCompletion :
      Context -> ChatCompletionRequest -> ChatCompletionResponse * error }.

End openai.

(** What a run of the code does besides returning: lines written with
    [log.Printf], requests sent to the remote classifier, and calls of a
    caller-supplied saver. *)
Inductive Event : Type :=
| LogPrintf (line : string)
| RemoteCall (req : openai.ChatCompletionRequest)
| SaverCall (fromUserID toUserID : Z)
    (messageText errorCode reason currentTime : string).

(** A computation that returns a value and leaves a trace of events. *)
Definition Eff (A : Type) : Type := A * list Event.

Definition ret {A : Type} (a : A) : Eff A := (a, []).

Definition bind {A B : Type} (m : Eff A) (k : A -> Eff B) : Eff B :=
  let (b, w) := k (fst m) in (b, (snd m ++ w)%list).

Definition emit (e : Event) : Eff unit := (tt, [e]).

Definition value {A : Type} (m : Eff A) : A := fst m.
Definition trace {A : Type} (m : Eff A) : list Event := snd m.

Declare Scope eff_scope.
Delimit Scope eff_scope with eff.
Notation "x <- m ;; k" := (bind m (fun x => k))
  (at level 61, m at next level, right associativity) : eff_scope.
Notation "m ;; k" := (bind m (fun _ => k))
  (at level 61, right associativity) : eff_scope.

Definition isRemoteCall (e : Event) : bool :=
  match e with
  | RemoteCall _ => true
  | _ => false
  end.

Definition remoteCalls {A : Type} (m : Eff A) : list Event :=
  List.filter isRemoteCall (trace m).

Definition nl : string := String "010"%char EmptyString.
Definition dquote : string := String "034"%char EmptyString.

(** [%d] of a non-negative [int]. *)
Definition itoa (n : nat) : string :=
  NilEmpty.string_of_uint (Nat.to_uint n).

(** ** Package [groq] *)

Module groq.

(** The anonymous struct [CheckMessageContent] decodes the reply into. *)
Record moderationResult : Type :=
  { IsMalicious : bool; ErrorCode : string; Reason : string }.

Definition PromptTemplate : Type := string -> string.

Record Client : Type :=
  { client : option openai.Client;
    model : string;
    promptBuilder : PromptTemplate;
    blockedTerms : list string }.

(** [PromptTemplate] and [BlockedTerms] are [None] when the field is
    [nil]; [Some []] is the empty, non-nil slice. *)
Record Config : Type :=
  { APIKey : string;
    Model : string;
    BaseURL : string;
    cfgPromptTemplate : option PromptTemplate;
    BlockedTerms : option (list string) }.

(** The interface [MaliciousMessageSaver]: one method. *)
Record MaliciousMessageSaver : Type :=
  { saverSaveMaliciousMessage :
      Z -> Z -> string -> string -> string -> string -> error }.

Section Package.

(** What the package takes from outside the repository:
    - [caseTable]: the Unicode lower-case mapping of non-ASCII code
      points;
    - [json_Unmarshal text v]: [encoding/json]'s decoding of [text]
      into the struct holding [v], giving the struct afterwards and
      the error;
    - [defaultBlockedTermsFile]: the embedded file blocked_terms.txt;
    - [Getenv]: the process environment;
    - [NewClientWithConfig]: the API client a configuration yields. *)
Variable caseTable : Z -> Z.
Variable json_Unmarshal :
  string -> moderationResult -> moderationResult * error.
Variable defaultBlockedTermsFile : string.
Variable Getenv : string -> string.
Variable NewClientWithConfig : openai.ClientConfig -> openai.Client.

Definition ToLower : string -> string := strings.ToLower caseTable.

(** *** blocked_terms.go *)

Fixpoint defaultBlockedTerms_loop (lines : list string) : list string :=
  match lines with
  | [] => []
  | line :: lines' =>
      let trimmed := strings.TrimSpace line in
      if negb (String.eqb trimmed "") && negb (strings.HasPrefix trimmed "#")
      then trimmed :: defaultBlockedTerms_loop lines'
      else defaultBlockedTerms_loop lines'
  end.

Definition defaultBlockedTerms : Eff (list string) :=
  (if String.eqb defaultBlockedTermsFile "" then
     emit (LogPrintf "blocked_terms.txt is empty or not found") ;;
     ret []
   else
     let lines := strings.splitByte "010" defaultBlockedTermsFile in
     let terms := defaultBlockedTerms_loop lines in
     emit (LogPrintf ("Loaded " ++ itoa (List.length terms)
                        ++ " blocked terms from blocked_terms.txt")) ;;
     ret terms)%eff.

Definition isAlphanumeric (b : ascii) : bool :=
  ((byteval "a" <=? byteval b) && (byteval b <=? byteval "z"))
  || ((byteval "A" <=? byteval b) && (byteval b <=? byteval "Z"))
  || ((byteval "0" <=? byteval b) && (byteval b <=? byteval "9")).

(** The [for] loop of [isWholeWord]; [fuel] bounds its iterations. *)
Fixpoint isWholeWord_loop (fuel : nat) (message term : string)
  (index : Z) : Res bool :=
  match fuel with
  | O => Diverge
  | S fuel' =>
      (let* rest := sliceFrom message index in
       let pos := strings.Index rest term in
       if pos =? -1 then Ret false
       else
         let actualPos := index + pos in
         let beforeOK := actualPos =? 0 in
         let* beforeOK :=
           (if negb beforeOK && (0 <? actualPos) then
              let* beforeChar := byteAt message (actualPos - 1) in
              Ret (negb (isAlphanumeric beforeChar))
            else Ret beforeOK) in
         let afterPos := actualPos + len term in
         let afterOK := len message <=? afterPos in
         let* afterOK :=
           (if negb afterOK then
              let* afterChar := byteAt message afterPos in
              Ret (negb (isAlphanumeric afterChar))
            else Ret afterOK) in
         if beforeOK && afterOK then Ret true
         else isWholeWord_loop fuel' message term (actualPos + 1))%res
  end.

(** [index] grows by at least one in every iteration and the slice
    [message[index:]] panics beyond [len(message)], so the loop body
    runs at most [len(message) + 2] times. *)
Definition isWholeWord (message term : string) : Res bool :=
  isWholeWord_loop (S (S (String.length message))) message term 0.

(** The [for _, term := range blockedTerms] loop. *)
Fixpoint containsBlockedTerm_loop (messageLower normalizedMessage : string)
  (blockedTerms : list string) : Res (bool * string) :=
  match blockedTerms with
  | [] => Ret (false, "")
  | term :: rest =>
      let termLower := ToLower (strings.TrimSpace term) in
      if String.eqb termLower "" then
        containsBlockedTerm_loop messageLower normalizedMessage rest
      else if strings.Contains messageLower termLower
              || strings.Contains normalizedMessage termLower then
        (let* whole :=
           (let* inLower := isWholeWord messageLower termLower in
            if inLower then Ret true
            else isWholeWord normalizedMessage termLower) in
         if whole then Ret (true, termLower)
         else containsBlockedTerm_loop messageLower normalizedMessage rest)%res
      else containsBlockedTerm_loop messageLower normalizedMessage rest
  end.

Definition containsBlockedTerm (messageText : string)
  (blockedTerms : list string) : Res (bool * string) :=
  if (List.length blockedTerms =? 0)%nat then Ret (false, "")
  else
    let messageLower := ToLower messageText in
    let normalizedMessage := strings.ReplaceAll messageLower "_" " " in
    let normalizedMessage := strings.ReplaceAll normalizedMessage "-" " " in
    containsBlockedTerm_loop messageLower normalizedMessage blockedTerms.

(** *** message_filter.go: the client *)

Definition defaultPromptTemplate (messageText : string) : string :=
  String.concat nl
    [ "Analyze the following message and determine if it contains malicious, inappropriate, spam, or harmful content.";
      "";
      "Message: " ++ dquote ++ messageText ++ dquote;
      "";
      "Respond with ONLY a JSON object in this exact format:";
      "{";
      "  " ++ dquote ++ "is_malicious" ++ dquote ++ ": true or false,";
      "  " ++ dquote ++ "error_code" ++ dquote ++ ": "
        ++ dquote ++ "ERROR_CODE" ++ dquote ++ " or null,";
      "  " ++ dquote ++ "reason" ++ dquote ++ ": "
        ++ dquote ++ "brief reason" ++ dquote;
      "}";
      "";
      "Error codes to use if malicious:";
      "- CONTENT_SPAM: for spam messages";
      "- CONTENT_INAPPROPRIATE: for inappropriate language or content";
      "- CONTENT_HARASSMENT: for harassment or bullying";
      "- CONTENT_SCAM: for scam or phishing attempts";
      "- CONTENT_VIOLENCE: for violent or threatening content";
      "- CONTENT_OTHER: for other malicious content";
      "";
      "If the message is safe, set is_malicious to false and error_code to null." ].

Definition NewClient (cfg : Config) : Eff (option Client) :=
  (let apiKey := APIKey cfg in
   let apiKey :=
     if String.eqb apiKey "" then Getenv "GROQ_API_KEY" else apiKey in
   if String.eqb apiKey "" then
     emit (LogPrintf "GROQ_API_KEY not set, Groq client will not be initialized") ;;
     ret None
   else
     let model := Model cfg in
     let model :=
       if String.eqb model "" then
         let model := Getenv "GROQ_MODEL" in
         if String.eqb model "" then "llama-3.1-8b-instant" else model
       else model in
     let baseURL := BaseURL cfg in
     let baseURL :=
       if String.eqb baseURL "" then "https://api.groq.com/openai/v1"
       else baseURL in
     let openaiConfig := openai.DefaultConfig apiKey in
     let openaiConfig :=
       {| openai.authToken := openai.authToken openaiConfig;
          openai.BaseURL := baseURL |} in
     let client := NewClientWithConfig openaiConfig in
     let promptBuilder :=
       match cfgPromptTemplate cfg with
       | None => defaultPromptTemplate
       | Some builder => builder
       end in
     blockedTerms <-
       match BlockedTerms cfg with
       | None => defaultBlockedTerms
       | Some terms => ret terms
       end ;;
     emit (LogPrintf ("Groq client initialized successfully with model: "
                        ++ model)) ;;
     ret (Some {| client := Some client;
                  model := model;
                  promptBuilder := promptBuilder;
                  blockedTerms := blockedTerms |}))%eff.

Definition GetModel (c : option Client) : string :=
  match c with
  | None => "llama-3.1-8b-instant"
  | Some c' => model c'
  end.

Definition GetClient (c : option Client) : option openai.Client :=
  match c with
  | None => None
  | Some c' => client c'
  end.

(** *** CheckMessageContent *)

(** The receiver test [c == nil || c.client == nil]. *)
Definition initialized (c : option Client)
  : option (Client * openai.Client) :=
  match c with
  | None => None
  | Some c' =>
      match client c' with
      | None => None
      | Some api => Some (c', api)
      end
  end.

(** "Clean the response text (remove markdown code blocks if
    present)". *)
Definition cleanResponseText (responseText : string) : string :=
  let responseText := strings.TrimSpace responseText in
  let responseText :=
    if strings.HasPrefix responseText "```json" then
      let responseText := strings.TrimPrefix responseText "```json" in
      strings.TrimSuffix responseText "```"
    else if strings.HasPrefix responseText "```" then
      let responseText := strings.TrimPrefix responseText "```" in
      strings.TrimSuffix responseText "```"
    else responseText in
  strings.TrimSpace responseText.

Definition zeroResult : moderationResult :=
  {| IsMalicious := false; ErrorCode := ""; Reason := "" |}.

Definition CheckMessageContent (c : option Client) (ctx : Context)
  (messageText : string) : Eff (bool * string * string * error) :=
  (match initialized c with
   | None =>
       emit (LogPrintf "Groq client not initialized, allowing message") ;;
       ret (false, "", "", None)
   | Some (c', api) =>
       let model := GetModel c in
       let prompt := promptBuilder c' messageText in
       let request :=
         {| openai.Model := model;
            openai.Messages :=
              [ {| openai.Role := openai.ChatMessageRoleUser;
                   openai.Content := prompt |} ];
            openai.Temperature := (1, 10);
            openai.MaxTokens := 150 |} in
       emit (RemoteCall request) ;;
       let (resp, err) := openai.CreateChatCompletion api ctx request in
       match err with
       | Some e =>
           emit (LogPrintf ("Error calling Groq API: " ++ e)) ;;
           ret (false, "", "", Errorf_w "error calling Groq API: " e)
       | None =>
           match openai.Choices resp with
           | [] =>
               emit (LogPrintf "No response from Groq API") ;;
               ret (false, "", "", Some "no response from Groq API")
           | choice0 :: _ =>
               let responseText :=
                 openai.Content (openai.Message choice0) in
               emit (LogPrintf ("Groq moderation response: "
                                  ++ responseText)) ;;
               let responseText := cleanResponseText responseText in
               let (result, err) :=
                 json_Unmarshal responseText zeroResult in
               match err with
               | Some e =>
                   emit (LogPrintf ("Error parsing Groq JSON response: "
                                      ++ e ++ ", response: "
                                      ++ responseText)) ;;
                   if strings.Contains (ToLower responseText) "is_malicious"
                      && strings.Contains (ToLower responseText) "true"
                   then ret (true, "CONTENT_OTHER", "", None)
                   else ret (false, "", "", None)
               | None =>
                   if IsMalicious result then
                     let errorCode := ErrorCode result in
                     let errorCode :=
                       if String.eqb errorCode "" then "CONTENT_OTHER"
                       else errorCode in
                     emit (LogPrintf ("Message flagged as malicious: error_code="
                                        ++ errorCode ++ ", reason="
                                        ++ Reason result)) ;;
                     ret (true, errorCode, Reason result, None)
                   else ret (false, "", "", None)
               end
           end
       end
   end)%eff.

Definition FilterMessageWithAI (c : option Client) (ctx : Context)
  (messageText : string) : Eff (bool * string * string * error) :=
  CheckMessageContent c ctx messageText.

(** *** The malicious-message saver *)

(** [saver] is [None] for the [nil] interface value. *)
Definition SaveMaliciousMessage (saver : option MaliciousMessageSaver)
  (fromUserID toUserID : Z)
  (messageText errorCode reason currentTime : string) : Eff error :=
  (match saver with
   | None => ret None
   | Some s =>
       emit (SaverCall fromUserID toUserID messageText errorCode reason
               currentTime) ;;
       ret (saverSaveMaliciousMessage s fromUserID toUserID messageText
              errorCode reason currentTime)
   end)%eff.

End Package.

End groq.

(** ** Package [validators] *)

Module validators.

(** [validator.FieldLevel], of which the code reads
    [fl.Field().String()]. *)
Record FieldLevel : Type := { FieldString : string }.

Section Package.

Variable caseTable : Z -> Z.
Variable json_Unmarshal :
  string -> groq.moderationResult -> groq.moderationResult * error.

Definition AcceptableMessageValidator (groqClient : option groq.Client)
  (fl : FieldLevel) : Eff bool :=
  (let msg := FieldString fl in
   if String.eqb msg "" then ret true
   else
     let ctx := Background in
     r <- groq.FilterMessageWithAI caseTable json_Unmarshal groqClient ctx msg ;;
     let '(isMalicious, _, _, err) := r in
     match err with
     | Some e =>
         emit (LogPrintf ("Error validating message with Groq: " ++ e)) ;;
         ret false
     | None => ret (negb isMalicious)
     end)%eff.

End Package.

End validators.

(** ** A reference decoder for the reply struct (package [encoding/json])

    [json.Unmarshal] is outside the repository; the properties below hold
    for every decoder.  This executable decoder follows the documented
    behaviour of [encoding/json] for the struct of [CheckMessageContent]
    and serves to run the code on concrete replies.  Its error texts are
    abbreviations of Go's. *)

Module json.

#[local] Set Warnings "-register-all".

Inductive Value : Type :=
| Null
| Bool (b : bool)
| Number (literal : string)
| Str (s : string)
| Array (elems : list Value)
| Object (members : list (string * Value)).

Definition maxNestingDepth : Z := 10000.

Definition isSpace (c : ascii) : bool :=
  Ascii.eqb c " " || Ascii.eqb c "009" || Ascii.eqb c "013" || Ascii.eqb c "010".

Fixpoint skipSpace (s : string) : string :=
  match s with
  | String c s' => if isSpace c then skipSpace s' else s
  | EmptyString => s
  end.

Definition isDigit (c : ascii) : bool :=
  (byteval "0" <=? byteval c) && (byteval c <=? byteval "9").

Definition hexVal (c : ascii) : option Z :=
  let x := byteval c in
  if isDigit c then Some (x - byteval "0")
  else if (byteval "a" <=? x) && (x <=? byteval "f") then Some (x - byteval "a" + 10)
  else if (byteval "A" <=? x) && (x <=? byteval "F") then Some (x - byteval "A" + 10)
  else None.

(** [getu4 s]: the value of a leading [\uXXXX], or [-1]. *)
Definition getu4 (s : string) : Z :=
  match s with
  | String "\" (String "u" (String h1 (String h2 (String h3 (String h4 _))))) =>
      match hexVal h1, hexVal h2, hexVal h3, hexVal h4 with
      | Some a, Some b, Some c, Some d => ((a * 16 + b) * 16 + c) * 16 + d
      | _, _, _, _ => -1
      end
  | _ => -1
  end.

(** The raw text of a string literal up to its closing quote, and what
    follows the quote.  Control bytes and unknown escapes are syntax
    errors. *)
Fixpoint scanString (s : string) : option (string * string) :=
  match s with
  | EmptyString => None
  | String c s' =>
      if Ascii.eqb c "034" then Some (EmptyString, s')
      else if byteval c <? 32 then None
      else if Ascii.eqb c "\" then
        match s' with
        | String e s'' =>
            if Ascii.eqb e "u" then
              if getu4 s =? -1 then None
              else
                match scanString s'' with
                | Some (raw, rest) => Some (String c (String e raw), rest)
                | None => None
                end
            else if Ascii.eqb e "034" || Ascii.eqb e "\" || Ascii.eqb e "/"
                    || Ascii.eqb e "b" || Ascii.eqb e "f" || Ascii.eqb e "n"
                    || Ascii.eqb e "r" || Ascii.eqb e "t" then
              match scanString s'' with
              | Some (raw, rest) => Some (String c (String e raw), rest)
              | None => None
              end
            else None
        | EmptyString => None
        end
      else
        match scanString s' with
        | Some (raw, rest) => Some (String c raw, rest)
        | None => None
        end
  end.

Definition isSurrogate (r : Z) : bool := (0xD800 <=? r) && (r <? 0xE000).

(** [utf16.DecodeRune]. *)
Definition utf16_DecodeRune (r1 r2 : Z) : Z :=
  if (0xD800 <=? r1) && (r1 <? 0xDC00) && (0xDC00 <=? r2) && (r2 <? 0xE000)
  then Z.lor (Z.shiftl (r1 - 0xD800) 10) (r2 - 0xDC00) + 0x10000
  else utf8.RuneError.

Definition escapeByte (e : ascii) : ascii :=
  if Ascii.eqb e "b" then "008"
  else if Ascii.eqb e "f" then "012"
  else if Ascii.eqb e "n" then "010"
  else if Ascii.eqb e "r" then "013"
  else if Ascii.eqb e "t" then "009"
  else e.

(** The value of a scanned string literal: escapes are resolved and
    bytes that are not valid UTF-8 become U+FFFD. *)
Fixpoint unquote_from (skip : nat) (s : string) : string :=
  match s with
  | EmptyString => EmptyString
  | String c s' =>
      match skip with
      | S k => unquote_from k s'
      | O =>
          if Ascii.eqb c "\" then
            match s' with
            | String e _ =>
                if Ascii.eqb e "u" then
                  let rr := getu4 s in
                  if isSurrogate rr then
                    let dec := utf16_DecodeRune rr (getu4 (drop 6 s)) in
                    if negb (dec =? utf8.RuneError)
                    then utf8.EncodeRune dec ++ unquote_from 11 s'
                    else utf8.EncodeRune utf8.RuneError ++ unquote_from 5 s'
                  else utf8.EncodeRune rr ++ unquote_from 5 s'
                else String (escapeByte e) (unquote_from 1 s')
            | EmptyString => EmptyString
            end
          else if byteval c <? utf8.RuneSelf then String c (unquote_from 0 s')
          else
            let (rr, size) := utf8.DecodeRuneInString s in
            utf8.EncodeRune rr ++ unquote_from (size - 1) s'
      end
  end.

Definition unquote (raw : string) : string := unquote_from 0 raw.

Fixpoint spanDigits (s : string) : string * string :=
  match s with
  | String c s' =>
      if isDigit c then let (ds, rest) := spanDigits s' in (String c ds, rest)
      else (EmptyString, s)
  | EmptyString => (EmptyString, s)
  end.

(** A number literal at the head of [s]: its text and what follows. *)
Definition scanNumber (s : string) : option (string * string) :=
  let (sign, s1) :=
    match s with
    | String "-" s' => ("-", s')
    | _ => (EmptyString, s)
    end in
  let intPart :=
    match s1 with
    | String "0" s' => Some ("0", s')
    | String c _ =>
        if isDigit c then Some (spanDigits s1) else None
    | EmptyString => None
    end in
  match intPart with
  | None => None
  | Some (ip, s2) =>
      let frac :=
        match s2 with
        | String "." s' =>
            let (ds, rest) := spanDigits s' in
            if String.eqb ds EmptyString then None
            else Some ("." ++ ds, rest)
        | _ => Some (EmptyString, s2)
        end in
      match frac with
      | None => None
      | Some (fp, s3) =>
          let expo :=
            match s3 with
            | String e s' =>
                if Ascii.eqb e "e" || Ascii.eqb e "E" then
                  let (sg, s'') :=
                    match s' with
                    | String "+" t => ("+", t)
                    | String "-" t => ("-", t)
                    | _ => (EmptyString, s')
                    end in
                  let (ds, rest) := spanDigits s'' in
                  if String.eqb ds EmptyString then None
                  else Some (String e sg ++ ds, rest)
                else Some (EmptyString, s3)
            | EmptyString => Some (EmptyString, s3)
            end in
          match expo with
          | None => None
          | Some (ep, s4) => Some (sign ++ ip ++ fp ++ ep, s4)
          end
      end
  end.

(** The parser: [parseValue] reads one value at the head of [s];
    [parseMembers] and [parseElements] read what follows the opening
    bracket of a non-empty object or array.  [fuel] bounds the calls,
    [depth] counts the enclosing brackets. *)
Fixpoint parseValue (fuel : nat) (depth : Z) (s : string)
  : option (Value * string) :=
  match fuel with
  | O => None
  | S fuel' =>
      match s with
      | String "{" s' =>
          if maxNestingDepth <? depth + 1 then None
          else
            match skipSpace s' with
            | String "}" rest => Some (Object [], rest)
            | body =>
                match parseMembers fuel' (depth + 1) body with
                | Some (ms, rest) => Some (Object ms, rest)
                | None => None
                end
            end
      | String "[" s' =>
          if maxNestingDepth <? depth + 1 then None
          else
            match skipSpace s' with
            | String "]" rest => Some (Array [], rest)
            | body =>
                match parseElements fuel' (depth + 1) body with
                | Some (vs, rest) => Some (Array vs, rest)
                | None => None
                end
            end
      | String "034" s' =>
          match scanString s' with
          | Some (raw, rest) => Some (Str (unquote raw), rest)
          | None => None
          end
      | _ =>
          if strings.HasPrefix s "true" then Some (Bool true, drop 4 s)
          else if strings.HasPrefix s "false" then Some (Bool false, drop 5 s)
          else if strings.HasPrefix s "null" then Some (Null, drop 4 s)
          else
            match scanNumber s with
            | Some (lit, rest) => Some (Number lit, rest)
            | None => None
            end
      end
  end
with parseMembers (fuel : nat) (depth : Z) (s : string)
  : option (list (string * Value) * string) :=
  match fuel with
  | O => None
  | S fuel' =>
      match s with
      | String "034" s' =>
          match scanString s' with
          | Some (raw, afterKey) =>
              match skipSpace afterKey with
              | String ":" afterColon =>
                  match parseValue fuel' depth (skipSpace afterColon) with
                  | Some (v, afterValue) =>
                      match skipSpace afterValue with
                      | String "}" rest => Some ([(unquote raw, v)], rest)
                      | String "," more =>
                          match parseMembers fuel' depth (skipSpace more) with
                          | Some (ms, rest) => Some ((unquote raw, v) :: ms, rest)
                          | None => None
                          end
                      | _ => None
                      end
                  | None => None
                  end
              | _ => None
              end
          | None => None
          end
      | _ => None
      end
  end
with parseElements (fuel : nat) (depth : Z) (s : string)
  : option (list Value * string) :=
  match fuel with
  | O => None
  | S fuel' =>
      match parseValue fuel' depth s with
      | Some (v, afterValue) =>
          match skipSpace afterValue with
          | String "]" rest => Some ([v], rest)
          | String "," more =>
              match parseElements fuel' depth (skipSpace more) with
              | Some (vs, rest) => Some (v :: vs, rest)
              | None => None
              end
          | _ => None
          end
      | None => None
      end
  end.

(** One JSON value with optional white space around it. *)
Definition parse (text : string) : option Value :=
  match parseValue (S (String.length text)) 0 (skipSpace text) with
  | Some (v, rest) =>
      if String.eqb (skipSpace rest) EmptyString then Some v else None
  | None => None
  end.


(** Field names are matched exactly or under case folding: ASCII letters
    fold to upper case, and so do U+017F (long s) and U+212A (Kelvin
    sign), the two other code points whose fold class holds an ASCII
    letter. *)
Fixpoint foldName_from (skip : nat) (s : string) : string :=
  match s with
  | EmptyString => EmptyString
  | String c s' =>
      match skip with
      | S k => foldName_from k s'
      | O =>
          if (byteval "a" <=? byteval c) && (byteval c <=? byteval "z")
          then String (utf8.ofByte (byteval c - (byteval "a" - byteval "A")))
                 (foldName_from 0 s')
          else if strings.HasPrefix s (utf8.EncodeRune 0x17F)
          then String "S" (foldName_from 1 s')
          else if strings.HasPrefix s (utf8.EncodeRune 0x212A)
          then String "K" (foldName_from 2 s')
          else String c (foldName_from 0 s')
      end
  end.

Definition foldName (s : string) : string := foldName_from 0 s.

Definition isField (key name : string) : bool :=
  String.eqb key name || String.eqb (foldName key) (foldName name).

Definition typeError (what field : string) : string :=
  "json: cannot unmarshal " ++ what ++ " into Go struct field ." ++ field.

Definition kindOf (v : Value) : string :=
  match v with
  | Null => "null"
  | Bool _ => "bool"
  | Number _ => "number"
  | Str _ => "string"
  | Array _ => "array"
  | Object _ => "object"
  end.

(** The first error met is the one reported; decoding goes on. *)
Definition saveError (saved : error) (msg : string) : error :=
  match saved with
  | Some _ => saved
  | None => Some msg
  end.

Definition storeMember (key : string) (v : Value)
  (acc : groq.moderationResult * error) : groq.moderationResult * error :=
  let (r, saved) := acc in
  if isField key "is_malicious" then
    match v with
    | Bool b =>
        ({| groq.IsMalicious := b;
            groq.ErrorCode := groq.ErrorCode r;
            groq.Reason := groq.Reason r |}, saved)
    | Null => (r, saved)
    | _ => (r, saveError saved (typeError (kindOf v) "is_malicious"))
    end
  else if isField key "error_code" then
    match v with
    | Str x =>
        ({| groq.IsMalicious := groq.IsMalicious r;
            groq.ErrorCode := x;
            groq.Reason := groq.Reason r |}, saved)
    | Null => (r, saved)
    | _ => (r, saveError saved (typeError (kindOf v) "error_code"))
    end
  else if isField key "reason" then
    match v with
    | Str x =>
        ({| groq.IsMalicious := groq.IsMalicious r;
            groq.ErrorCode := groq.ErrorCode r;
            groq.Reason := x |}, saved)
    | Null => (r, saved)
    | _ => (r, saveError saved (typeError (kindOf v) "reason"))
    end
  else (r, saved).

Fixpoint storeMembers (ms : list (string * Value))
  (acc : groq.moderationResult * error) : groq.moderationResult * error :=
  match ms with
  | [] => acc
  | (key, v) :: ms' => storeMembers ms' (storeMember key v acc)
  end.

(** [Unmarshal text r]: a syntax error leaves [r] as it is; [null] is
    accepted and changes nothing; any value other than an object is a
    type error; the members of an object are stored in order, members
    with other names being skipped. *)
Definition Unmarshal (text : string) (r : groq.moderationResult)
  : groq.moderationResult * error :=
  match parse text with
  | None => (r, Some "json: syntax error")
  | Some Null => (r, None)
  | Some (Object ms) => storeMembers ms (r, None)
  | Some v => (r, Some (typeError (kindOf v) ""))
  end.

End json.

(** ** Concrete collaborators for running the code *)

Module example.

(** A case table that leaves every non-ASCII code point as it is.  It is
    consulted for no byte of an ASCII text. *)
Definition caseTable (r : Z) : Z := r.

(** Reply texts are written with ['] for the double quote. *)
Definition jsonText (s : string) : string := strings.ReplaceAll s "'" dquote.

Definition reply (content : string) : openai.ChatCompletionResponse * error :=
  ({| openai.Choices :=
        [ {| openai.Message :=
               {| openai.Role := "assistant"; openai.Content := content |} |} ] |},
   None).

(** A classifier that answers every request with [content]. *)
Definition classifier (content : string) : openai.Client :=
  {| openai.CreateChatCompletion := fun _ _ => reply content |}.

(** A classifier whose call fails. *)
Definition failing (msg : string) : openai.Client :=
  {| openai.CreateChatCompletion :=
       fun _ _ => ({| openai.Choices := [] |}, Some msg) |}.

(** A classifier that answers without any choice. *)
Definition mute : openai.Client :=
  {| openai.CreateChatCompletion :=
       fun _ _ => ({| openai.Choices := [] |}, None) |}.

Definition clientWith (api : openai.Client) (terms : list string)
  : groq.Client :=
  {| groq.client := Some api;
     groq.model := "llama-3.1-8b-instant";
     groq.promptBuilder := groq.defaultPromptTemplate;
     groq.blockedTerms := terms |}.

Definition check (c : option groq.Client) (text : string)
  : Eff (bool * string * string * error) :=
  groq.CheckMessageContent caseTable json.Unmarshal c Background text.

Definition validate (c : option groq.Client) (field : string) : Eff bool :=
  validators.AcceptableMessageValidator caseTable json.Unmarshal c
    {| validators.FieldString := field |}.

(** A process environment without any variable, and a configuration
    that sets nothing. *)
Definition noEnvironment (name : string) : string := "".

Definition emptyConfig : groq.Config :=
  {| groq.APIKey := "";
     groq.Model := "";
     groq.BaseURL := "";
     groq.cfgPromptTemplate := None;
     groq.BlockedTerms := None |}.

Definition newClient (cfg : groq.Config) : Eff (option groq.Client) :=
  groq.NewClient "spam" noEnvironment (fun _ => mute) cfg.

(** A saver whose store is out of reach. *)
Definition refusingSaver : groq.MaliciousMessageSaver :=
  {| groq.saverSaveMaliciousMessage :=
       fun _ _ _ _ _ _ => Some "database is down" |}.

Definition safeReply : string :=
  jsonText "{'is_malicious': false, 'error_code': null, 'reason': ''}".

Definition scamReply : string :=
  jsonText "{'is_malicious': true, 'error_code': 'CONTENT_SCAM', 'reason': 'phishing link'}".

Definition oddCodeReply : string :=
  jsonText "{'is_malicious': true, 'error_code': 'BANANA', 'reason': 'fruit'}".

End example.

(** ** The specification's vocabulary *)

Module spec.

(** The separator-normalized form of a text: ['_'] and ['-'] replaced by
    spaces. *)
Definition normalizeSeparators (s : string) : string :=
  strings.mapBytes
    (fun c => if Ascii.eqb c "_" || Ascii.eqb c "-" then " "%char else c) s.

(** ASCII letters and digits. *)
Definition alphanumeric (b : ascii) : Prop :=
  (byteval "a" <= byteval b <= byteval "z")
  \/ (byteval "A" <= byteval b <= byteval "Z")
  \/ (byteval "0" <= byteval b <= byteval "9").

(** The text before an occurrence is empty or ends with a byte that is
    not alphanumeric; likewise the text after it begins with one. *)
Definition cleanBefore (before : string) : Prop :=
  before = "" \/
  exists front b, before = front ++ String b "" /\ ~ alphanumeric b.

Definition cleanAfter (after : string) : Prop :=
  after = "" \/
  exists b back, after = String b back /\ ~ alphanumeric b.

(** [term] occurs in [text] at a word boundary. *)
Definition occursAtBoundary (text term : string) : Prop :=
  exists before after,
    text = before ++ term ++ after /\ cleanBefore before /\ cleanAfter after.

(** The same, for the occurrence that starts at offset [p]. *)
Definition boundaryAt (text term : string) (p : nat) : Prop :=
  exists before after,
    text = before ++ term ++ after /\ String.length before = p
    /\ cleanBefore before /\ cleanAfter after.

(** The two boundary tests as the loop of [isWholeWord] evaluates them at
    an occurrence starting at offset [p] and ending before offset [q]. *)
Definition cleanBeforeb (text : string) (p : nat) : bool :=
  match p with
  | O => true
  | S p' =>
      match String.get p' text with
      | Some b => negb (groq.isAlphanumeric b)
      | None => false
      end
  end.

Definition cleanAfterb (text : string) (q : nat) : bool :=
  if (String.length text <=? q)%nat then true
  else
    match String.get q text with
    | Some b => negb (groq.isAlphanumeric b)
    | None => false
    end.

(** A blocklist entry as it is compared: trimmed and lowered. *)
Definition candidate (caseTable : Z -> Z) (term : string) : string :=
  strings.ToLower caseTable (strings.TrimSpace term).

(** The entry [term] occurs at a word boundary in one of two forms of a
    message. *)
Definition hits (caseTable : Z -> Z) (messageLower normalizedMessage : string)
  (term : string) : Prop :=
  candidate caseTable term <> "" /\
  (occursAtBoundary messageLower (candidate caseTable term)
   \/ occursAtBoundary normalizedMessage (candidate caseTable term)).

(** The entry [term] matches the text [X]. *)
Definition termMatches (caseTable : Z -> Z) (X term : string) : Prop :=
  candidate caseTable term <> "" /\
  (occursAtBoundary (strings.ToLower caseTable X) (candidate caseTable term)
   \/ occursAtBoundary
        (normalizeSeparators (strings.ToLower caseTable X))
        (candidate caseTable term)).

(** A string made of white-space code points only. *)
Inductive whiteSpace : string -> Prop :=
| ws_nil : whiteSpace ""
| ws_cons : forall e w,
    In e strings.spaceEncodings -> whiteSpace w -> whiteSpace (e ++ w).

(** The six error codes of the verdict. *)
Definition definedCodes : list string :=
  [ "CONTENT_SPAM"; "CONTENT_INAPPROPRIATE"; "CONTENT_HARASSMENT";
    "CONTENT_SCAM"; "CONTENT_VIOLENCE"; "CONTENT_OTHER" ].

(** A string that neither begins nor ends with a white-space code point,
    whatever is put after it or before it. *)
Definition tight (core : string) : Prop :=
  (forall x, strings.cutPrefix strings.spaceEncodings (core ++ x) = None)
  /\ (forall x, strings.cutSuffix strings.spaceEncodings (x ++ core) = None).

(** A text that is one brace-delimited object with optional white space
    around it, as every JSON object text is. *)
Definition objectText (body : string) : Prop :=
  exists before inner after,
    whiteSpace before /\ whiteSpace after
    /\ body = before ++ "{" ++ inner ++ "}" ++ after.

(** [body] inside a markdown code fence with the language tag [lang],
    with white space [w1] .. [w4] around and inside the fence. *)
Definition fenced (lang w1 w2 w3 w4 body : string) : string :=
  w1 ++ "```" ++ lang ++ w2 ++ body ++ w3 ++ "```" ++ w4.

(** The classifier behind [api] answers every request with a first choice
    whose text is [content]. *)
Definition answers (api : openai.Client) (ctx : Context) (content : string)
  : Prop :=
  forall req, exists resp choice0 rest,
    openai.CreateChatCompletion api ctx req = (resp, None)
    /\ openai.Choices resp = choice0 :: rest
    /\ openai.Content (openai.Message choice0) = content.

(** The request [CheckMessageContent] sends for a message. *)
Definition requestFor (c : groq.Client) (messageText : string)
  : openai.ChatCompletionRequest :=
  {| openai.Model := groq.model c;
     openai.Messages :=
       [ {| openai.Role := openai.ChatMessageRoleUser;
            openai.Content := groq.promptBuilder c messageText |} ];
     openai.Temperature := (1, 10);
     openai.MaxTokens := 150 |}.

(** The verdict for a reply text: what is decoded from the cleaned text,
    or the fallback when decoding fails. *)
Definition verdictOfReply (caseTable : Z -> Z)
  (json_Unmarshal :
     string -> groq.moderationResult -> groq.moderationResult * error)
  (content : string) : bool * string * string * error :=
  let text := groq.cleanResponseText content in
  match json_Unmarshal text groq.zeroResult with
  | (_, Some _) =>
      if strings.Contains (strings.ToLower caseTable text) "is_malicious"
         && strings.Contains (strings.ToLower caseTable text) "true"
      then (true, "CONTENT_OTHER", "", None)
      else (false, "", "", None)
  | (result, None) =>
      if groq.IsMalicious result then
        (true,
         if String.eqb (groq.ErrorCode result) "" then "CONTENT_OTHER"
         else groq.ErrorCode result,
         groq.Reason result, None)
      else (false, "", "", None)
  end.

(** The invariant of verdicts as the specification words it. *)
Definition verdictInvariant (v : bool * string * string * error) : Prop :=
  let '(isMalicious, errorCode, reason, _) := v in
  (isMalicious = false -> errorCode = "" /\ reason = "")
  /\ (isMalicious = true -> In errorCode definedCodes /\ errorCode <> "").

(** The invariant the code keeps: a malicious verdict carries a
    non-empty code. *)
Definition verdictHasCode (v : bool * string * string * error) : Prop :=
  let '(isMalicious, errorCode, reason, _) := v in
  (isMalicious = false -> errorCode = "" /\ reason = "")
  /\ (isMalicious = true -> errorCode <> "").

End spec.

(** [hasByte c s]: the byte [c] occurs in [s]. *)
Fixpoint hasByte (c : ascii) (s : string) : bool :=
  match s with
  | EmptyString => false
  | String x s' => Ascii.eqb x c || hasByte c s'
  end.

(** ** Fixed-width integers *)

(** The value an [int64] (or [int]) holds after an operation whose exact
    result is [x], and likewise for [uint64] (or [uint]). *)
Definition wrap64 (x : Z) : Z := (x + 2 ^ 63) mod 2 ^ 64 - 2 ^ 63.
Definition wrapU64 (x : Z) : Z := x mod 2 ^ 64.

Definition maxInt64 : Z := 2 ^ 63 - 1.
Definition maxUint64 : Z := 2 ^ 64 - 1.

(** ** Package [time]: the wall-clock part of [time.Time] *)

Module time.

(** [abs] counts the seconds since January 1 of year 1 (an [int64]),
    [nsec] the nanoseconds within the second.  The monotonic reading a
    [Time] may carry plays no part in [Add] followed by [Unix]. *)
Record Time : Type := { abs : Z; nsec : Z }.

Definition unixToInternal : Z := 62135596800.
Definition internalToUnix : Z := - unixToInternal.

Definition Second : Z := 1000000000.
Definition Hour : Z := 3600 * Second.

(** [time.Unix(sec, nsec)]. *)
Definition Unix (sec nsec : Z) : Time :=
  let (sec, nsec) :=
    if (nsec <? 0) || (1000000000 <=? nsec) then
      let n := Z.quot nsec 1000000000 in
      let sec := wrap64 (sec + n) in
      let nsec := wrap64 (nsec - n * 1000000000) in
      if nsec <? 0 then (wrap64 (sec - 1), nsec + 1000000000) else (sec, nsec)
    else (sec, nsec) in
  {| abs := wrap64 (sec + unixToInternal); nsec := nsec |}.

(** [t.Unix()]. *)
Definition Time_Unix (t : Time) : Z := wrap64 (abs t + internalToUnix).

(** [addSec]: the sum saturates instead of wrapping around. *)
Definition addSec (t : Time) (d : Z) : Time :=
  let sum := wrap64 (abs t + d) in
  if Bool.eqb (abs t <? sum) (0 <? d) then {| abs := sum; nsec := nsec t |}
  else if 0 <? d then {| abs := maxInt64; nsec := nsec t |}
  else {| abs := - maxInt64; nsec := nsec t |}.

(** [t.Add(d)] for a duration [d] in nanoseconds; Go's [/] and [%]
    truncate towards zero. *)
Definition Add (t : Time) (d : Z) : Time :=
  let dsec := Z.quot d 1000000000 in
  let nsec' := nsec t + Z.rem d 1000000000 in
  let (dsec, nsec') :=
    if 1000000000 <=? nsec' then (wrap64 (dsec + 1), nsec' - 1000000000)
    else if nsec' <? 0 then (wrap64 (dsec - 1), nsec' + 1000000000)
    else (dsec, nsec') in
  addSec {| abs := abs t; nsec := nsec' |} dsec.

(** [time.Duration(n) * time.Second], an [int64] product. *)
Definition seconds (n : Z) : Z := wrap64 (n * Second).

End time.

(** ** Package [strconv]: [Atoi] *)

Module strconv.

Inductive NumError : Type :=
| ErrSyntax
| ErrRange.

(** The digit loop of the fast path: [None] at the first byte that is not
    a decimal digit. *)
Fixpoint digits (n : Z) (s : string) : option Z :=
  match s with
  | EmptyString => Some n
  | String ch s' =>
      let d := byteval ch - byteval "0" in
      if (0 <=? d) && (d <=? 9) then digits (n * 10 + d) s' else None
  end.

Definition lower (c : ascii) : Z := Z.lor (byteval c) (byteval "x" - byteval "X").

(** The loop of [ParseUint(s, 10, 64)]. *)
Fixpoint ParseUint_loop (n : Z) (s : string) : Z * option NumError :=
  match s with
  | EmptyString => (n, None)
  | String c s' =>
      let digit :=
        if (byteval "0" <=? byteval c) && (byteval c <=? byteval "9")
        then Some (byteval c - byteval "0")
        else if (byteval "a" <=? lower c) && (lower c <=? byteval "z")
        then Some (lower c - byteval "a" + 10)
        else None in
      match digit with
      | None => (0, Some ErrSyntax)
      | Some d =>
          if 10 <=? d then (0, Some ErrSyntax)
          else if maxUint64 / 10 + 1 <=? n then (maxUint64, Some ErrRange)
          else
            let n10 := n * 10 in
            let n1 := wrapU64 (n10 + d) in
            if n1 <? n10 then (maxUint64, Some ErrRange)
            else ParseUint_loop n1 s'
      end
  end.

Definition ParseUint (s : string) : Z * option NumError :=
  if String.eqb s "" then (0, Some ErrSyntax) else ParseUint_loop 0 s.

(** [ParseInt(s, 10, 0)] on a 64-bit platform. *)
Definition ParseInt (s : string) : Z * option NumError :=
  match s with
  | EmptyString => (0, Some ErrSyntax)
  | String c0 rest =>
      let neg := Ascii.eqb c0 "-" in
      let s1 := if Ascii.eqb c0 "+" || Ascii.eqb c0 "-" then rest else s in
      match ParseUint s1 with
      | (_, Some ErrSyntax) => (0, Some ErrSyntax)
      | (un, _) =>
          let cutoff := 2 ^ 63 in
          if negb neg && (cutoff <=? un) then (cutoff - 1, Some ErrRange)
          else if neg && (cutoff <? un) then (- cutoff, Some ErrRange)
          else (if neg then wrap64 (- wrap64 un) else wrap64 un, None)
      end
  end.

(** [Atoi] on a 64-bit platform: the fast path for 1 to 18 bytes, else
    [ParseInt]. *)
Definition Atoi (s : string) : Z * option NumError :=
  let sLen := String.length s in
  if (0 <? sLen)%nat && (sLen <? 19)%nat then
    match s with
    | EmptyString => (0, Some ErrSyntax)
    | String c0 rest =>
        let signed := Ascii.eqb c0 "-" || Ascii.eqb c0 "+" in
        let s1 := if signed then rest else s in
        if signed && (String.length s1 <? 1)%nat then (0, Some ErrSyntax)
        else
          match digits 0 s1 with
          | None => (0, Some ErrSyntax)
          | Some n => (if Ascii.eqb c0 "-" then - n else n, None)
          end
    end
  else ParseInt s.

End strconv.

(** ** Package [jwt] (github.com/dgrijalva/jwt-go): what the code uses *)

Module jwt.

Inductive SigningMethod : Type :=
| SigningMethodHMAC (alg : string)
| SigningMethodOther (alg : string).

(** The error text of a [ValidationError] built by
    [NewValidationError]. *)
Definition NewValidationError (errorText : string) : error := Some errorText.

End jwt.

(** ** Package [helpers] (jwt.go) *)

Module helpers.

Record CustomClaims : Type :=
  { Issuer : string;
    ID : string;
    IssuedAt : Z;
    ExpirationTime : Z;
    Name : string;
    Email : string;
    Avatar : string;
    About : string;
    AboutVideo : string;
    ProfileId : Z }.

Record UserContext : Type :=
  { userID : string;
    userName : string;
    userEmail : string;
    userAvatar : string;
    userAbout : string;
    userAboutVideo : string;
    userProfileId : Z }.

(** A parsed token: [tokenClaims] is [None] when the claims it carries
    are not a [*CustomClaims]. *)
Record Token : Type :=
  { Method : jwt.SigningMethod;
    headerAlg : string;
    tokenClaims : option CustomClaims;
    tokenValid : bool }.

(** The key function handed to the parser: the key, or an error. *)
Definition Keyfunc : Type := Token -> option string * error.

(** [c.Valid()], with [now] the reading of [time.Now().Unix()]. *)
Definition Valid (now : Z) (c : CustomClaims) : error :=
  if ExpirationTime c <? now
  then jwt.NewValidationError "token is expired"
  else if now <? IssuedAt c
  then jwt.NewValidationError "token used before issued"
  else None.

(** [c.WithValidAt(now)]: the receiver is a copy, so the result is a new
    value. *)
Definition WithValidAt (c : CustomClaims) (now : Z) : CustomClaims :=
  let nowTime := time.Unix now 0 in
  let expirationTime := time.Time_Unix (time.Add nowTime (time.Hour * 24)) in
  {| Issuer := Issuer c;
     ID := ID c;
     IssuedAt := now;
     ExpirationTime := expirationTime;
     Name := Name c;
     Email := Email c;
     Avatar := Avatar c;
     About := About c;
     AboutVideo := AboutVideo c;
     ProfileId := ProfileId c |}.

(** [c.GetID()]: the error of [Atoi] is dropped, the [int] converted to
    [uint]. *)
Definition GetID (c : CustomClaims) : Z :=
  let (id, _) := strconv.Atoi (ID c) in
  wrapU64 id.

Section Package.

(** The JWT library, outside the repository: [SignedString claims key]
    signs with HS256; [ParseWithClaims tokenString keyFunc] parses and
    validates, giving the token ([None] for [nil]) and the error.
    Validation reads the clock, so [ParseWithClaims] stands for the
    parser at one instant. *)
Variable SignedString : CustomClaims -> string -> string * error.
Variable ParseWithClaims : string -> Keyfunc -> option Token * error.

(** The claims [CreateToken] signs; [iat] is the reading of
    [time.Now()]. *)
Definition tokenClaimsFor (iat : time.Time) (user : UserContext)
  (url : string) (ttlSeconds : Z) (refresh : bool) (refreshTTL : Z)
  : CustomClaims :=
  let exp := time.Add iat (time.seconds ttlSeconds) in
  let exp := if refresh then time.Add exp (time.seconds refreshTTL) else exp in
  {| Issuer := url;
     IssuedAt := time.Time_Unix iat;
     ExpirationTime := time.Time_Unix exp;
     ID := userID user;
     Name := userName user;
     Email := userEmail user;
     Avatar := userAvatar user;
     About := userAbout user;
     AboutVideo := userAboutVideo user;
     ProfileId := userProfileId user |}.

Definition CreateToken (iat : time.Time) (user : UserContext) (url : string)
  (ttlSeconds : Z) (secretKey : string) (refresh : bool) (refreshTTL : Z)
  : string * error :=
  let claims := tokenClaimsFor iat user url ttlSeconds refresh refreshTTL in
  let (tokenString, err) := SignedString claims secretKey in
  match err with
  | Some e => ("", Some e)
  | None => (tokenString, None)
  end.

(** The key function both [GetTokenExpiration] and the middlewares pass
    to the parser. *)
Definition hmacKeyfunc (secretKey : string) : Keyfunc :=
  fun token =>
    match Method token with
    | jwt.SigningMethodHMAC _ => (Some secretKey, None)
    | jwt.SigningMethodOther _ =>
        (None, Some ("unexpected signing method: " ++ headerAlg token))
    end.

(** [token.Valid] on a [nil] token panics. *)
Definition rejected (token : option Token) (err : error) : Res bool :=
  match err with
  | Some _ => Ret true
  | None =>
      match token with
      | Some t => Ret (negb (tokenValid t))
      | None => Panic
      end
  end.

Definition GetTokenExpiration (tokenString : string) (secretKey : string)
  : Res (Z * error) :=
  let (token, err) := ParseWithClaims tokenString (hmacKeyfunc secretKey) in
  (let* bad := rejected token err in
   if bad then Ret (0, Some "invalid token")
   else
     match token with
     | None => Panic
     | Some t =>
         match tokenClaims t with
         | None => Ret (0, Some "could not parse claims")
         | Some claims => Ret (ExpirationTime claims, None)
         end
     end)%res.

End Package.

End helpers.

(** ** Package [talentpitchtools]: the Gin middlewares *)

Module talentpitchtools.

(** Of a [*gin.Context] the handlers read request headers and Gin's own
    [ClientIP()]. *)
Record Context : Type :=
  { GetHeader : string -> string;
    ClientIP : string }.

Inductive ContextValue : Type :=
| StringValue (s : string)
| ClaimsValue (claims : helpers.CustomClaims).

(** What a handler does with the context: [c.Set], [c.Next],
    [c.AbortWithStatus]. *)
Inductive Action : Type :=
| Set_ (key : string) (v : ContextValue)
| Next
| AbortWithStatus (code : Z).

Definition StatusUnauthorized : Z := 401.
Definition StatusForbidden : Z := 403.

Section Package.

(** Outside the repository: the JWT parser (at one instant), and
    [net.ParseIP] as the test [net.ParseIP(s) != nil]. *)
Variable ParseWithClaims :
  string -> helpers.Keyfunc -> option helpers.Token * error.
Variable ParseIP : string -> bool.

(** [ips[0]] of a split; a split is never empty. *)
Definition first (fields : list string) : string :=
  match fields with
  | [] => ""
  | f :: _ => f
  end.

Definition getClientIP (c : Context) : string :=
  let realIP := GetHeader c "X-Real-IP" in
  let fromRealIP :=
    if negb (String.eqb realIP "") then
      let ip := strings.TrimSpace realIP in
      if ParseIP ip then ip else ClientIP c
    else ClientIP c in
  let forwardedFor := GetHeader c "X-Forwarded-For" in
  if negb (String.eqb forwardedFor "") then
    let ips := strings.splitByte "," forwardedFor in
    if (0 <? List.length ips)%nat then
      let ip := strings.TrimSpace (first ips) in
      if ParseIP ip then ip else fromRealIP
    else fromRealIP
  else fromRealIP.

Definition clientIPMiddleware (c : Context) : list Action :=
  let ip := getClientIP c in
  [Set_ "client_ip" (StringValue ip); Next].

(** The type assertion of [token.Claims] to a [*helpers.CustomClaims]
    panics on a [nil] token and on claims of another type. *)
Definition claimsOf (token : option helpers.Token) : Res helpers.CustomClaims :=
  match token with
  | Some t =>
      match helpers.tokenClaims t with
      | Some claims => Ret claims
      | None => Panic
      end
  | None => Panic
  end.

Definition optionalJWTMiddleware (jwtSecret : string) (c : Context)
  : Res (list Action) :=
  let tokenHeader := GetHeader c "Authorization" in
  if String.eqb tokenHeader "" then Ret [Next]
  else
    let tokenSplit := strings.splitByte " " tokenHeader in
    if negb (List.length tokenSplit =? 2)%nat then Ret [Next]
    else
      let tokenString := List.nth 1 tokenSplit "" in
      let (token, err) :=
        ParseWithClaims tokenString (helpers.hmacKeyfunc jwtSecret) in
      (let* bad := helpers.rejected token err in
       if bad then Ret [Next]
       else
         let* claims := claimsOf token in
         Ret [Set_ "user" (ClaimsValue claims); Next])%res.

Definition JWTMiddleware (jwtSecret : string) (c : Context)
  : Res (list Action) :=
  let tokenHeader := GetHeader c "Authorization" in
  if String.eqb tokenHeader "" then Ret [AbortWithStatus StatusUnauthorized]
  else
    let tokenSplit := strings.splitByte " " tokenHeader in
    if negb (List.length tokenSplit =? 2)%nat
    then Ret [AbortWithStatus StatusUnauthorized]
    else
      let tokenString := List.nth 1 tokenSplit "" in
      let (token, err) :=
        ParseWithClaims tokenString (helpers.hmacKeyfunc jwtSecret) in
      (let* bad := helpers.rejected token err in
       if bad then Ret [AbortWithStatus StatusForbidden]
       else
         let* claims := claimsOf token in
         Ret [Set_ "user" (ClaimsValue claims); Next])%res.

End Package.

End talentpitchtools.

(** ** Sample tokens and requests *)

Module sample.

Definition claims : helpers.CustomClaims :=
  {| helpers.Issuer := "https://talentpitch.co";
     helpers.ID := "42";
     helpers.IssuedAt := 1700000000;
     helpers.ExpirationTime := 1700003600;
     helpers.Name := "Ada";
     helpers.Email := "ada@example.org";
     helpers.Avatar := "";
     helpers.About := "";
     helpers.AboutVideo := "";
     helpers.ProfileId := 7 |}.

(** A parser that accepts the one token string [good]. *)
Definition parser (tokenString : string) (keyFunc : helpers.Keyfunc)
  : option helpers.Token * error :=
  if String.eqb tokenString "good" then
    (Some {| helpers.Method := jwt.SigningMethodHMAC "HS256";
             helpers.headerAlg := "HS256";
             helpers.tokenClaims := Some claims;
             helpers.tokenValid := true |}, None)
  else (None, Some "token contains an invalid number of segments").

(** A request with the given [Authorization] header and no other. *)
Definition request (authorization : string) : talentpitchtools.Context :=
  {| talentpitchtools.GetHeader :=
       fun name => if String.eqb name "Authorization" then authorization else "";
     talentpitchtools.ClientIP := "192.168.0.9" |}.

End sample.

(** * Properties *)

(** ** Byte strings *)

Lemma append_nil_r (s : string) : s ++ "" = s.
Proof. induction s; simpl; congruence. Qed.

Lemma append_assoc (a b c : string) : (a ++ b) ++ c = a ++ (b ++ c).
Proof. induction a; simpl; congruence. Qed.

Lemma length_append (a b : string) :
  String.length (a ++ b) = (String.length a + String.length b)%nat.
Proof. induction a; simpl; congruence. Qed.

Lemma take_drop (n : nat) (s : string) : take n s ++ drop n s = s.
Proof.
  revert s; induction n as [|n IH]; intros [|c s]; simpl; try reflexivity.
  now rewrite IH.
Qed.

Lemma length_drop (n : nat) (s : string) :
  String.length (drop n s) = (String.length s - n)%nat.
Proof.
  revert s; induction n as [|n IH]; intros [|c s]; simpl; auto with arith.
Qed.

Lemma length_take (n : nat) (s : string) :
  (n <= String.length s)%nat -> String.length (take n s) = n.
Proof.
  revert s; induction n as [|n IH]; intros [|c s]; simpl; intros H;
    try reflexivity; try lia.
  rewrite IH; lia.
Qed.

Lemma drop_append (a b : string) : drop (String.length a) (a ++ b) = b.
Proof. induction a; simpl; auto. Qed.

Lemma take_append (a b : string) : take (String.length a) (a ++ b) = a.
Proof. induction a; simpl; congruence. Qed.

Lemma drop_drop (n m : nat) (s : string) : drop n (drop m s) = drop (m + n) s.
Proof.
  revert s; induction m as [|m IH]; intros s; simpl; [reflexivity|].
  destruct s as [|c s]; [destruct n; reflexivity|]. apply IH.
Qed.

Lemma drop_all (n : nat) (s : string) :
  (String.length s <= n)%nat -> drop n s = "".
Proof.
  revert s; induction n as [|n IH]; intros [|c s]; simpl; intros H;
    try reflexivity; try lia.
  apply IH; lia.
Qed.

Lemma HasPrefix_append (t r : string) : strings.HasPrefix (t ++ r) t = true.
Proof.
  induction t as [|c t IH]; simpl; [reflexivity|].
  now rewrite Ascii.eqb_refl, IH.
Qed.

Lemma HasPrefix_split (s t : string) :
  strings.HasPrefix s t = true -> s = t ++ drop (String.length t) s.
Proof.
  revert s; induction t as [|c t IH]; intros s H; simpl in *; [reflexivity|].
  destruct s as [|d s]; [discriminate|].
  apply andb_true_iff in H as [Hc Ht].
  apply Ascii.eqb_eq in Hc; subst d.
  simpl. f_equal. now apply IH.
Qed.

Lemma HasPrefix_iff (s t : string) :
  strings.HasPrefix s t = true <-> exists r, s = t ++ r.
Proof.
  split.
  - intros H; eexists; now apply HasPrefix_split.
  - intros [r ->]; apply HasPrefix_append.
Qed.

Lemma HasPrefix_length (s t : string) :
  strings.HasPrefix s t = true -> (String.length t <= String.length s)%nat.
Proof.
  intros H; apply HasPrefix_split in H.
  rewrite H, length_append; lia.
Qed.

(** ** [strings.Index] finds the first occurrence *)

Lemma Index_range (s t : string) :
  strings.Index s t = -1 \/ 0 <= strings.Index s t <= len s.
Proof.
  unfold len.
  induction s as [|c s IH]; simpl.
  - destruct (strings.HasPrefix "" t); simpl; lia.
  - destruct (strings.HasPrefix (String c s) t); [lia|].
    destruct (Z.eqb_spec (strings.Index s t) (-1)); lia.
Qed.

Lemma Index_none (s t : string) :
  strings.Index s t = -1 ->
  forall k, strings.HasPrefix (drop k s) t = false.
Proof.
  induction s as [|c s IH]; simpl; intros H k.
  - destruct (strings.HasPrefix "" t) eqn:E; [discriminate|].
    destruct k; exact E.
  - destruct (strings.HasPrefix (String c s) t) eqn:E; [discriminate|].
    destruct k as [|k]; [exact E|]. simpl.
    apply IH.
    destruct (Z.eqb_spec (strings.Index s t) (-1)); [assumption|].
    destruct (Index_range s t); lia.
Qed.

Lemma Index_found (s t : string) :
  0 <= strings.Index s t ->
  strings.HasPrefix (drop (Z.to_nat (strings.Index s t)) s) t = true
  /\ forall k, (k < Z.to_nat (strings.Index s t))%nat ->
               strings.HasPrefix (drop k s) t = false.
Proof.
  induction s as [|c s IH]; simpl; intros H.
  - destruct (strings.HasPrefix "" t) eqn:E; [|lia].
    split; [exact E|]. intros k Hk; simpl in Hk; lia.
  - destruct (strings.HasPrefix (String c s) t) eqn:E.
    + split; [exact E|]. intros k Hk; simpl in Hk; lia.
    + destruct (Z.eqb_spec (strings.Index s t) (-1)) as [Hn|Hn]; [lia|].
      assert (Hs : 0 <= strings.Index s t)
        by (destruct (Index_range s t); lia).
      destruct (IH Hs) as [Hat Hbefore].
      replace (Z.to_nat (strings.Index s t + 1))
        with (S (Z.to_nat (strings.Index s t))) by lia.
      split; [exact Hat|].
      intros [|k] Hk; [exact E|]. simpl. apply Hbefore. lia.
Qed.

Lemma Contains_false (s t : string) :
  strings.Contains s t = false ->
  forall k, strings.HasPrefix (drop k s) t = false.
Proof.
  unfold strings.Contains. intros H k.
  apply Index_none.
  destruct (Index_range s t); [assumption|].
  apply Z.leb_gt in H. lia.
Qed.

(** ** The bytes around an occurrence *)

Lemma get_append_at (a : string) (c : ascii) (b : string) :
  String.get (String.length a) (a ++ String c b) = Some c.
Proof. induction a; simpl; auto. Qed.

Lemma get_drop (n : nat) (s : string) :
  String.get n s = match drop n s with
                   | String c _ => Some c
                   | EmptyString => None
                   end.
Proof.
  revert s; induction n as [|n IH]; intros [|c s]; simpl; auto.
Qed.

Lemma last_byte (s : string) :
  s <> "" -> exists front b, s = front ++ String b "".
Proof.
  induction s as [|c s IH]; [congruence|]. intros _.
  destruct s as [|d s].
  - exists "", c; reflexivity.
  - destruct IH as [front [b E]]; [discriminate|].
    exists (String c front), b. simpl. now rewrite E.
Qed.

Lemma length_zero (s : string) : String.length s = 0%nat -> s = "".
Proof. destruct s; simpl; [reflexivity | discriminate]. Qed.

Lemma isAlphanumeric_spec (b : ascii) :
  groq.isAlphanumeric b = true <-> spec.alphanumeric b.
Proof.
  unfold groq.isAlphanumeric, spec.alphanumeric.
  rewrite !orb_true_iff, !andb_true_iff, !Z.leb_le. tauto.
Qed.

Lemma isAlphanumeric_false (b : ascii) :
  groq.isAlphanumeric b = false <-> ~ spec.alphanumeric b.
Proof.
  rewrite <- isAlphanumeric_spec.
  destruct (groq.isAlphanumeric b); split; congruence.
Qed.

(** ** One iteration of the loop of [isWholeWord] *)

Lemma get_in_range (n : nat) (s : string) :
  (n < String.length s)%nat -> exists b, String.get n s = Some b.
Proof.
  revert s; induction n as [|n IH]; intros [|c s]; simpl; intros H;
    try lia; eauto.
  apply IH; lia.
Qed.

Lemma isWholeWord_loop_step (fuel : nat) (message term : string) (i : nat) :
  (i <= String.length message)%nat ->
  groq.isWholeWord_loop (S fuel) message term (Z.of_nat i) =
    let pos := strings.Index (drop i message) term in
    if pos =? -1 then Ret false
    else
      let actualPos := (i + Z.to_nat pos)%nat in
      if spec.cleanBeforeb message actualPos
         && spec.cleanAfterb message (actualPos + String.length term)
      then Ret true
      else groq.isWholeWord_loop fuel message term (Z.of_nat (S actualPos)).
Proof.
  intros Hi. cbn [groq.isWholeWord_loop].
  unfold sliceFrom, len.
  replace ((0 <=? Z.of_nat i) && (Z.of_nat i <=? Z.of_nat (String.length message)))
    with true by (symmetry; apply andb_true_iff; split; apply Z.leb_le; lia).
  cbn [bindRes]. rewrite Nat2Z.id.
  set (pos := strings.Index (drop i message) term). cbv zeta.
  destruct (Z.eqb_spec pos (-1)) as [Hneg|Hpos]; [reflexivity|].
  assert (Hrange : 0 <= pos <= Z.of_nat (String.length message - i)).
  { destruct (Index_range (drop i message) term) as [H|H]; [contradiction|].
    unfold len in H. rewrite length_drop in H. exact H. }
  set (ap := (i + Z.to_nat pos)%nat).
  replace (Z.of_nat i + pos) with (Z.of_nat ap) by (unfold ap; lia).
  assert (Hap : (ap <= String.length message)%nat) by (unfold ap; lia).
  (* the byte before *)
  assert (Hbefore :
    (if negb (Z.of_nat ap =? 0) && (0 <? Z.of_nat ap)
     then bindRes (byteAt message (Z.of_nat ap - 1))
            (fun beforeChar => Ret (negb (groq.isAlphanumeric beforeChar)))
     else Ret (Z.of_nat ap =? 0))
    = Ret (spec.cleanBeforeb message ap)).
  { destruct ap as [|ap']; [reflexivity|].
    replace (Z.of_nat (S ap') =? 0) with false by (symmetry; apply Z.eqb_neq; lia).
    replace (0 <? Z.of_nat (S ap')) with true by (symmetry; apply Z.ltb_lt; lia).
    cbn [negb andb]. unfold byteAt, len.
    replace ((0 <=? Z.of_nat (S ap') - 1)
             && (Z.of_nat (S ap') - 1 <? Z.of_nat (String.length message)))
      with true by (symmetry; apply andb_true_iff; split;
                    [apply Z.leb_le | apply Z.ltb_lt]; lia).
    replace (Z.to_nat (Z.of_nat (S ap') - 1)) with ap' by lia.
    cbn [spec.cleanBeforeb].
    destruct (get_in_range ap' message) as [b Hb]; [lia|].
    rewrite Hb. reflexivity. }
  rewrite Hbefore. cbn [bindRes].
  (* the byte after *)
  assert (Hafter :
    (if negb (Z.of_nat (String.length message) <=? Z.of_nat ap + Z.of_nat (String.length term))
     then bindRes (byteAt message (Z.of_nat ap + Z.of_nat (String.length term)))
            (fun afterChar => Ret (negb (groq.isAlphanumeric afterChar)))
     else Ret (Z.of_nat (String.length message) <=? Z.of_nat ap + Z.of_nat (String.length term)))
    = Ret (spec.cleanAfterb message (ap + String.length term))).
  { unfold spec.cleanAfterb.
    destruct (Nat.leb_spec (String.length message) (ap + String.length term)) as [Hle|Hlt].
    - replace (Z.of_nat (String.length message) <=? Z.of_nat ap + Z.of_nat (String.length term))
        with true by (symmetry; apply Z.leb_le; lia).
      reflexivity.
    - replace (Z.of_nat (String.length message) <=? Z.of_nat ap + Z.of_nat (String.length term))
        with false by (symmetry; apply Z.leb_gt; lia).
      cbn [negb]. unfold byteAt, len.
      replace ((0 <=? Z.of_nat ap + Z.of_nat (String.length term))
               && (Z.of_nat ap + Z.of_nat (String.length term)
                   <? Z.of_nat (String.length message)))
        with true by (symmetry; apply andb_true_iff; split;
                      [apply Z.leb_le | apply Z.ltb_lt]; lia).
      replace (Z.to_nat (Z.of_nat ap + Z.of_nat (String.length term)))
        with (ap + String.length term)%nat by lia.
      destruct (get_in_range (ap + String.length term) message) as [b Hb]; [lia|].
      rewrite Hb. reflexivity. }
  rewrite Hafter. cbn [bindRes].
  replace (Z.of_nat ap + 1) with (Z.of_nat (S ap)) by lia.
  reflexivity.
Qed.

(** ** The boundary tests decide [spec.boundaryAt] *)

Lemma cleanBeforeb_sound (before rest : string) :
  spec.cleanBefore before ->
  spec.cleanBeforeb (before ++ rest) (String.length before) = true.
Proof.
  intros [-> | (front & b & -> & Hb)]; [reflexivity|].
  rewrite length_append. simpl String.length.
  replace (String.length front + 1)%nat with (S (String.length front)) by lia.
  cbn [spec.cleanBeforeb].
  rewrite append_assoc. simpl append.
  rewrite get_append_at.
  apply isAlphanumeric_false in Hb. now rewrite Hb.
Qed.

Lemma cleanAfterb_sound (front after : string) :
  spec.cleanAfter after ->
  spec.cleanAfterb (front ++ after) (String.length front) = true.
Proof.
  unfold spec.cleanAfterb.
  intros [-> | (b & back & -> & Hb)].
  - rewrite append_nil_r, Nat.leb_refl. reflexivity.
  - rewrite length_append. simpl String.length.
    destruct (Nat.leb_spec (String.length front + S (String.length back))
                (String.length front)); [lia|].
    rewrite get_append_at.
    apply isAlphanumeric_false in Hb. now rewrite Hb.
Qed.

Lemma cleanBeforeb_complete (text : string) (p : nat) :
  (p <= String.length text)%nat ->
  spec.cleanBeforeb text p = true -> spec.cleanBefore (take p text).
Proof.
  intros Hp H. destruct p as [|p']; [left; reflexivity|].
  right. cbn [spec.cleanBeforeb] in H.
  destruct (String.get p' text) as [b|] eqn:Hget; [|discriminate].
  destruct (last_byte (take (S p') text)) as (front & b' & E).
  { intros E. apply (f_equal String.length) in E.
    rewrite length_take in E by lia. discriminate. }
  assert (Hlen : String.length front = p').
  { apply (f_equal String.length) in E.
    rewrite length_take, length_append in E by lia. simpl in E. lia. }
  exists front, b'. split; [exact E|].
  assert (Hb : b = b').
  { rewrite <- (take_drop (S p') text), E, append_assoc in Hget.
    simpl append in Hget. rewrite <- Hlen, get_append_at in Hget. congruence. }
  subst b'. apply isAlphanumeric_false.
  destruct (groq.isAlphanumeric b); [discriminate | reflexivity].
Qed.

Lemma cleanAfterb_complete (text : string) (q : nat) :
  spec.cleanAfterb text q = true -> spec.cleanAfter (drop q text).
Proof.
  unfold spec.cleanAfterb. intros H.
  destruct (Nat.leb_spec (String.length text) q) as [Hle|Hlt].
  - left. now apply drop_all.
  - right. rewrite get_drop in H.
    destruct (drop q text) as [|b back]; [discriminate|].
    exists b, back. split; [reflexivity|].
    apply isAlphanumeric_false.
    destruct (groq.isAlphanumeric b); [discriminate | reflexivity].
Qed.

Lemma boundaryAt_iff (text term : string) (p : nat) :
  spec.boundaryAt text term p <->
  (p <= String.length text)%nat
  /\ strings.HasPrefix (drop p text) term = true
  /\ spec.cleanBeforeb text p = true
  /\ spec.cleanAfterb text (p + String.length term) = true.
Proof.
  split.
  - intros (before & after & -> & <- & Hb & Ha).
    repeat split.
    + rewrite length_append. lia.
    + rewrite drop_append. apply HasPrefix_append.
    + now apply cleanBeforeb_sound.
    + rewrite <- append_assoc, <- length_append.
      now apply cleanAfterb_sound.
  - intros (Hp & Hocc & Hb & Ha).
    exists (take p text), (drop (String.length term) (drop p text)).
    repeat split.
    + rewrite <- (HasPrefix_split _ _ Hocc). symmetry. apply take_drop.
    + now apply length_take.
    + now apply cleanBeforeb_complete.
    + rewrite drop_drop. now apply cleanAfterb_complete.
Qed.

Lemma occursAtBoundary_iff (text term : string) :
  spec.occursAtBoundary text term <-> exists p, spec.boundaryAt text term p.
Proof.
  split.
  - intros (before & after & E & Hb & Ha).
    exists (String.length before), before, after. auto.
  - intros (p & before & after & E & _ & Hb & Ha).
    exists before, after. auto.
Qed.

(** ** The loop of [isWholeWord] scans every occurrence *)

Lemma isWholeWord_loop_correct (message term : string) :
  term <> "" ->
  forall (fuel i : nat),
    (i <= String.length message)%nat ->
    (String.length message + 2 <= fuel + i)%nat ->
    exists b,
      groq.isWholeWord_loop fuel message term (Z.of_nat i) = Ret b
      /\ (b = true <->
          exists p, (i <= p)%nat /\ spec.boundaryAt message term p).
Proof.
  intros Hterm.
  assert (Hlen : (1 <= String.length term)%nat).
  { destruct term; [congruence | simpl; lia]. }
  induction fuel as [|fuel IH]; intros i Hi Hfuel; [lia|].
  rewrite isWholeWord_loop_step by exact Hi. cbv zeta.
  set (pos := strings.Index (drop i message) term).
  destruct (Z.eqb_spec pos (-1)) as [Hnone|Hsome].
  - (* no occurrence from [i] on *)
    exists false. split; [reflexivity|].
    split; [discriminate|].
    intros (p & Hp & Hat). exfalso.
    apply boundaryAt_iff in Hat as (_ & Hocc & _).
    pose proof (Index_none _ _ Hnone (p - i)%nat) as Hno.
    rewrite drop_drop in Hno.
    replace (i + (p - i))%nat with p in Hno by lia. congruence.
  - assert (Hrange : 0 <= pos <= Z.of_nat (String.length message - i)).
    { destruct (Index_range (drop i message) term) as [H|H]; [contradiction|].
      unfold len in H. rewrite length_drop in H. exact H. }
    destruct (Index_found (drop i message) term) as [Hocc Hfirst]; [lia|].
    fold pos in Hocc, Hfirst.
    rewrite drop_drop in Hocc.
    set (ap := (i + Z.to_nat pos)%nat) in *.
    assert (Hfit : (ap + String.length term <= String.length message)%nat).
    { apply HasPrefix_length in Hocc. rewrite length_drop in Hocc.
      assert (ap <= String.length message)%nat by (unfold ap; lia). lia. }
    assert (Hskip : forall p, (i <= p < ap)%nat -> ~ spec.boundaryAt message term p).
    { intros p Hp Hat. apply boundaryAt_iff in Hat as (_ & Hocc' & _).
      pose proof (Hfirst (p - i)%nat) as Hno.
      rewrite drop_drop in Hno.
      replace (i + (p - i))%nat with p in Hno by lia.
      rewrite Hno in Hocc'; [discriminate | unfold ap in Hp; lia]. }
    destruct (spec.cleanBeforeb message ap
              && spec.cleanAfterb message (ap + String.length term)) eqn:Hok.
    + (* a whole-word occurrence at [ap] *)
      exists true. split; [reflexivity|].
      split; [intros _ | reflexivity].
      exists ap. split; [unfold ap; lia|].
      apply andb_true_iff in Hok as [Hb Ha].
      apply boundaryAt_iff. repeat split; auto. lia.
    + (* go on after [ap] *)
      destruct (IH (S ap)) as (b & Hrun & Hb); [lia | lia |].
      exists b. split; [exact Hrun|].
      rewrite Hb. split.
      * intros (p & Hp & Hat). exists p. split; [unfold ap in Hp; lia | exact Hat].
      * intros (p & Hp & Hat). exists p. split; [|exact Hat].
        destruct (Nat.lt_ge_cases p ap) as [Hlt|Hge].
        { exfalso. apply (Hskip p); [lia | exact Hat]. }
        destruct (Nat.eq_dec p ap) as [->|Hne]; [|lia].
        exfalso. apply boundaryAt_iff in Hat as (_ & _ & Hb' & Ha').
        rewrite Hb', Ha' in Hok. discriminate.
Qed.

(** [isWholeWord] returns, and returns [true] exactly when the term occurs
    at a word boundary. *)
Lemma isWholeWord_decides (message term : string) :
  term <> "" ->
  exists b,
    groq.isWholeWord message term = Ret b
    /\ (b = true <-> spec.occursAtBoundary message term).
Proof.
  intros Hterm. unfold groq.isWholeWord.
  destruct (isWholeWord_loop_correct message term Hterm
              (S (S (String.length message))) 0) as (b & Hrun & Hb); [lia | lia |].
  exists b. split; [exact Hrun|].
  rewrite Hb, occursAtBoundary_iff. split.
  - intros (p & _ & Hat). now exists p.
  - intros (p & Hat). exists p. split; [lia | exact Hat].
Qed.

(** ** Separator normalization *)

Lemma ReplaceAll_byte (s : string) (c d : ascii) :
  strings.ReplaceAll s (String c "") (String d "")
  = strings.mapBytes (fun x => if Ascii.eqb x c then d else x) s.
Proof.
  unfold strings.ReplaceAll.
  induction s as [|x s IH]; [reflexivity|].
  cbn [strings.ReplaceAll_from strings.mapBytes strings.HasPrefix String.length].
  rewrite andb_true_r. cbn [Nat.sub].
  destruct (Ascii.eqb x c); simpl; now rewrite IH.
Qed.

Lemma mapBytes_mapBytes (f g : ascii -> ascii) (s : string) :
  strings.mapBytes g (strings.mapBytes f s)
  = strings.mapBytes (fun x => g (f x)) s.
Proof. induction s; simpl; congruence. Qed.

Lemma mapBytes_ext (f g : ascii -> ascii) (s : string) :
  (forall x, f x = g x) -> strings.mapBytes f s = strings.mapBytes g s.
Proof. intros H; induction s; simpl; congruence. Qed.

Lemma normalized_is_spec (s : string) :
  strings.ReplaceAll (strings.ReplaceAll s "_" " ") "-" " "
  = spec.normalizeSeparators s.
Proof.
  rewrite !ReplaceAll_byte, mapBytes_mapBytes.
  apply mapBytes_ext. intros x.
  destruct (Ascii.eqb x "_") eqn:E; [reflexivity|].
  cbn [orb]. reflexivity.
Qed.

(** ** The loop over the blocklist *)

Section BlockedTerms.

Variable caseTable : Z -> Z.
Variables messageLower normalizedMessage : string.

#[local] Abbreviation hit :=
  (spec.hits caseTable messageLower normalizedMessage).

Lemma occurs_Contains (text term : string) :
  spec.occursAtBoundary text term -> strings.Contains text term = true.
Proof.
  intros (before & after & -> & _).
  destruct (strings.Contains (before ++ term ++ after) term) eqn:E;
    [reflexivity|].
  pose proof (Contains_false _ _ E (String.length before)) as H.
  rewrite drop_append, HasPrefix_append in H. discriminate.
Qed.

Lemma whole_in_either (term : string) :
  term <> "" ->
  exists b,
    bindRes (groq.isWholeWord messageLower term)
      (fun inLower =>
         if inLower then Ret true
         else groq.isWholeWord normalizedMessage term) = Ret b
    /\ (b = true <->
        spec.occursAtBoundary messageLower term
        \/ spec.occursAtBoundary normalizedMessage term).
Proof.
  intros Hterm.
  destruct (isWholeWord_decides messageLower term Hterm) as (b1 & E1 & H1).
  destruct (isWholeWord_decides normalizedMessage term Hterm) as (b2 & E2 & H2).
  rewrite E1. cbn [bindRes]. destruct b1.
  - exists true. split; [reflexivity|]. split; [|reflexivity].
    intros _. left. now apply H1.
  - exists b2. split; [exact E2|]. rewrite H2. split; [now right|].
    intros [H|H]; [|exact H]. apply H1 in H. discriminate.
Qed.

Lemma containsBlockedTerm_loop_cons (term : string) (rest : list string) :
  (hit term ->
   groq.containsBlockedTerm_loop caseTable messageLower normalizedMessage
     (term :: rest) = Ret (true, spec.candidate caseTable term))
  /\ (~ hit term ->
      groq.containsBlockedTerm_loop caseTable messageLower normalizedMessage
        (term :: rest)
      = groq.containsBlockedTerm_loop caseTable messageLower
          normalizedMessage rest).
Proof.
  cbn [groq.containsBlockedTerm_loop]. unfold groq.ToLower.
  fold (spec.candidate caseTable term).
  set (t := spec.candidate caseTable term) in *.
  destruct (String.eqb_spec t "") as [Hempty|Hterm].
  { split; [|reflexivity]. intros [Hne _]. contradiction. }
  destruct (whole_in_either t Hterm) as (b & Hrun & Hb).
  destruct (strings.Contains messageLower t
            || strings.Contains normalizedMessage t) eqn:Hc.
  - rewrite Hrun. cbn [bindRes]. destruct b.
    + split; [reflexivity|]. intros Hno. exfalso. apply Hno.
      split; [exact Hterm|]. now apply Hb.
    + split; [|reflexivity]. intros [_ Hyes].
      apply Hb in Hyes. discriminate.
  - split; [|reflexivity]. intros [_ Hyes]. exfalso.
    apply orb_false_iff in Hc as [Hc1 Hc2]. subst t.
    destruct Hyes as [H|H]; apply occurs_Contains in H; congruence.
Qed.

Lemma containsBlockedTerm_loop_first (before : list string) (u : string)
  (after : list string) :
  hit u -> (forall v, In v before -> ~ hit v) ->
  groq.containsBlockedTerm_loop caseTable messageLower normalizedMessage
    (before ++ u :: after)%list = Ret (true, spec.candidate caseTable u).
Proof.
  intros Hu. induction before as [|v before IH]; intros Hbefore.
  - apply containsBlockedTerm_loop_cons. exact Hu.
  - cbn [app].
    destruct (containsBlockedTerm_loop_cons v (before ++ u :: after)%list)
      as [_ Hskip].
    rewrite Hskip by (apply Hbefore; now left).
    apply IH. intros w Hw. apply Hbefore. now right.
Qed.

Lemma containsBlockedTerm_loop_none (terms : list string) :
  (forall v, In v terms -> ~ hit v) ->
  groq.containsBlockedTerm_loop caseTable messageLower normalizedMessage terms
  = Ret (false, "").
Proof.
  induction terms as [|v terms IH]; intros Hnone; [reflexivity|].
  destruct (containsBlockedTerm_loop_cons v terms) as [_ Hskip].
  rewrite Hskip by (apply Hnone; now left).
  apply IH. intros w Hw. apply Hnone. now right.
Qed.

Lemma hits_decided (term : string) : hit term \/ ~ hit term.
Proof.
  unfold spec.hits.
  destruct (String.eqb_spec (spec.candidate caseTable term) "") as [E|E].
  - right. intros [H _]. contradiction.
  - destruct (whole_in_either _ E) as (b & _ & Hb). destruct b.
    + left. split; [exact E|]. now apply Hb.
    + right. intros [_ H]. apply Hb in H. discriminate.
Qed.

(** The loop returns: it neither panics nor runs out of iterations. *)
Lemma containsBlockedTerm_loop_returns (terms : list string) :
  exists r,
    groq.containsBlockedTerm_loop caseTable messageLower normalizedMessage terms
    = Ret r.
Proof.
  induction terms as [|v terms IH]; [now eexists|].
  destruct (containsBlockedTerm_loop_cons v terms) as [Hyes Hno].
  destruct (hits_decided v) as [H|H].
  - eexists. now apply Hyes.
  - rewrite (Hno H). exact IH.
Qed.

End BlockedTerms.

(** ** The term matcher *)

(** C2.  For every term list [T] and text [X], [containsBlockedTerm]
    returns.  When some entry of [T] (trimmed and lowered, empty entries
    never matching) occurs at a word boundary in the lowered [X] or in its
    separator-normalized form, it returns [true] with the first such entry
    in list order; when no entry does, it returns [(false, "")]; and the
    empty list always gives [(false, "")]. *)
Theorem containsBlockedTerm_first_match (caseTable : Z -> Z) (X : string)
  (T : list string) :
  (forall before u after,
      T = (before ++ u :: after)%list ->
      spec.termMatches caseTable X u ->
      (forall v, In v before -> ~ spec.termMatches caseTable X v) ->
      groq.containsBlockedTerm caseTable X T
      = Ret (true, spec.candidate caseTable u))
  /\ ((forall u, In u T -> ~ spec.termMatches caseTable X u) ->
      groq.containsBlockedTerm caseTable X T = Ret (false, ""))
  /\ groq.containsBlockedTerm caseTable X [] = Ret (false, "")
  /\ exists r, groq.containsBlockedTerm caseTable X T = Ret r.
Proof.
  unfold groq.containsBlockedTerm, spec.termMatches, groq.ToLower.
  rewrite normalized_is_spec.
  split; [|split; [|split; [reflexivity|]]].
  3: { destruct (List.length T =? 0)%nat; [now eexists|].
       apply containsBlockedTerm_loop_returns. }
  - intros before u after -> Hu Hbefore.
    destruct (before ++ u :: after)%list eqn:E;
      [destruct before; discriminate|].
    cbn [List.length Nat.eqb]. rewrite <- E.
    now apply containsBlockedTerm_loop_first.
  - intros Hnone. destruct T as [|t T]; [reflexivity|].
    cbn [List.length Nat.eqb].
    now apply containsBlockedTerm_loop_none.
Qed.

Lemma occurs_by_run (text term : string) :
  term <> "" -> groq.isWholeWord text term = Ret true ->
  spec.occursAtBoundary text term.
Proof.
  intros Hterm Hrun.
  destruct (isWholeWord_decides text term Hterm) as (b & E & Hb).
  apply Hb. congruence.
Qed.

Lemma no_occurrence_by_run (text term : string) :
  term <> "" -> groq.isWholeWord text term = Ret false ->
  ~ spec.occursAtBoundary text term.
Proof.
  intros Hterm Hrun Hocc.
  destruct (isWholeWord_decides text term Hterm) as (b & E & Hb).
  apply Hb in Hocc. congruence.
Qed.

(** Goals about concrete inputs are settled by running the code. *)
Ltac run := vm_compute; first [reflexivity | discriminate | congruence].

Lemma containsBlockedTerm_first_match_witness :
  groq.containsBlockedTerm example.caseTable "you ass!" ["foo"; " ASS "; "class"]
  = Ret (true, "ass")
  /\ groq.containsBlockedTerm example.caseTable "classroom" ["ass"; "room"]
     = Ret (false, "").
Proof.
  destruct (containsBlockedTerm_first_match example.caseTable "you ass!"
              ["foo"; " ASS "; "class"]) as [Hfirst _].
  destruct (containsBlockedTerm_first_match example.caseTable "classroom"
              ["ass"; "room"]) as (_ & Hnone & _).
  split.
  - apply (Hfirst ["foo"] " ASS " ["class"]).
    + reflexivity.
    + split; [run|]. left.
      apply occurs_by_run; run.
    + intros v [<- | []] [_ [H|H]]; revert H;
        apply no_occurrence_by_run; run.
  - apply Hnone.
    intros u [<- | [<- | []]] [_ [H|H]]; revert H;
      apply no_occurrence_by_run; run.
Defined.

(** C3.  Word-boundary enforcement.  [isAlphanumeric] holds exactly of the
    ASCII letters and digits; for a non-empty term [isWholeWord] returns,
    and its result is [true] exactly when some occurrence of the term, at
    whatever position, has no alphanumeric byte immediately before it and
    none immediately after it.  With the list ["ass"], the texts "class"
    and "classroom" give [(false, "")], "you ass!" gives [(true, "ass")]
    and "a_s_s" gives [(false, "")]; in "class ass" the second occurrence
    is the one that counts. *)
Theorem word_boundary_enforcement (caseTable : Z -> Z) :
  (forall b, groq.isAlphanumeric b = true <-> spec.alphanumeric b)
  /\ (forall message term,
         term <> "" ->
         exists b,
           groq.isWholeWord message term = Ret b
           /\ (b = true <-> spec.occursAtBoundary message term))
  /\ groq.containsBlockedTerm caseTable "class" ["ass"] = Ret (false, "")
  /\ groq.containsBlockedTerm caseTable "classroom" ["ass"] = Ret (false, "")
  /\ groq.containsBlockedTerm caseTable "you ass!" ["ass"] = Ret (true, "ass")
  /\ groq.containsBlockedTerm caseTable "a_s_s" ["ass"] = Ret (false, "")
  /\ groq.containsBlockedTerm caseTable "class ass" ["ass"] = Ret (true, "ass").
Proof.
  split; [exact isAlphanumeric_spec|].
  split; [exact isWholeWord_decides|].
  repeat split; run.
Qed.

Lemma word_boundary_enforcement_witness :
  exists b,
    groq.isWholeWord "class ass" "ass" = Ret b
    /\ (b = true <-> spec.occursAtBoundary "class ass" "ass").
Proof.
  destruct (word_boundary_enforcement example.caseTable) as (_ & Hword & _).
  apply Hword. discriminate.
Defined.

(** ** Runs of [CheckMessageContent] *)

Lemma value_bind {A B : Type} (m : Eff A) (k : A -> Eff B) :
  value (bind m k) = value (k (value m)).
Proof. unfold value, bind. destruct (k (fst m)); reflexivity. Qed.

Lemma trace_bind {A B : Type} (m : Eff A) (k : A -> Eff B) :
  trace (bind m k) = (trace m ++ trace (k (value m)))%list.
Proof. unfold trace, value, bind. destruct (k (fst m)); reflexivity. Qed.

Lemma remoteCalls_bind {A B : Type} (m : Eff A) (k : A -> Eff B) :
  remoteCalls (bind m k) = (remoteCalls m ++ remoteCalls (k (value m)))%list.
Proof. unfold remoteCalls. rewrite trace_bind. apply filter_app. Qed.

Section CheckMessageContent.

Variable caseTable : Z -> Z.
Variable json_Unmarshal :
  string -> groq.moderationResult -> groq.moderationResult * error.

#[local] Abbreviation check := (groq.CheckMessageContent caseTable json_Unmarshal).

Lemma check_uninitialized (c : option groq.Client) (ctx : Context)
  (text : string) :
  groq.initialized c = None ->
  check c ctx text
  = ((false, "", "", None),
     [LogPrintf "Groq client not initialized, allowing message"]).
Proof.
  intros H. unfold groq.CheckMessageContent. rewrite H. reflexivity.
Qed.

Lemma initialized_Some (c : option groq.Client) (c' : groq.Client)
  (api : openai.Client) :
  groq.initialized c = Some (c', api) ->
  c = Some c' /\ groq.client c' = Some api.
Proof.
  unfold groq.initialized. destruct c as [c0|]; [|discriminate].
  destruct (groq.client c0) eqn:E; [|discriminate].
  intros H; inversion H; subst. auto.
Qed.

(** An initialized client sends exactly one request. *)
Lemma check_remoteCalls (c : option groq.Client) (c' : groq.Client)
  (api : openai.Client) (ctx : Context) (text : string) :
  groq.initialized c = Some (c', api) ->
  remoteCalls (check c ctx text) = [RemoteCall (spec.requestFor c' text)].
Proof.
  intros H. destruct (initialized_Some _ _ _ H) as [-> Hapi].
  unfold groq.CheckMessageContent. rewrite H.
  cbn [groq.GetModel]. fold (spec.requestFor c' text).
  rewrite remoteCalls_bind. cbn [remoteCalls trace emit snd filter isRemoteCall app].
  f_equal.
  destruct (openai.CreateChatCompletion api ctx (spec.requestFor c' text))
    as [resp [e|]]; [reflexivity|].
  destruct (openai.Choices resp) as [|choice0 rest]; [reflexivity|].
  rewrite remoteCalls_bind. cbn [remoteCalls trace emit snd filter isRemoteCall app].
  destruct (json_Unmarshal _ _) as [result [e|]].
  - rewrite remoteCalls_bind. cbn [remoteCalls trace emit snd filter isRemoteCall app].
    destruct (_ && _); reflexivity.
  - destruct (groq.IsMalicious result); [|reflexivity].
    rewrite remoteCalls_bind. reflexivity.
Qed.

Lemma check_sent (c : option groq.Client) (c' : groq.Client)
  (api : openai.Client) (ctx : Context) (text : string)
  (req : openai.ChatCompletionRequest) :
  groq.initialized c = Some (c', api) ->
  In (RemoteCall req) (trace (check c ctx text)) ->
  req = spec.requestFor c' text.
Proof.
  intros H Hin.
  assert (Hf : In (RemoteCall req) (remoteCalls (check c ctx text))).
  { unfold remoteCalls. apply filter_In. split; [exact Hin | reflexivity]. }
  rewrite (check_remoteCalls _ _ _ _ _ H) in Hf.
  destruct Hf as [Hf | []]. congruence.
Qed.

Lemma check_call_error (c : option groq.Client) (c' : groq.Client)
  (api : openai.Client) (ctx : Context) (text : string)
  (resp : openai.ChatCompletionResponse) (e : string) :
  groq.initialized c = Some (c', api) ->
  openai.CreateChatCompletion api ctx (spec.requestFor c' text)
  = (resp, Some e) ->
  value (check c ctx text)
  = (false, "", "", Some ("error calling Groq API: " ++ e)).
Proof.
  intros H Hcall. destruct (initialized_Some _ _ _ H) as [-> Hapi].
  unfold groq.CheckMessageContent. rewrite H.
  cbn [groq.GetModel]. fold (spec.requestFor c' text).
  rewrite value_bind, Hcall. reflexivity.
Qed.

Lemma check_no_choice (c : option groq.Client) (c' : groq.Client)
  (api : openai.Client) (ctx : Context) (text : string)
  (resp : openai.ChatCompletionResponse) :
  groq.initialized c = Some (c', api) ->
  openai.CreateChatCompletion api ctx (spec.requestFor c' text)
  = (resp, None) ->
  openai.Choices resp = [] ->
  value (check c ctx text)
  = (false, "", "", Some "no response from Groq API").
Proof.
  intros H Hcall Hchoices. destruct (initialized_Some _ _ _ H) as [-> Hapi].
  unfold groq.CheckMessageContent. rewrite H.
  cbn [groq.GetModel]. fold (spec.requestFor c' text).
  rewrite value_bind, Hcall, Hchoices. reflexivity.
Qed.

(** With a reply in hand, the verdict is a function of its text. *)
Lemma check_reply (c : option groq.Client) (c' : groq.Client)
  (api : openai.Client) (ctx : Context) (text : string)
  (resp : openai.ChatCompletionResponse)
  (choice0 : openai.ChatCompletionChoice)
  (rest : list openai.ChatCompletionChoice) :
  groq.initialized c = Some (c', api) ->
  openai.CreateChatCompletion api ctx (spec.requestFor c' text)
  = (resp, None) ->
  openai.Choices resp = choice0 :: rest ->
  value (check c ctx text)
  = spec.verdictOfReply caseTable json_Unmarshal
      (openai.Content (openai.Message choice0)).
Proof.
  intros H Hcall Hchoices. destruct (initialized_Some _ _ _ H) as [-> Hapi].
  unfold groq.CheckMessageContent, spec.verdictOfReply. rewrite H.
  cbn [groq.GetModel]. fold (spec.requestFor c' text).
  rewrite value_bind, Hcall, Hchoices, value_bind.
  unfold groq.ToLower.
  destruct (json_Unmarshal _ _) as [result [e|]].
  - rewrite value_bind. destruct (_ && _); reflexivity.
  - destruct (groq.IsMalicious result); [|reflexivity].
    rewrite value_bind. reflexivity.
Qed.

End CheckMessageContent.

(** ** The blocklist stage and the client *)

(** The verdict and the request sent do not depend on the blocked terms
    the client holds. *)
Lemma check_ignores_blockedTerms (caseTable : Z -> Z)
  (json_Unmarshal :
     string -> groq.moderationResult -> groq.moderationResult * error)
  (c : groq.Client) (terms : list string) (ctx : Context) (text : string) :
  groq.CheckMessageContent caseTable json_Unmarshal
    (Some {| groq.client := groq.client c;
             groq.model := groq.model c;
             groq.promptBuilder := groq.promptBuilder c;
             groq.blockedTerms := terms |}) ctx text
  = groq.CheckMessageContent caseTable json_Unmarshal (Some c) ctx text.
Proof.
  destruct c as [api model builder held].
  unfold groq.CheckMessageContent, groq.initialized. cbn.
  destruct api; reflexivity.
Qed.

(** C1.  The blocklist stage that the documentation places before the
    remote call is not part of [CheckMessageContent]: with the blocklist
    ["spam"] and the text "This is SPAM!!" the term matcher reports the
    match, yet the run sends its request to the classifier and returns
    the classifier's verdict, here [(false, "", "")], instead of
    [(true, "CONTENT_INAPPROPRIATE", "")] without any call. *)
Theorem blocklist_match_reaches_classifier :
  let c := example.clientWith (example.classifier example.safeReply) ["spam"] in
  groq.containsBlockedTerm example.caseTable "This is SPAM!!"
    (groq.blockedTerms c) = Ret (true, "spam")
  /\ value (example.check (Some c) "This is SPAM!!") = (false, "", "", None)
  /\ remoteCalls (example.check (Some c) "This is SPAM!!")
     = [RemoteCall (spec.requestFor c "This is SPAM!!")].
Proof. repeat split; run. Qed.

(** ** The verdict invariant *)

Lemma verdictOfReply_hasCode (caseTable : Z -> Z)
  (json_Unmarshal :
     string -> groq.moderationResult -> groq.moderationResult * error)
  (content : string) :
  spec.verdictHasCode (spec.verdictOfReply caseTable json_Unmarshal content).
Proof.
  unfold spec.verdictOfReply, spec.verdictHasCode.
  destruct (json_Unmarshal _ _) as [result [e|]].
  - destruct (_ && _); split; intros; try discriminate; auto.
  - destruct (groq.IsMalicious result); split; intros; try discriminate; auto.
    destruct (String.eqb_spec (groq.ErrorCode result) ""); [discriminate | assumption].
Qed.

(** Every run ends in one of four ways. *)
Lemma check_cases (caseTable : Z -> Z)
  (json_Unmarshal :
     string -> groq.moderationResult -> groq.moderationResult * error)
  (c : option groq.Client) (ctx : Context) (text : string) :
  let v := value (groq.CheckMessageContent caseTable json_Unmarshal c ctx text) in
  v = (false, "", "", None)
  \/ (exists e, v = (false, "", "", Some e))
  \/ (exists content, v = spec.verdictOfReply caseTable json_Unmarshal content).
Proof.
  cbv zeta.
  destruct (groq.initialized c) as [[c' api]|] eqn:Hinit.
  - destruct (openai.CreateChatCompletion api ctx (spec.requestFor c' text))
      as [resp [e|]] eqn:Hcall.
    + right; left. eexists.
      eapply check_call_error; eassumption.
    + destruct (openai.Choices resp) as [|choice0 rest] eqn:Hchoices.
      * right; left. eexists.
        eapply check_no_choice; eassumption.
      * right; right. eexists.
        eapply check_reply; eassumption.
  - left. rewrite check_uninitialized by assumption. reflexivity.
Qed.

(** C4, as the code keeps it.  For every client, message and classifier
    behaviour: a verdict that is not malicious has an empty code and an
    empty reason; a malicious verdict has a non-empty code.  When the reply
    decodes, the code is the decoded [error_code] whatever string that is,
    and CONTENT_OTHER when the decoded code is empty. *)
Theorem verdict_has_code (caseTable : Z -> Z)
  (json_Unmarshal :
     string -> groq.moderationResult -> groq.moderationResult * error)
  (c : option groq.Client) (ctx : Context) (text : string) :
  spec.verdictHasCode
    (value (groq.CheckMessageContent caseTable json_Unmarshal c ctx text))
  /\ (forall c' api req resp choice0 rest result,
         groq.initialized c = Some (c', api) ->
         In (RemoteCall req)
           (trace (groq.CheckMessageContent caseTable json_Unmarshal c ctx text)) ->
         openai.CreateChatCompletion api ctx req = (resp, None) ->
         openai.Choices resp = choice0 :: rest ->
         json_Unmarshal
           (groq.cleanResponseText (openai.Content (openai.Message choice0)))
           groq.zeroResult = (result, None) ->
         groq.IsMalicious result = true ->
         value (groq.CheckMessageContent caseTable json_Unmarshal c ctx text)
         = (true,
            if String.eqb (groq.ErrorCode result) "" then "CONTENT_OTHER"
            else groq.ErrorCode result,
            groq.Reason result, None)).
Proof.
  split.
  - destruct (check_cases caseTable json_Unmarshal c ctx text)
      as [-> | [[e ->] | [content ->]]].
    + split; [auto | discriminate].
    + split; [auto | discriminate].
    + apply verdictOfReply_hasCode.
  - intros c' api req resp choice0 rest result Hinit Hsent Hcall Hchoices Hdec Hmal.
    apply (check_sent caseTable json_Unmarshal _ _ _ _ _ _ Hinit) in Hsent.
    subst req.
    rewrite (check_reply caseTable json_Unmarshal _ _ _ _ _ _ _ _ Hinit Hcall Hchoices).
    unfold spec.verdictOfReply. rewrite Hdec, Hmal. reflexivity.
Qed.

Lemma verdict_has_code_witness :
  value (example.check
           (Some (example.clientWith (example.classifier example.oddCodeReply) []))
           "hello")
  = (true, "BANANA", "fruit", None).
Proof.
  destruct (verdict_has_code example.caseTable json.Unmarshal
              (Some (example.clientWith (example.classifier example.oddCodeReply) []))
              Background "hello") as [_ Hcode].
  eapply (Hcode _ _ _ _ _ _
            {| groq.IsMalicious := true;
               groq.ErrorCode := "BANANA";
               groq.Reason := "fruit" |}).
  - reflexivity.
  - vm_compute. left. reflexivity.
  - reflexivity.
  - reflexivity.
  - run.
  - reflexivity.
Defined.

(** The invariant as the specification words it fails: a reply may carry
    a code outside the six defined ones, and the code is passed on. *)
Lemma verdict_code_outside_taxonomy :
  ~ (forall c text, spec.verdictInvariant (value (example.check c text))).
Proof.
  intros H.
  specialize (H (Some (example.clientWith
                         (example.classifier example.oddCodeReply) []))
                "hello").
  vm_compute in H. destruct H as [_ H].
  destruct (H eq_refl) as [Hin _].
  repeat (destruct Hin as [Hin|Hin]; [discriminate|]). exact Hin.
Qed.

(** ** Failing open *)

Lemma NewClient_without_key (defaultBlockedTermsFile : string)
  (Getenv : string -> string)
  (NewClientWithConfig : openai.ClientConfig -> openai.Client)
  (cfg : groq.Config) :
  groq.APIKey cfg = "" -> Getenv "GROQ_API_KEY" = "" ->
  value (groq.NewClient defaultBlockedTermsFile Getenv NewClientWithConfig cfg)
  = None.
Proof.
  intros Hkey Henv. unfold groq.NewClient. rewrite Hkey. cbn [String.eqb].
  rewrite Henv. reflexivity.
Qed.

(** C5.  A client that is not initialized, because the handle is [nil],
    because its API client is [nil], or because [NewClient] found no API
    key and returned [nil], answers every message with [(false, "", "")]
    and a [nil] error; the run writes one log line and sends nothing to
    the classifier. *)
Theorem uninitialized_client_fails_open (caseTable : Z -> Z)
  (json_Unmarshal :
     string -> groq.moderationResult -> groq.moderationResult * error)
  (defaultBlockedTermsFile : string) (Getenv : string -> string)
  (NewClientWithConfig : openai.ClientConfig -> openai.Client)
  (c : option groq.Client) (ctx : Context) (text : string) :
  c = None
  \/ (exists c', c = Some c' /\ groq.client c' = None)
  \/ (exists cfg,
         groq.APIKey cfg = "" /\ Getenv "GROQ_API_KEY" = ""
         /\ c = value (groq.NewClient defaultBlockedTermsFile Getenv
                         NewClientWithConfig cfg)) ->
  value (groq.CheckMessageContent caseTable json_Unmarshal c ctx text)
  = (false, "", "", None)
  /\ trace (groq.CheckMessageContent caseTable json_Unmarshal c ctx text)
     = [LogPrintf "Groq client not initialized, allowing message"]
  /\ remoteCalls (groq.CheckMessageContent caseTable json_Unmarshal c ctx text)
     = [].
Proof.
  intros Hc.
  assert (Hinit : groq.initialized c = None).
  { destruct Hc as [-> | [(c' & -> & Hapi) | (cfg & Hkey & Henv & ->)]].
    - reflexivity.
    - unfold groq.initialized. now rewrite Hapi.
    - now rewrite NewClient_without_key. }
  unfold remoteCalls.
  rewrite (check_uninitialized caseTable json_Unmarshal c ctx text Hinit).
  repeat split.
Qed.

Lemma uninitialized_client_fails_open_witness :
  value (example.check (value (example.newClient example.emptyConfig))
           "This is SPAM!!")
  = (false, "", "", None)
  /\ trace (example.check (value (example.newClient example.emptyConfig))
              "This is SPAM!!")
     = [LogPrintf "Groq client not initialized, allowing message"]
  /\ remoteCalls (example.check (value (example.newClient example.emptyConfig))
                    "This is SPAM!!")
     = [].
Proof.
  apply (uninitialized_client_fails_open example.caseTable json.Unmarshal
           "spam" example.noEnvironment (fun _ => example.mute)).
  right; right. exists example.emptyConfig.
  split; [reflexivity|]. split; reflexivity.
Defined.

(** C6.  When the request the run sends is answered with an error, or
    with a response that has no choice, [CheckMessageContent] returns
    [false] with an empty code and an empty reason, together with a
    non-[nil] error that describes the failure. *)
Theorem remote_failure_fails_open (caseTable : Z -> Z)
  (json_Unmarshal :
     string -> groq.moderationResult -> groq.moderationResult * error)
  (c : option groq.Client) (c' : groq.Client) (api : openai.Client)
  (ctx : Context) (text : string) (req : openai.ChatCompletionRequest)
  (resp : openai.ChatCompletionResponse) (err : error) :
  groq.initialized c = Some (c', api) ->
  In (RemoteCall req)
    (trace (groq.CheckMessageContent caseTable json_Unmarshal c ctx text)) ->
  openai.CreateChatCompletion api ctx req = (resp, err) ->
  err <> None \/ openai.Choices resp = [] ->
  exists failure,
    value (groq.CheckMessageContent caseTable json_Unmarshal c ctx text)
    = (false, "", "", Some failure)
    /\ failure = match err with
                 | Some e => "error calling Groq API: " ++ e
                 | None => "no response from Groq API"
                 end.
Proof.
  intros Hinit Hsent Hcall Hfail.
  apply (check_sent caseTable json_Unmarshal _ _ _ _ _ _ Hinit) in Hsent.
  subst req. destruct err as [e|].
  - eexists. split; [|reflexivity].
    eapply check_call_error; eassumption.
  - destruct Hfail as [Hfail|Hfail]; [congruence|].
    eexists. split; [|reflexivity].
    eapply check_no_choice; eassumption.
Qed.

Lemma remote_failure_fails_open_witness :
  (exists failure,
      value (example.check
               (Some (example.clientWith (example.failing "connection refused") []))
               "hello")
      = (false, "", "", Some failure)
      /\ failure = "error calling Groq API: connection refused")
  /\ (exists failure,
         value (example.check (Some (example.clientWith example.mute [])) "hello")
         = (false, "", "", Some failure)
         /\ failure = "no response from Groq API").
Proof.
  split.
  - eapply (remote_failure_fails_open example.caseTable json.Unmarshal
              (Some (example.clientWith (example.failing "connection refused") []))
              _ _ Background "hello" _ _ (Some "connection refused")).
    + reflexivity.
    + vm_compute. left. reflexivity.
    + reflexivity.
    + left. discriminate.
  - eapply (remote_failure_fails_open example.caseTable json.Unmarshal
              (Some (example.clientWith example.mute []))
              _ _ Background "hello" _ _ None).
    + reflexivity.
    + vm_compute. left. reflexivity.
    + reflexivity.
    + right. reflexivity.
Defined.

(** ** The validator adapter and the saver *)

(** C9.  The validator accepts an empty field without consulting the
    client; for a non-empty field it rejects whenever the check returns an
    error and otherwise accepts exactly when the check says not
    malicious. *)
Theorem validator_adapter (caseTable : Z -> Z)
  (json_Unmarshal :
     string -> groq.moderationResult -> groq.moderationResult * error)
  (groqClient : option groq.Client) (fl : validators.FieldLevel) :
  (validators.FieldString fl = "" ->
   validators.AcceptableMessageValidator caseTable json_Unmarshal groqClient fl
   = (true, []))
  /\ (validators.FieldString fl <> "" ->
      forall isMalicious errorCode reason err,
        value (groq.FilterMessageWithAI caseTable json_Unmarshal groqClient
                 Background (validators.FieldString fl))
        = (isMalicious, errorCode, reason, err) ->
        value (validators.AcceptableMessageValidator caseTable json_Unmarshal
                 groqClient fl)
        = match err with
          | Some _ => false
          | None => negb isMalicious
          end).
Proof.
  unfold validators.AcceptableMessageValidator. split.
  - intros ->. reflexivity.
  - intros Hne isMalicious errorCode reason err Hrun.
    destruct (String.eqb_spec (validators.FieldString fl) ""); [contradiction|].
    rewrite value_bind, Hrun.
    destruct err; [rewrite value_bind|]; reflexivity.
Qed.

Lemma validator_adapter_witness :
  example.validate
    (Some (example.clientWith (example.failing "connection refused") [])) ""
  = (true, [])
  /\ value (example.validate
              (Some (example.clientWith (example.failing "connection refused") []))
              "hello") = false
  /\ value (example.validate
              (Some (example.clientWith (example.classifier example.safeReply) []))
              "hello") = true
  /\ value (example.validate
              (Some (example.clientWith (example.classifier example.scamReply) []))
              "hello") = false.
Proof.
  unfold example.validate. split; [|split; [|split]].
  - apply validator_adapter. reflexivity.
  - apply (proj2 (validator_adapter example.caseTable json.Unmarshal _
                    {| validators.FieldString := "hello" |})
             ltac:(discriminate) false "" ""
             (Some "error calling Groq API: connection refused")).
    run.
  - apply (proj2 (validator_adapter example.caseTable json.Unmarshal _
                    {| validators.FieldString := "hello" |})
             ltac:(discriminate) false "" "" None).
    run.
  - apply (proj2 (validator_adapter example.caseTable json.Unmarshal _
                    {| validators.FieldString := "hello" |})
             ltac:(discriminate) true "CONTENT_SCAM" "phishing link" None).
    run.
Defined.

(** C10.  [SaveMaliciousMessage] with a [nil] saver returns [nil] and
    calls nothing; with a saver it calls the saver once with its own
    arguments and returns what the saver returns. *)
Theorem SaveMaliciousMessage_delegates (fromUserID toUserID : Z)
  (messageText errorCode reason currentTime : string) :
  groq.SaveMaliciousMessage None fromUserID toUserID messageText errorCode
    reason currentTime = (None, [])
  /\ forall saver,
      groq.SaveMaliciousMessage (Some saver) fromUserID toUserID messageText
        errorCode reason currentTime
      = (groq.saverSaveMaliciousMessage saver fromUserID toUserID messageText
           errorCode reason currentTime,
         [SaverCall fromUserID toUserID messageText errorCode reason
            currentTime]).
Proof. split; reflexivity. Qed.

(** ** Reversal, suffixes and prefixes *)

Lemma rev_append (a b : string) : rev (a ++ b) = rev b ++ rev a.
Proof.
  induction a as [|c a IH]; simpl.
  - now rewrite append_nil_r.
  - now rewrite IH, append_assoc.
Qed.

Lemma rev_involutive (s : string) : rev (rev s) = s.
Proof.
  induction s as [|c s IH]; simpl; [reflexivity|].
  rewrite rev_append, IH. reflexivity.
Qed.

Lemma length_rev (s : string) : String.length (rev s) = String.length s.
Proof.
  induction s as [|c s IH]; simpl; [reflexivity|].
  rewrite length_append, IH. simpl. lia.
Qed.

Lemma HasSuffix_iff (s e : string) :
  strings.HasSuffix s e = true <-> exists x, s = x ++ e.
Proof.
  unfold strings.HasSuffix. rewrite andb_true_iff, Nat.leb_le, String.eqb_eq.
  split.
  - intros [Hlen Hdrop].
    exists (take (String.length s - String.length e) s).
    transitivity (take (String.length s - String.length e) s
                  ++ drop (String.length s - String.length e) s).
    + symmetry. apply take_drop.
    + now rewrite Hdrop.
  - intros [x ->]. rewrite length_append. split; [lia|].
    replace (String.length x + String.length e - String.length e)%nat
      with (String.length x) by lia.
    apply drop_append.
Qed.

Lemma HasSuffix_rev (s e : string) :
  strings.HasSuffix s e = strings.HasPrefix (rev s) (rev e).
Proof.
  apply eq_true_iff_eq. rewrite HasSuffix_iff, HasPrefix_iff. split.
  - intros [x ->]. exists (rev x). apply rev_append.
  - intros [r H]. exists (rev r).
    rewrite <- (rev_involutive s), H, rev_append, rev_involutive. reflexivity.
Qed.

Lemma append_inj_r (a b c : string) : a ++ c = b ++ c -> a = b.
Proof.
  intros H. apply (f_equal rev) in H. rewrite !rev_append in H.
  assert (Hd : drop (String.length (rev c)) (rev c ++ rev a)
               = drop (String.length (rev c)) (rev c ++ rev b)) by now rewrite H.
  rewrite !drop_append in Hd.
  rewrite <- (rev_involutive a), Hd. apply rev_involutive.
Qed.

Lemma cutSuffix_rev (cands : list string) (s : string) :
  strings.cutSuffix cands s
  = option_map rev (strings.cutPrefix (List.map rev cands) (rev s)).
Proof.
  induction cands as [|e cands IH]; [reflexivity|].
  cbn [strings.cutSuffix strings.cutPrefix List.map].
  rewrite <- HasSuffix_rev.
  destruct (strings.HasSuffix s e) eqn:E; [|exact IH].
  cbn [option_map]. f_equal.
  apply HasSuffix_iff in E as [x ->].
  rewrite length_append.
  replace (String.length x + String.length e - String.length e)%nat
    with (String.length x) by lia.
  rewrite take_append, rev_append, drop_append. symmetry. apply rev_involutive.
Qed.

Lemma cutPrefix_Some (cands : list string) (s s' : string) :
  strings.cutPrefix cands s = Some s' ->
  exists e, In e cands /\ s = e ++ s'.
Proof.
  induction cands as [|e cands IH]; [discriminate|].
  cbn [strings.cutPrefix].
  destruct (strings.HasPrefix s e) eqn:E.
  - intros H; inversion H; subst. exists e. split; [now left|].
    now apply HasPrefix_split.
  - intros H. destruct (IH H) as (e' & Hin & Hs). exists e'. split; [now right | exact Hs].
Qed.

Lemma cutSuffix_Some (cands : list string) (s s' : string) :
  strings.cutSuffix cands s = Some s' ->
  exists e, In e cands /\ s = s' ++ e.
Proof.
  induction cands as [|e cands IH]; [discriminate|].
  cbn [strings.cutSuffix].
  destruct (strings.HasSuffix s e) eqn:E.
  - intros H; inversion H; subst. exists e. split; [now left|].
    apply HasSuffix_iff in E as [x ->].
    rewrite length_append.
    replace (String.length x + String.length e - String.length e)%nat
      with (String.length x) by lia.
    now rewrite take_append.
  - intros H. destruct (IH H) as (e' & Hin & Hs). exists e'. split; [now right | exact Hs].
Qed.

(** ** White space at the two ends of a string *)

Lemma spaceEncoding_nonempty (e : string) :
  In e strings.spaceEncodings -> (1 <= String.length e)%nat.
Proof.
  intros H. vm_compute in H.
  repeat (destruct H as [<- | H]; [simpl; lia|]). contradiction.
Qed.

(** A white-space code point at the head of a string is cut off. *)
Lemma cutPrefix_space (e s : string) :
  In e strings.spaceEncodings ->
  strings.cutPrefix strings.spaceEncodings (e ++ s) = Some s.
Proof.
  intros H. vm_compute in H.
  repeat (destruct H as [<- | H]; [vm_compute; reflexivity|]). contradiction.
Qed.

(** A white-space code point at the end of a string is cut off. *)
Lemma cutSuffix_space (e s : string) :
  In e strings.spaceEncodings ->
  strings.cutSuffix strings.spaceEncodings (s ++ e) = Some s.
Proof.
  intros H. rewrite cutSuffix_rev, rev_append.
  rewrite <- (rev_involutive s) at 2.
  generalize (rev s) as t. intros t.
  vm_compute in H.
  repeat (destruct H as [<- | H];
          [change (option_map rev (Some t) = Some (rev t)); f_equal;
           vm_compute; reflexivity|]).
  contradiction.
Qed.

Lemma whiteSpace_app (a b : string) :
  spec.whiteSpace a -> spec.whiteSpace b -> spec.whiteSpace (a ++ b).
Proof.
  intros Ha Hb. induction Ha as [|e w He Hw IH]; [exact Hb|].
  rewrite append_assoc. now constructor.
Qed.

Lemma whiteSpace_one (e : string) :
  In e strings.spaceEncodings -> spec.whiteSpace e.
Proof.
  intros H. rewrite <- (append_nil_r e). constructor; [exact H | constructor].
Qed.

Lemma whiteSpace_last (w : string) :
  spec.whiteSpace w ->
  w = "" \/ exists w' e,
      In e strings.spaceEncodings /\ spec.whiteSpace w' /\ w = w' ++ e.
Proof.
  induction 1 as [|e w He Hw IH]; [now left|]. right.
  destruct IH as [-> | (w' & e' & He' & Hw' & ->)].
  - exists "", e. rewrite append_nil_r. repeat split; [exact He | constructor].
  - exists (e ++ w'), e'. rewrite append_assoc.
    repeat split; [exact He' | now constructor].
Qed.

Lemma trimLeft_white (w : string) :
  spec.whiteSpace w ->
  forall fuel s,
    (String.length w <= fuel)%nat ->
    strings.cutPrefix strings.spaceEncodings s = None ->
    strings.trimLeft fuel (w ++ s) = s.
Proof.
  induction 1 as [|e w He Hw IH]; intros fuel s Hfuel Hs.
  - destruct fuel; cbn [strings.trimLeft append]; [reflexivity | now rewrite Hs].
  - rewrite length_append in Hfuel.
    pose proof (spaceEncoding_nonempty e He).
    destruct fuel as [|fuel]; [lia|].
    cbn [strings.trimLeft]. rewrite append_assoc, cutPrefix_space by exact He.
    apply IH; [lia | exact Hs].
Qed.

Lemma trimRight_white (fuel : nat) :
  forall w s,
    spec.whiteSpace w ->
    (String.length w <= fuel)%nat ->
    strings.cutSuffix strings.spaceEncodings s = None ->
    strings.trimRight fuel (s ++ w) = s.
Proof.
  induction fuel as [|fuel IH]; intros w s Hw Hfuel Hs.
  - assert (Hw0 : w = "") by (apply length_zero; lia). subst w.
    now rewrite append_nil_r.
  - cbn [strings.trimRight].
    destruct (whiteSpace_last w Hw) as [-> | (w' & e & He & Hw' & ->)].
    + now rewrite append_nil_r, Hs.
    + rewrite <- append_assoc, cutSuffix_space by exact He.
      rewrite length_append in Hfuel.
      pose proof (spaceEncoding_nonempty e He).
      apply IH; [exact Hw' | lia | exact Hs].
Qed.

(** [TrimSpace] removes the white space around a tight core. *)
Lemma TrimSpace_tight (wL core wR : string) :
  spec.whiteSpace wL -> spec.whiteSpace wR -> spec.tight core ->
  strings.TrimSpace (wL ++ core ++ wR) = core.
Proof.
  intros HL HR [Hhead Htail]. unfold strings.TrimSpace.
  rewrite trimLeft_white; [| exact HL | rewrite length_append; lia | apply Hhead].
  apply trimRight_white; [exact HR | rewrite length_append; lia |].
  apply (Htail "").
Qed.

Lemma TrimSpace_of_tight (core : string) :
  spec.tight core -> strings.TrimSpace core = core.
Proof.
  intros H.
  rewrite <- (append_nil_r core) at 1.
  apply (TrimSpace_tight "" core ""); [constructor | constructor | exact H].
Qed.

(** A string between two bytes that belong to no white-space code point
    is tight: so are a fenced block and a brace-delimited object. *)
Lemma tight_between (a b : ascii) (inner : string) :
  (forall x, strings.cutPrefix strings.spaceEncodings (String a x) = None) ->
  (forall x, strings.cutPrefix (List.map rev strings.spaceEncodings)
               (String b x) = None) ->
  spec.tight (String a inner ++ String b "").
Proof.
  intros Ha Hb. split; intros x.
  - cbn [append]. apply Ha.
  - rewrite cutSuffix_rev, <- append_assoc, rev_append. cbn [rev append].
    now rewrite Hb.
Qed.

Lemma tight_backticks (inner : string) : spec.tight ("`" ++ inner ++ "`").
Proof. apply tight_between; intros x; vm_compute; reflexivity. Qed.

Lemma tight_braces (inner : string) : spec.tight ("{" ++ inner ++ "}").
Proof. apply tight_between; intros x; vm_compute; reflexivity. Qed.

Lemma TrimSuffix_append (s e : string) : strings.TrimSuffix (s ++ e) e = s.
Proof.
  unfold strings.TrimSuffix.
  replace (strings.HasSuffix (s ++ e) e) with true
    by (symmetry; apply HasSuffix_iff; now exists s).
  rewrite length_append.
  replace (String.length s + String.length e - String.length e)%nat
    with (String.length s) by lia.
  apply take_append.
Qed.

(** White space, then an opening brace: the text does not start with
    ["json"]. *)
Lemma white_then_brace_not_json (w rest : string) :
  spec.whiteSpace w -> strings.HasPrefix (w ++ "{" ++ rest) "json" = false.
Proof.
  intros [|e w' He Hw']; [reflexivity|].
  rewrite append_assoc. vm_compute in He.
  repeat (destruct He as [<- | He]; [reflexivity|]). contradiction.
Qed.

(** ** Cleaning a fenced reply *)

(** Equations between concatenations: both sides are brought to the
    right-nested form. *)
Ltac assoc :=
  repeat first [rewrite append_assoc | progress cbn [append]]; reflexivity.

Lemma cleanResponseText_object (before inner after : string) :
  spec.whiteSpace before -> spec.whiteSpace after ->
  groq.cleanResponseText (before ++ "{" ++ inner ++ "}" ++ after)
  = "{" ++ inner ++ "}".
Proof.
  intros Hb Ha. unfold groq.cleanResponseText.
  replace (before ++ "{" ++ inner ++ "}" ++ after)
    with (before ++ ("{" ++ inner ++ "}") ++ after) by assoc.
  rewrite (TrimSpace_tight before ("{" ++ inner ++ "}") after Hb Ha
             (tight_braces inner)).
  cbn [append strings.HasPrefix Ascii.eqb Bool.eqb andb].
  apply (TrimSpace_of_tight _ (tight_braces inner)).
Qed.

Lemma cleanResponseText_fenced (lang w1 w2 w3 w4 before inner after : string) :
  lang = "json" \/ lang = "" ->
  spec.whiteSpace w1 -> spec.whiteSpace w2 ->
  spec.whiteSpace w3 -> spec.whiteSpace w4 ->
  spec.whiteSpace before -> spec.whiteSpace after ->
  groq.cleanResponseText
    (spec.fenced lang w1 w2 w3 w4 (before ++ "{" ++ inner ++ "}" ++ after))
  = "{" ++ inner ++ "}".
Proof.
  intros Hlang H1 H2 H3 H4 Hb Ha.
  set (body := before ++ "{" ++ inner ++ "}" ++ after).
  unfold groq.cleanResponseText, spec.fenced.
  (* the outer white space goes *)
  replace (w1 ++ "```" ++ lang ++ w2 ++ body ++ w3 ++ "```" ++ w4)
    with (w1 ++ ("`" ++ ("``" ++ lang ++ w2 ++ body ++ w3 ++ "``") ++ "`") ++ w4)
    by assoc.
  rewrite (TrimSpace_tight w1 _ w4 H1 H4 (tight_backticks _)).
  (* the fence goes *)
  assert (E : forall F,
             F = "`" ++ ("``" ++ lang ++ w2 ++ body ++ w3 ++ "``") ++ "`" ->
             (if strings.HasPrefix F "```json"
              then strings.TrimSuffix (strings.TrimPrefix F "```json") "```"
              else if strings.HasPrefix F "```"
                   then strings.TrimSuffix (strings.TrimPrefix F "```") "```"
                   else F)
             = w2 ++ body ++ w3).
  { intros F ->. destruct Hlang as [-> | ->].
    - replace ("`" ++ ("``" ++ "json" ++ w2 ++ body ++ w3 ++ "``") ++ "`")
        with ("```json" ++ ((w2 ++ body ++ w3) ++ "```")) by assoc.
      rewrite HasPrefix_append. unfold strings.TrimPrefix.
      rewrite HasPrefix_append, drop_append. apply TrimSuffix_append.
    - replace ("`" ++ ("``" ++ "" ++ w2 ++ body ++ w3 ++ "``") ++ "`")
        with ("```" ++ ((w2 ++ body ++ w3) ++ "```")) by assoc.
      replace (strings.HasPrefix ("```" ++ (w2 ++ body ++ w3) ++ "```") "```json")
        with false.
      + rewrite HasPrefix_append. unfold strings.TrimPrefix.
        rewrite HasPrefix_append, drop_append. apply TrimSuffix_append.
      + symmetry. cbn [append strings.HasPrefix Ascii.eqb Bool.eqb andb].
        unfold body.
        replace ((w2 ++ (before ++ "{" ++ inner ++ "}" ++ after) ++ w3) ++ "```")
          with ((w2 ++ before) ++ "{" ++ (inner ++ "}" ++ after ++ w3 ++ "```"))
          by assoc.
        apply (white_then_brace_not_json (w2 ++ before)).
        now apply whiteSpace_app. }
  rewrite (E _ eq_refl). clear E.
  (* the inner white space goes *)
  unfold body.
  replace (w2 ++ (before ++ "{" ++ inner ++ "}" ++ after) ++ w3)
    with ((w2 ++ before) ++ ("{" ++ inner ++ "}") ++ (after ++ w3))
    by assoc.
  apply TrimSpace_tight; [now apply whiteSpace_app | now apply whiteSpace_app |].
  apply tight_braces.
Qed.

Lemma verdictOfReply_fenced (caseTable : Z -> Z)
  (json_Unmarshal :
     string -> groq.moderationResult -> groq.moderationResult * error)
  (lang w1 w2 w3 w4 body : string) :
  lang = "json" \/ lang = "" ->
  spec.whiteSpace w1 -> spec.whiteSpace w2 ->
  spec.whiteSpace w3 -> spec.whiteSpace w4 ->
  spec.objectText body ->
  spec.verdictOfReply caseTable json_Unmarshal (spec.fenced lang w1 w2 w3 w4 body)
  = spec.verdictOfReply caseTable json_Unmarshal body.
Proof.
  intros Hlang H1 H2 H3 H4 (before & inner & after & Hb & Ha & ->).
  unfold spec.verdictOfReply.
  rewrite cleanResponseText_fenced by assumption.
  rewrite cleanResponseText_object by assumption.
  reflexivity.
Qed.

Lemma check_answers (caseTable : Z -> Z)
  (json_Unmarshal :
     string -> groq.moderationResult -> groq.moderationResult * error)
  (c : option groq.Client) (c' : groq.Client) (api : openai.Client)
  (ctx : Context) (text content : string) :
  groq.initialized c = Some (c', api) ->
  spec.answers api ctx content ->
  value (groq.CheckMessageContent caseTable json_Unmarshal c ctx text)
  = spec.verdictOfReply caseTable json_Unmarshal content.
Proof.
  intros Hinit Hans.
  destruct (Hans (spec.requestFor c' text))
    as (resp & choice0 & rest & Hcall & Hchoices & <-).
  eapply check_reply; eassumption.
Qed.

(** C8.  Fence stripping.  Whatever the decoder, a reply that is an object
    text inside a [```json] fence or a bare [```] fence, with any white
    space around and inside the fence, gets the verdict the bare object
    text gets.  With the reference decoder, the reply carrying
    [is_malicious=true], [error_code="CONTENT_SCAM"], [reason="phishing
    link"] yields exactly these three fields, fenced or not. *)
Theorem fence_stripping_round_trip (caseTable : Z -> Z)
  (json_Unmarshal :
     string -> groq.moderationResult -> groq.moderationResult * error) :
  (forall c1 c2 c1' c2' api1 api2 ctx text lang w1 w2 w3 w4 body,
      groq.initialized c1 = Some (c1', api1) ->
      groq.initialized c2 = Some (c2', api2) ->
      lang = "json" \/ lang = "" ->
      spec.whiteSpace w1 -> spec.whiteSpace w2 ->
      spec.whiteSpace w3 -> spec.whiteSpace w4 ->
      spec.objectText body ->
      spec.answers api1 ctx (spec.fenced lang w1 w2 w3 w4 body) ->
      spec.answers api2 ctx body ->
      value (groq.CheckMessageContent caseTable json_Unmarshal c1 ctx text)
      = value (groq.CheckMessageContent caseTable json_Unmarshal c2 ctx text))
  /\ (forall terms text,
         value (example.check
                  (Some (example.clientWith
                           (example.classifier
                              (spec.fenced "json" "" nl nl "" example.scamReply))
                           terms)) text)
         = (true, "CONTENT_SCAM", "phishing link", None)
         /\ value (example.check
                     (Some (example.clientWith
                              (example.classifier
                                 (spec.fenced "" " " nl nl " " example.scamReply))
                              terms)) text)
            = (true, "CONTENT_SCAM", "phishing link", None)
         /\ value (example.check
                     (Some (example.clientWith
                              (example.classifier example.scamReply) terms)) text)
            = (true, "CONTENT_SCAM", "phishing link", None)).
Proof.
  split.
  - intros c1 c2 c1' c2' api1 api2 ctx text lang w1 w2 w3 w4 body
      Hinit1 Hinit2 Hlang H1 H2 H3 H4 Hbody Hans1 Hans2.
    rewrite (check_answers caseTable json_Unmarshal _ _ _ _ _ _ Hinit1 Hans1).
    rewrite (check_answers caseTable json_Unmarshal _ _ _ _ _ _ Hinit2 Hans2).
    now apply verdictOfReply_fenced.
  - intros terms text. repeat split; vm_compute; reflexivity.
Qed.

Lemma fence_stripping_round_trip_witness :
  value (example.check
           (Some (example.clientWith
                    (example.classifier
                       (spec.fenced "json" " " nl nl (nl ++ " ") example.scamReply))
                    ["spam"])) "hello")
  = value (example.check
             (Some (example.clientWith
                      (example.classifier example.scamReply) [])) "hello").
Proof.
  assert (Hnl : spec.whiteSpace nl)
    by (apply whiteSpace_one; vm_compute; tauto).
  assert (Hsp : spec.whiteSpace " ")
    by (apply whiteSpace_one; vm_compute; tauto).
  eapply (proj1 (fence_stripping_round_trip example.caseTable json.Unmarshal)
            _ _ _ _ _ _ Background "hello" "json" " " nl nl (nl ++ " ")
            example.scamReply).
  - reflexivity.
  - reflexivity.
  - now left.
  - exact Hsp.
  - exact Hnl.
  - exact Hnl.
  - now apply whiteSpace_app.
  - exists "",
      (example.jsonText
         "'is_malicious': true, 'error_code': 'CONTENT_SCAM', 'reason': 'phishing link'"),
      "".
    split; [constructor|]. split; [constructor|]. vm_compute. reflexivity.
  - intros req. eexists; eexists; eexists. repeat split.
  - intros req. eexists; eexists; eexists. repeat split.
Defined.

(** ** Lowering, code point by code point *)

Lemma byteval_range (c : ascii) : 0 <= byteval c < 256.
Proof.
  unfold byteval. pose proof (N_ascii_bounded c). lia.
Qed.

Lemma ofByte_byteval (c : ascii) : utf8.ofByte (byteval c) = c.
Proof.
  unfold utf8.ofByte, byteval. rewrite N2Z.id. apply ascii_N_embedding.
Qed.

Lemma Decode_ascii (c : ascii) (s : string) :
  byteval c < utf8.RuneSelf ->
  utf8.DecodeRuneInString (String c s) = (byteval c, 1%nat).
Proof.
  intros H. unfold utf8.DecodeRuneInString.
  apply Z.ltb_lt in H. now rewrite H.
Qed.

Lemma Decode_width (s : string) :
  s <> "" ->
  (1 <= snd (utf8.DecodeRuneInString s) <= String.length s)%nat.
Proof.
  destruct s as [|b0 s]; [congruence|]. intros _.
  unfold utf8.DecodeRuneInString.
  repeat match goal with
         | |- context [if ?b then _ else _] => destruct b
         | |- context [match ?x with EmptyString => _ | String _ _ => _ end] =>
             destruct x
         end; cbn [snd String.length]; lia.
Qed.

(** What follows a string does not change its first code point, as long
    as it does not begin with a continuation byte. *)
Lemma inRange_not_cont (lo hi : Z) (h : ascii) :
  utf8.isCont h = false -> 0x80 <= lo -> hi <= 0xBF ->
  utf8.inRange lo hi h = false.
Proof.
  unfold utf8.isCont, utf8.inRange. intros H Hlo Hhi.
  apply andb_false_iff in H. apply andb_false_iff.
  rewrite !Z.leb_gt in *. lia.
Qed.

Lemma Decode_append (s e : string) :
  s <> "" ->
  (forall h t, e = String h t -> utf8.isCont h = false) ->
  utf8.DecodeRuneInString (s ++ e) = utf8.DecodeRuneInString s.
Proof.
  destruct s as [|b0 s]; [congruence|]. intros _ He.
  assert (Hr : forall lo hi h t, e = String h t -> 0x80 <= lo -> hi <= 0xBF ->
                                 utf8.inRange lo hi h = false).
  { intros lo hi h t E Hlo Hhi. apply inRange_not_cont; eauto. }
  unfold utf8.DecodeRuneInString. cbn [append].
  destruct (byteval b0 <? utf8.RuneSelf); [reflexivity|].
  destruct ((0xC2 <=? byteval b0) && (byteval b0 <=? 0xDF)).
  { destruct s as [|b1 s]; [|reflexivity]. cbn [append].
    destruct e as [|h t]; [reflexivity|]. now rewrite (He h t eq_refl). }
  destruct ((0xE0 <=? byteval b0) && (byteval b0 <=? 0xEF)).
  { destruct s as [|b1 [|b2 s]]; cbn [append]; [| |reflexivity].
    - destruct e as [|h [|h2 t]]; try reflexivity.
      rewrite (Hr _ _ h (String h2 t) eq_refl); [reflexivity | |];
        destruct (byteval b0 =? _); lia.
    - destruct e as [|h t]; [reflexivity|].
      rewrite (He h t eq_refl), andb_false_r. reflexivity. }
  destruct ((0xF0 <=? byteval b0) && (byteval b0 <=? 0xF4)); [|reflexivity].
  destruct s as [|b1 [|b2 [|b3 s]]]; cbn [append]; [| | |reflexivity].
  - destruct e as [|h [|h2 [|h3 t]]]; try reflexivity.
    rewrite (Hr _ _ h (String h2 (String h3 t)) eq_refl); [reflexivity | |];
      destruct (byteval b0 =? _); lia.
  - destruct e as [|h [|h2 t]]; try reflexivity.
    rewrite (He h (String h2 t) eq_refl), andb_false_r. reflexivity.
  - destruct e as [|h t]; [reflexivity|].
    rewrite (He h t eq_refl), andb_false_r. reflexivity.
Qed.

Lemma Map_from_nil (skip : nat) (f : Z -> Z) : strings.Map_from skip f "" = "".
Proof. destruct skip; reflexivity. Qed.

Lemma Map_from_skip (f : Z -> Z) (a x : string) :
  strings.Map_from (String.length a) f (a ++ x) = strings.Map_from 0 f x.
Proof. induction a as [|c a IH]; [reflexivity | exact IH]. Qed.

Lemma Map_from_append (f : Z -> Z) (e : string) :
  (forall h t, e = String h t -> utf8.isCont h = false) ->
  forall s skip,
    (skip <= String.length s)%nat ->
    strings.Map_from skip f (s ++ e)
    = strings.Map_from skip f s ++ strings.Map_from 0 f e.
Proof.
  intros He. induction s as [|c s IH]; intros skip Hskip.
  - cbn in Hskip. replace skip with 0%nat by lia. reflexivity.
  - destruct skip as [|k].
    + change (String c s ++ e) with (String c (s ++ e)).
      cbn [strings.Map_from].
      change (String c (s ++ e)) with (String c s ++ e).
      rewrite Decode_append by (congruence || exact He).
      pose proof (Decode_width (String c s) ltac:(congruence)) as Hw.
      destruct (utf8.DecodeRuneInString (String c s)) as [r w].
      cbn [snd String.length] in Hw.
      rewrite IH by lia. now rewrite append_assoc.
    + cbn [append strings.Map_from]. apply IH. cbn in Hskip. lia.
Qed.

(** An ASCII byte in front is lowered on its own. *)
Lemma Map_ascii (caseTable : Z -> Z) (c : ascii) (s : string) :
  byteval c < utf8.RuneSelf ->
  strings.Map (unicode.ToLower caseTable) (String c s)
  = String (strings.lowerByte c) (strings.Map (unicode.ToLower caseTable) s).
Proof.
  intros Hc. unfold strings.Map. cbn [strings.Map_from].
  rewrite Decode_ascii by exact Hc. cbn [Nat.sub].
  unfold unicode.ToLower, strings.lowerByte, unicode.MaxASCII, utf8.RuneSelf in *.
  pose proof (byteval_range c) as Hrange.
  replace (byteval c <=? 127) with true by (symmetry; apply Z.leb_le; lia).
  destruct ((byteval "A" <=? byteval c) && (byteval c <=? byteval "Z")) eqn:E.
  - apply andb_true_iff in E as [E1 E2]. apply Z.leb_le in E1, E2.
    change (byteval "A") with 65 in *. change (byteval "Z") with 90 in *.
    change (byteval "a") with 97.
    replace (0 <=? byteval c + (97 - 65)) with true by (symmetry; apply Z.leb_le; lia).
    unfold utf8.EncodeRune.
    replace ((0 <=? byteval c + (97 - 65)) && (byteval c + (97 - 65) <=? 127))
      with true by (symmetry; apply andb_true_iff; split; apply Z.leb_le; lia).
    reflexivity.
  - replace (0 <=? byteval c) with true by (symmetry; apply Z.leb_le; lia).
    unfold utf8.EncodeRune.
    replace ((0 <=? byteval c) && (byteval c <=? 127))
      with true by (symmetry; apply andb_true_iff; split; apply Z.leb_le; lia).
    unfold utf8.str1. rewrite ofByte_byteval. reflexivity.
Qed.

(** The two paths of [ToLower] agree: it is [Map] with
    [unicode.ToLower]. *)
Lemma ToLower_is_Map (caseTable : Z -> Z) (s : string) :
  strings.ToLower caseTable s
  = strings.Map (unicode.ToLower caseTable) s.
Proof.
  unfold strings.ToLower. destruct (strings.isASCII s) eqn:E; [|reflexivity].
  induction s as [|c s IH]; [reflexivity|].
  cbn [strings.isASCII] in E. apply andb_true_iff in E as [Hc Hs].
  apply Z.ltb_lt in Hc.
  rewrite Map_ascii by exact Hc. cbn [strings.mapBytes].
  now rewrite IH.
Qed.

(** ** The fallback scans the same tokens in the raw and the cleaned reply *)

Lemma Index_cons_skip (b : ascii) (s tok : string) :
  strings.HasPrefix (String b s) tok = false ->
  strings.Contains (String b s) tok = strings.Contains s tok.
Proof.
  intros H. unfold strings.Contains. cbn [strings.Index]. rewrite H.
  destruct (Z.eqb_spec (strings.Index s tok) (-1)) as [E|E].
  - rewrite E. reflexivity.
  - destruct (Index_range s tok) as [?|?]; [contradiction|].
    apply eq_true_iff_eq. rewrite !Z.leb_le. lia.
Qed.

Lemma Contains_iff (s tok : string) :
  strings.Contains s tok = true <-> exists pre post, s = pre ++ tok ++ post.
Proof.
  split.
  - unfold strings.Contains. intros H. apply Z.leb_le in H.
    destruct (Index_found s tok H) as [Hocc _].
    apply HasPrefix_split in Hocc.
    eexists; eexists. rewrite <- Hocc. symmetry. apply take_drop.
  - intros (pre & post & ->).
    destruct (strings.Contains (pre ++ tok ++ post) tok) eqn:E; [reflexivity|].
    pose proof (Contains_false _ _ E (String.length pre)) as H.
    rewrite drop_append, HasPrefix_append in H. discriminate.
Qed.

Lemma Contains_rev (s tok : string) :
  strings.Contains s tok = strings.Contains (rev s) (rev tok).
Proof.
  apply eq_true_iff_eq. rewrite !Contains_iff. split.
  - intros (pre & post & ->). exists (rev post), (rev pre).
    rewrite !rev_append. now rewrite append_assoc.
  - intros (pre & post & H). exists (rev post), (rev pre).
    rewrite <- (rev_involutive s), H, !rev_append, rev_involutive.
    now rewrite append_assoc.
Qed.

Lemma trimLeft_decomp (fuel : nat) (s : string) :
  exists w, spec.whiteSpace w /\ s = w ++ strings.trimLeft fuel s.
Proof.
  revert s. induction fuel as [|fuel IH]; intros s.
  - exists "". split; [constructor | reflexivity].
  - cbn [strings.trimLeft].
    destruct (strings.cutPrefix strings.spaceEncodings s) as [s'|] eqn:E.
    + destruct (cutPrefix_Some _ _ _ E) as (e & He & ->).
      destruct (IH s') as (w & Hw & Hs').
      exists (e ++ w). split; [now constructor|].
      rewrite append_assoc. now rewrite <- Hs'.
    + exists "". split; [constructor | reflexivity].
Qed.

Lemma trimRight_decomp (fuel : nat) (s : string) :
  exists w, spec.whiteSpace w /\ s = strings.trimRight fuel s ++ w.
Proof.
  revert s. induction fuel as [|fuel IH]; intros s.
  - exists "". split; [constructor | now rewrite append_nil_r].
  - cbn [strings.trimRight].
    destruct (strings.cutSuffix strings.spaceEncodings s) as [s'|] eqn:E.
    + destruct (cutSuffix_Some _ _ _ E) as (e & He & ->).
      destruct (IH s') as (w & Hw & Hs').
      exists (w ++ e). split.
      * apply whiteSpace_app; [exact Hw | now apply whiteSpace_one].
      * rewrite <- append_assoc. now rewrite <- Hs'.
    + exists "". split; [constructor | now rewrite append_nil_r].
Qed.

Lemma TrimSpace_decomp (s : string) :
  exists wL wR,
    spec.whiteSpace wL /\ spec.whiteSpace wR
    /\ s = wL ++ strings.TrimSpace s ++ wR.
Proof.
  unfold strings.TrimSpace.
  destruct (trimLeft_decomp (String.length s) s) as (wL & HL & Hs).
  set (s1 := strings.trimLeft (String.length s) s) in *.
  destruct (trimRight_decomp (String.length s1) s1) as (wR & HR & Hs1).
  exists wL, wR. repeat split; try assumption.
  now rewrite <- Hs1.
Qed.

Lemma EncodeRune_nonempty (r : Z) : utf8.EncodeRune r <> "".
Proof.
  unfold utf8.EncodeRune, utf8.encode3, utf8.str1.
  repeat match goal with
         | |- context [if ?b then _ else _] => destruct b
         end; discriminate.
Qed.

Lemma space_rune_facts (r : Z) :
  In r unicode.spaceRunes ->
  unicode.IsSpace r = true
  /\ 0 <= r
  /\ (forall x, utf8.DecodeRuneInString (utf8.EncodeRune r ++ x)
                = (r, String.length (utf8.EncodeRune r)))
  /\ (r <= unicode.MaxASCII ->
      (byteval "A" <=? r) && (r <=? byteval "Z") = false).
Proof.
  intros H. vm_compute in H.
  repeat (destruct H as [<- | H];
          [split; [reflexivity|]; split; [lia|]; split;
           [intros x; vm_compute; reflexivity
           | intros Hle; vm_compute; first [reflexivity | vm_compute in Hle; congruence]]
          |]).
  contradiction.
Qed.

Lemma white_head (w : string) :
  spec.whiteSpace w ->
  forall h t, w = String h t -> utf8.isCont h = false.
Proof.
  intros [|e w' He Hw'] h t E; [discriminate|].
  vm_compute in He.
  repeat (destruct He as [<- | He];
          [cbn [append] in E; inversion E; subst; vm_compute; reflexivity|]).
  contradiction.
Qed.

Section Fallback.

Variable caseTable : Z -> Z.

(** No white-space code point has a lower-case form of its own. *)
Hypothesis spaces_unchanged :
  forall r, unicode.IsSpace r = true -> unicode.MaxASCII < r -> caseTable r = r.

#[local] Abbreviation lower := (strings.Map (unicode.ToLower caseTable)).

Lemma Map_space (e x : string) :
  In e strings.spaceEncodings -> lower (e ++ x) = e ++ lower x.
Proof.
  intros He. apply in_map_iff in He as (r & <- & Hr).
  destruct (space_rune_facts r Hr) as (Hsp & Hpos & Hdec & Hascii).
  pose proof (EncodeRune_nonempty r) as Hne.
  destruct (utf8.EncodeRune r) as [|c e'] eqn:Ee; [congruence|].
  unfold strings.Map. cbn [append strings.Map_from].
  change (String c (e' ++ x)) with (String c e' ++ x).
  rewrite Hdec. cbn [String.length Nat.sub].
  rewrite Nat.sub_0_r, Map_from_skip.
  assert (Hlow : unicode.ToLower caseTable r = r).
  { unfold unicode.ToLower.
    destruct (Z.leb_spec r unicode.MaxASCII) as [Hle|Hgt].
    - now rewrite (Hascii Hle).
    - now apply spaces_unchanged. }
  rewrite Hlow. replace (0 <=? r) with true by (symmetry; now apply Z.leb_le).
  rewrite Ee. reflexivity.
Qed.

Lemma Map_white (w x : string) :
  spec.whiteSpace w -> lower (w ++ x) = w ++ lower x.
Proof.
  induction 1 as [|e w He Hw IH]; [reflexivity|].
  rewrite !append_assoc, Map_space by exact He. now rewrite IH.
Qed.

Lemma Map_white_only (w : string) : spec.whiteSpace w -> lower w = w.
Proof.
  intros Hw. rewrite <- (append_nil_r w) at 1.
  rewrite Map_white by exact Hw. unfold strings.Map. cbn.
  apply append_nil_r.
Qed.

Lemma Map_split_white (x w : string) :
  spec.whiteSpace w -> lower (x ++ w) = lower x ++ w.
Proof.
  intros Hw. unfold strings.Map.
  rewrite Map_from_append; [| now apply white_head | lia].
  f_equal. exact (Map_white_only w Hw).
Qed.

Lemma Map_backticks (x : string) : lower ("```" ++ x) = "```" ++ lower x.
Proof.
  cbn [append].
  rewrite !Map_ascii by (vm_compute; reflexivity). reflexivity.
Qed.

Lemma Map_json (x : string) : lower ("json" ++ x) = "json" ++ lower x.
Proof.
  cbn [append].
  rewrite !Map_ascii by (vm_compute; reflexivity). reflexivity.
Qed.

Lemma Map_split_backticks (x : string) : lower (x ++ "```") = lower x ++ "```".
Proof.
  unfold strings.Map.
  rewrite Map_from_append; [| | lia].
  - f_equal.
  - intros h t E. inversion E. vm_compute. reflexivity.
Qed.

(** The token looked for: one of the two of the fallback. *)
Variable tok : string.
Hypothesis tok_is : tok = "is_malicious" \/ tok = "true".

#[local] Abbreviation found := (fun s => strings.Contains s tok).

Lemma found_after_white (w x : string) :
  spec.whiteSpace w -> found (w ++ x) = found x.
Proof.
  cbv beta. induction 1 as [|e w He Hw IH]; [reflexivity|].
  rewrite append_assoc, <- IH.
  generalize (w ++ x). intros y.
  vm_compute in He.
  destruct tok_is as [-> | ->];
    repeat (destruct He as [<- | He];
            [cbn [append]; now rewrite !Index_cons_skip by reflexivity|]);
    contradiction.
Qed.

Lemma found_before_white (w x : string) :
  spec.whiteSpace w -> found (x ++ w) = found x.
Proof.
  cbv beta. intros Hw.
  rewrite (Contains_rev (x ++ w)), (Contains_rev x), rev_append.
  generalize (rev x). clear x.
  induction Hw as [|e w He Hw IH]; intros y; [reflexivity|].
  rewrite rev_append, append_assoc, IH.
  vm_compute in He.
  destruct tok_is as [-> | ->];
    repeat (destruct He as [<- | He];
            [cbn [rev append]; now rewrite !Index_cons_skip by reflexivity|]);
    contradiction.
Qed.

Lemma found_after_fence (x : string) :
  found ("```json" ++ x) = found x /\ found ("```" ++ x) = found x.
Proof.
  cbv beta. cbn [append].
  destruct tok_is as [-> | ->];
    now rewrite !Index_cons_skip by reflexivity.
Qed.

Lemma found_before_fence (x : string) : found (x ++ "```") = found x.
Proof.
  cbv beta.
  rewrite (Contains_rev (x ++ "```")), (Contains_rev x), rev_append.
  cbn [rev append].
  destruct tok_is as [-> | ->];
    now rewrite !Index_cons_skip by reflexivity.
Qed.

(** Each step of the cleaning keeps what the scan of the lowered text
    finds. *)
Lemma scan_TrimSpace (s : string) :
  found (lower (strings.TrimSpace s)) = found (lower s).
Proof.
  destruct (TrimSpace_decomp s) as (wL & wR & HL & HR & E).
  rewrite E at 2.
  rewrite Map_white by exact HL. rewrite found_after_white by exact HL.
  rewrite Map_split_white by exact HR. now rewrite found_before_white.
Qed.

Lemma scan_TrimPrefix_json (s : string) :
  strings.HasPrefix s "```json" = true ->
  found (lower (strings.TrimPrefix s "```json")) = found (lower s).
Proof.
  intros H. unfold strings.TrimPrefix. rewrite H.
  rewrite (HasPrefix_split _ _ H) at 2.
  change ("```json" ++ drop (String.length "```json") s)
    with ("```" ++ "json" ++ drop (String.length "```json") s).
  rewrite Map_backticks, Map_json.
  change ("```" ++ "json" ++ lower (drop (String.length "```json") s))
    with ("```json" ++ lower (drop (String.length "```json") s)).
  symmetry. apply found_after_fence.
Qed.

Lemma scan_TrimPrefix_bare (s : string) :
  strings.HasPrefix s "```" = true ->
  found (lower (strings.TrimPrefix s "```")) = found (lower s).
Proof.
  intros H. unfold strings.TrimPrefix. rewrite H.
  rewrite (HasPrefix_split _ _ H) at 2.
  rewrite Map_backticks. symmetry. apply found_after_fence.
Qed.

Lemma scan_TrimSuffix (s : string) :
  found (lower (strings.TrimSuffix s "```")) = found (lower s).
Proof.
  unfold strings.TrimSuffix.
  destruct (strings.HasSuffix s "```") eqn:E; [|reflexivity].
  apply HasSuffix_iff in E as [x ->].
  rewrite length_append.
  replace (String.length x + String.length "```" - String.length "```")%nat
    with (String.length x) by lia.
  rewrite take_append, Map_split_backticks. symmetry. apply found_before_fence.
Qed.

Lemma scan_cleanResponseText (raw : string) :
  found (lower (groq.cleanResponseText raw)) = found (lower raw).
Proof.
  unfold groq.cleanResponseText.
  rewrite scan_TrimSpace.
  destruct (strings.HasPrefix (strings.TrimSpace raw) "```json") eqn:E1.
  - rewrite scan_TrimSuffix, scan_TrimPrefix_json by exact E1.
    apply scan_TrimSpace.
  - destruct (strings.HasPrefix (strings.TrimSpace raw) "```") eqn:E2.
    + rewrite scan_TrimSuffix, scan_TrimPrefix_bare by exact E2.
      apply scan_TrimSpace.
    + apply scan_TrimSpace.
Qed.

End Fallback.

(** C7.  When decoding the reply fails, the verdict is
    [(true, "CONTENT_OTHER", "")] if the lowered reply text contains both
    "is_malicious" and "true", and [(false, "", "")] otherwise, with a
    [nil] error either way.  The code scans the reply after cleaning;
    since no white-space code point changes when lowered, scanning the raw
    reply finds the same. *)
Theorem parse_failure_fallback (caseTable : Z -> Z)
  (json_Unmarshal :
     string -> groq.moderationResult -> groq.moderationResult * error)
  (c : option groq.Client) (c' : groq.Client) (api : openai.Client)
  (ctx : Context) (text : string) (req : openai.ChatCompletionRequest)
  (resp : openai.ChatCompletionResponse)
  (choice0 : openai.ChatCompletionChoice)
  (rest : list openai.ChatCompletionChoice)
  (result : groq.moderationResult) (e : string) :
  groq.initialized c = Some (c', api) ->
  In (RemoteCall req)
    (trace (groq.CheckMessageContent caseTable json_Unmarshal c ctx text)) ->
  openai.CreateChatCompletion api ctx req = (resp, None) ->
  openai.Choices resp = choice0 :: rest ->
  json_Unmarshal
    (groq.cleanResponseText (openai.Content (openai.Message choice0)))
    groq.zeroResult = (result, Some e) ->
  let raw := openai.Content (openai.Message choice0) in
  let cleaned := groq.cleanResponseText raw in
  value (groq.CheckMessageContent caseTable json_Unmarshal c ctx text)
  = (if strings.Contains (strings.ToLower caseTable cleaned) "is_malicious"
        && strings.Contains (strings.ToLower caseTable cleaned) "true"
     then (true, "CONTENT_OTHER", "", None)
     else (false, "", "", None))
  /\ ((forall r, unicode.IsSpace r = true -> unicode.MaxASCII < r ->
                 caseTable r = r) ->
      value (groq.CheckMessageContent caseTable json_Unmarshal c ctx text)
      = (if strings.Contains (strings.ToLower caseTable raw) "is_malicious"
            && strings.Contains (strings.ToLower caseTable raw) "true"
         then (true, "CONTENT_OTHER", "", None)
         else (false, "", "", None))).
Proof.
  intros Hinit Hsent Hcall Hchoices Hdec raw cleaned.
  apply (check_sent caseTable json_Unmarshal _ _ _ _ _ _ Hinit) in Hsent.
  subst req.
  rewrite (check_reply caseTable json_Unmarshal _ _ _ _ _ _ _ _ Hinit Hcall Hchoices).
  subst raw cleaned. unfold spec.verdictOfReply. cbv zeta.
  rewrite Hdec. split; [reflexivity|].
  intros Hspaces. rewrite !ToLower_is_Map.
  rewrite (scan_cleanResponseText caseTable Hspaces "is_malicious") by now left.
  rewrite (scan_cleanResponseText caseTable Hspaces "true") by now right.
  reflexivity.
Qed.

Lemma parse_failure_fallback_witness :
  value (example.check
           (Some (example.clientWith
                    (example.classifier
                       (spec.fenced "json" "" nl nl "" "Is_Malicious = TRUE"))
                    [])) "hello")
  = (true, "CONTENT_OTHER", "", None)
  /\ value (example.check
              (Some (example.clientWith
                       (example.classifier "I cannot help with that") []))
              "hello")
     = (false, "", "", None).
Proof.
  assert (Hspaces : forall r, unicode.IsSpace r = true -> unicode.MaxASCII < r ->
                              example.caseTable r = r) by reflexivity.
  unfold example.check. split.
  - set (content := spec.fenced "json" "" nl nl "" "Is_Malicious = TRUE").
    set (c' := example.clientWith (example.classifier content) []).
    rewrite (proj2 (parse_failure_fallback example.caseTable json.Unmarshal
                      (Some c') c' (example.classifier content) Background "hello"
                      (spec.requestFor c' "hello")
                      (fst (example.reply content))
                      {| openai.Message :=
                           {| openai.Role := "assistant";
                              openai.Content := content |} |}
                      [] groq.zeroResult "json: syntax error"
                      eq_refl
                      ltac:(vm_compute; left; reflexivity)
                      eq_refl eq_refl
                      ltac:(vm_compute; reflexivity))
               Hspaces).
    vm_compute. reflexivity.
  - set (content := "I cannot help with that").
    set (c' := example.clientWith (example.classifier content) []).
    rewrite (proj2 (parse_failure_fallback example.caseTable json.Unmarshal
                      (Some c') c' (example.classifier content) Background "hello"
                      (spec.requestFor c' "hello")
                      (fst (example.reply content))
                      {| openai.Message :=
                           {| openai.Role := "assistant";
                              openai.Content := content |} |}
                      [] groq.zeroResult "json: syntax error"
                      eq_refl
                      ltac:(vm_compute; left; reflexivity)
                      eq_refl eq_refl
                      ltac:(vm_compute; reflexivity))
               Hspaces).
    vm_compute. reflexivity.
Defined.

(** * Further properties of the code *)

(** ** Trimming twice *)

Lemma trimLeft_done (fuel : nat) :
  forall s, (String.length s <= fuel)%nat ->
            strings.cutPrefix strings.spaceEncodings (strings.trimLeft fuel s) = None.
Proof.
  induction fuel as [|fuel IH]; intros s Hlen.
  - assert (s = "") by (apply length_zero; lia). subst s. reflexivity.
  - cbn [strings.trimLeft].
    destruct (strings.cutPrefix strings.spaceEncodings s) as [s'|] eqn:E;
      [|exact E].
    destruct (cutPrefix_Some _ _ _ E) as (e & He & ->).
    apply IH. rewrite length_append in Hlen.
    pose proof (spaceEncoding_nonempty e He). lia.
Qed.

Lemma trimRight_done (fuel : nat) :
  forall s, (String.length s <= fuel)%nat ->
            strings.cutSuffix strings.spaceEncodings (strings.trimRight fuel s) = None.
Proof.
  induction fuel as [|fuel IH]; intros s Hlen.
  - assert (s = "") by (apply length_zero; lia). subst s. reflexivity.
  - cbn [strings.trimRight].
    destruct (strings.cutSuffix strings.spaceEncodings s) as [s'|] eqn:E;
      [|exact E].
    destruct (cutSuffix_Some _ _ _ E) as (e & He & ->).
    apply IH. rewrite length_append in Hlen.
    pose proof (spaceEncoding_nonempty e He). lia.
Qed.

Lemma trimRight_keeps_head (fuel : nat) (s : string) :
  strings.cutPrefix strings.spaceEncodings s = None ->
  strings.cutPrefix strings.spaceEncodings (strings.trimRight fuel s) = None.
Proof.
  intros Hs.
  destruct (trimRight_decomp fuel s) as (w & Hw & E).
  destruct (strings.cutPrefix strings.spaceEncodings (strings.trimRight fuel s))
    as [r'|] eqn:Hr; [|reflexivity].
  destruct (cutPrefix_Some _ _ _ Hr) as (e & He & Er).
  rewrite E, Er, append_assoc, cutPrefix_space in Hs by exact He.
  discriminate.
Qed.

Lemma trimLeft_fixed (fuel : nat) (s : string) :
  strings.cutPrefix strings.spaceEncodings s = None ->
  strings.trimLeft fuel s = s.
Proof. intros H. destruct fuel; cbn [strings.trimLeft]; now rewrite ?H. Qed.

Lemma trimRight_fixed (fuel : nat) (s : string) :
  strings.cutSuffix strings.spaceEncodings s = None ->
  strings.trimRight fuel s = s.
Proof. intros H. destruct fuel; cbn [strings.trimRight]; now rewrite ?H. Qed.

Lemma TrimSpace_idempotent (s : string) :
  strings.TrimSpace (strings.TrimSpace s) = strings.TrimSpace s.
Proof.
  assert (Hhead : strings.cutPrefix strings.spaceEncodings (strings.TrimSpace s) = None).
  { unfold strings.TrimSpace. apply trimRight_keeps_head, trimLeft_done. lia. }
  assert (Htail : strings.cutSuffix strings.spaceEncodings (strings.TrimSpace s) = None).
  { unfold strings.TrimSpace. apply trimRight_done. lia. }
  unfold strings.TrimSpace at 1.
  rewrite (trimLeft_fixed _ _ Hhead). now apply trimRight_fixed.
Qed.

(** ** The embedded list of blocked terms *)

Lemma defaultBlockedTerms_loop_In (lines : list string) (t : string) :
  In t (groq.defaultBlockedTerms_loop lines) <->
  exists line, In line lines /\ t = strings.TrimSpace line
               /\ t <> "" /\ strings.HasPrefix t "#" = false.
Proof.
  induction lines as [|line lines IH]; cbn [groq.defaultBlockedTerms_loop].
  - split; [contradiction | intros (l & [] & _)].
  - destruct (String.eqb_spec (strings.TrimSpace line) "") as [E|E];
      cbn [negb andb].
    + rewrite IH. split.
      * intros (l & Hl & H). exists l. split; [now right | exact H].
      * intros (l & [<- | Hl] & Ht & Hne & Hc); [congruence|].
        exists l. auto.
    + destruct (strings.HasPrefix (strings.TrimSpace line) "#") eqn:Hc;
        cbn [negb].
      * rewrite IH. split.
        -- intros (l & Hl & H). exists l. split; [now right | exact H].
        -- intros (l & [<- | Hl] & Ht & Hne & Hc'); [congruence|].
           exists l. auto.
      * cbn [In]. rewrite IH. split.
        -- intros [<- | (l & Hl & H)].
           ++ exists line. split; [now left|]. repeat split; auto.
           ++ exists l. split; [now right | exact H].
        -- intros (l & [<- | Hl] & Ht & Hne & Hc'); [now left|].
           right. exists l. auto.
Qed.

Lemma defaultBlockedTerms_In (file t : string) :
  In t (value (groq.defaultBlockedTerms file)) <->
  exists line,
    In line (strings.splitByte "010" file)
    /\ t = strings.TrimSpace line
    /\ t <> "" /\ strings.HasPrefix t "#" = false.
Proof.
  unfold groq.defaultBlockedTerms.
  destruct (String.eqb_spec file "") as [->|Hfile].
  - rewrite value_bind. cbn. split; [contradiction|].
    intros (l & [<- | []] & Ht & Hne & _). apply Hne. rewrite Ht. reflexivity.
  - rewrite value_bind. cbn [value ret fst].
    apply defaultBlockedTerms_loop_In.
Qed.

(** X1.  The terms [defaultBlockedTerms] returns are exactly the lines of
    the embedded file that, once trimmed, are neither empty nor comments
    (starting with [#]); every term is returned trimmed, so trimming it
    again changes nothing. *)
Theorem defaultBlockedTerms_terms (file : string) :
  (forall t,
      In t (value (groq.defaultBlockedTerms file)) <->
      exists line,
        In line (strings.splitByte "010" file)
        /\ t = strings.TrimSpace line
        /\ t <> "" /\ strings.HasPrefix t "#" = false)
  /\ (forall t,
         In t (value (groq.defaultBlockedTerms file)) ->
         strings.TrimSpace t = t).
Proof.
  split; [apply defaultBlockedTerms_In|].
  intros t Ht. apply defaultBlockedTerms_In in Ht as (l & _ & -> & _).
  apply TrimSpace_idempotent.
Qed.

Lemma defaultBlockedTerms_terms_witness :
  In "scam" (value (groq.defaultBlockedTerms ("# terms" ++ nl ++ "  scam " ++ nl)))
  /\ strings.TrimSpace "scam" = "scam".
Proof.
  destruct (defaultBlockedTerms_terms ("# terms" ++ nl ++ "  scam " ++ nl))
    as [Hiff Htrim].
  assert (Hin : In "scam" (value (groq.defaultBlockedTerms
                                    ("# terms" ++ nl ++ "  scam " ++ nl)))).
  { apply Hiff. exists "  scam ". split; [vm_compute; tauto|].
    split; [vm_compute; reflexivity|].
    split; [discriminate | vm_compute; reflexivity]. }
  split; [exact Hin | exact (Htrim "scam" Hin)].
Defined.

(** ** The matcher, read backwards and over joined lists *)

Lemma containsBlockedTerm_is_loop (caseTable : Z -> Z) (X : string)
  (T : list string) :
  groq.containsBlockedTerm caseTable X T
  = groq.containsBlockedTerm_loop caseTable (strings.ToLower caseTable X)
      (spec.normalizeSeparators (strings.ToLower caseTable X)) T.
Proof.
  unfold groq.containsBlockedTerm, groq.ToLower.
  rewrite normalized_is_spec. now destruct T.
Qed.

Lemma containsBlockedTerm_loop_sound (caseTable : Z -> Z)
  (messageLower normalizedMessage : string) (T : list string) :
  forall r,
    groq.containsBlockedTerm_loop caseTable messageLower normalizedMessage T
    = Ret r ->
    (fst r = true ->
     exists before u after,
       T = (before ++ u :: after)%list
       /\ spec.hits caseTable messageLower normalizedMessage u
       /\ snd r = spec.candidate caseTable u
       /\ forall v, In v before ->
                    ~ spec.hits caseTable messageLower normalizedMessage v)
    /\ (fst r = false ->
        snd r = ""
        /\ forall u, In u T ->
                     ~ spec.hits caseTable messageLower normalizedMessage u).
Proof.
  induction T as [|v T IH]; intros r Hr.
  - cbn in Hr. injection Hr as <-. split; [discriminate|].
    intros _. split; [reflexivity | contradiction].
  - destruct (containsBlockedTerm_loop_cons caseTable messageLower
                normalizedMessage v T) as [Hyes Hno].
    destruct (hits_decided caseTable messageLower normalizedMessage v)
      as [Hv|Hv].
    + rewrite (Hyes Hv) in Hr. injection Hr as <-. split; [|discriminate].
      intros _. exists [], v, T.
      split; [reflexivity|]. split; [exact Hv|]. split; [reflexivity|].
      intros ? [].
    + rewrite (Hno Hv) in Hr. destruct (IH r Hr) as [IHt IHf]. split.
      * intros Ht. destruct (IHt Ht) as (before & u & after & -> & Hu & Hs & Hb).
        exists (v :: before), u, after.
        split; [reflexivity|]. split; [exact Hu|]. split; [exact Hs|].
        intros w [<- | Hw]; auto.
      * intros Hf. destruct (IHf Hf) as [Hs Hall]. split; [exact Hs|].
        intros w [<- | Hw]; auto.
Qed.

(** X2.  What a result of [containsBlockedTerm] says about its inputs: an
    answer [(true, t)] is only given when some entry [u] of the list
    matches the text, no entry before [u] does, and [t] is [u] trimmed and
    lowered; an answer with [false] always carries the empty term and is
    only given when no entry of the list matches. *)
Theorem containsBlockedTerm_sound (caseTable : Z -> Z) (X : string)
  (T : list string) :
  (forall t,
      groq.containsBlockedTerm caseTable X T = Ret (true, t) ->
      exists before u after,
        T = (before ++ u :: after)%list
        /\ spec.termMatches caseTable X u
        /\ t = spec.candidate caseTable u
        /\ forall v, In v before -> ~ spec.termMatches caseTable X v)
  /\ (forall t,
         groq.containsBlockedTerm caseTable X T = Ret (false, t) ->
         t = "" /\ forall u, In u T -> ~ spec.termMatches caseTable X u).
Proof.
  rewrite containsBlockedTerm_is_loop. split; intros t Ht.
  - apply containsBlockedTerm_loop_sound in Ht as [Hyes _].
    exact (Hyes eq_refl).
  - apply containsBlockedTerm_loop_sound in Ht as [_ Hno].
    exact (Hno eq_refl).
Qed.

Lemma containsBlockedTerm_sound_witness :
  exists before u after,
    ["foo"; " ASS "; "class"] = (before ++ u :: after)%list
    /\ spec.termMatches example.caseTable "you ass!" u
    /\ "ass" = spec.candidate example.caseTable u
    /\ forall v, In v before -> ~ spec.termMatches example.caseTable "you ass!" v.
Proof.
  apply (proj1 (containsBlockedTerm_sound example.caseTable "you ass!"
                  ["foo"; " ASS "; "class"]) "ass").
  vm_compute. reflexivity.
Defined.

Lemma containsBlockedTerm_loop_app (caseTable : Z -> Z)
  (messageLower normalizedMessage : string) (T1 T2 : list string) :
  groq.containsBlockedTerm_loop caseTable messageLower normalizedMessage
    (T1 ++ T2)%list
  = (let* r := groq.containsBlockedTerm_loop caseTable messageLower
                 normalizedMessage T1 in
     if fst r then Ret r
     else groq.containsBlockedTerm_loop caseTable messageLower
            normalizedMessage T2)%res.
Proof.
  induction T1 as [|v T1 IH]; [reflexivity|]. cbn [app].
  destruct (containsBlockedTerm_loop_cons caseTable messageLower
              normalizedMessage v (T1 ++ T2)%list) as [Hyes Hno].
  destruct (containsBlockedTerm_loop_cons caseTable messageLower
              normalizedMessage v T1) as [Hyes1 Hno1].
  destruct (hits_decided caseTable messageLower normalizedMessage v)
    as [Hv|Hv].
  - rewrite (Hyes Hv), (Hyes1 Hv). reflexivity.
  - rewrite (Hno Hv), (Hno1 Hv). exact IH.
Qed.

(** X3.  Checking a text against two term lists joined together is
    checking it against the first and, only when that finds nothing,
    against the second: a match in the first list is returned whatever the
    second holds. *)
Theorem containsBlockedTerm_app (caseTable : Z -> Z) (X : string)
  (T1 T2 : list string) :
  groq.containsBlockedTerm caseTable X (T1 ++ T2)%list
  = (let* r := groq.containsBlockedTerm caseTable X T1 in
     if fst r then Ret r else groq.containsBlockedTerm caseTable X T2)%res.
Proof.
  rewrite !containsBlockedTerm_is_loop. apply containsBlockedTerm_loop_app.
Qed.

Lemma empty_text_no_occurrence (term : string) :
  term <> "" -> ~ spec.occursAtBoundary "" term.
Proof.
  intros Hterm (before & after & E & _).
  apply (f_equal String.length) in E. rewrite !length_append in E.
  cbn in E. apply Hterm, length_zero. lia.
Qed.

(** X4.  Nothing is found in an empty text, whatever the term list; and a
    list whose entries are all blank (empty once trimmed) finds nothing in
    any text. *)
Theorem containsBlockedTerm_nothing_to_find (caseTable : Z -> Z) :
  (forall T, groq.containsBlockedTerm caseTable "" T = Ret (false, ""))
  /\ (forall X T,
         (forall u, In u T -> strings.TrimSpace u = "") ->
         groq.containsBlockedTerm caseTable X T = Ret (false, "")).
Proof.
  split.
  - intros T. rewrite containsBlockedTerm_is_loop.
    apply containsBlockedTerm_loop_none. intros v _ [Hne [H|H]];
      revert H; now apply empty_text_no_occurrence.
  - intros X T Hblank. rewrite containsBlockedTerm_is_loop.
    apply containsBlockedTerm_loop_none. intros v Hv [Hne _].
    apply Hne. unfold spec.candidate. rewrite (Hblank v Hv). reflexivity.
Qed.

Lemma containsBlockedTerm_nothing_to_find_witness :
  groq.containsBlockedTerm example.caseTable "a b" [" "; ""; nl] = Ret (false, "").
Proof.
  apply (proj2 (containsBlockedTerm_nothing_to_find example.caseTable)
           "a b" [" "; ""; nl]).
  intros u [<- | [<- | [<- | []]]]; vm_compute; reflexivity.
Defined.

(** ** Errors, requests and choices of [CheckMessageContent] *)

Lemma verdictOfReply_no_error (caseTable : Z -> Z)
  (json_Unmarshal :
     string -> groq.moderationResult -> groq.moderationResult * error)
  (content : string) :
  snd (spec.verdictOfReply caseTable json_Unmarshal content) = None.
Proof.
  unfold spec.verdictOfReply.
  destruct (json_Unmarshal _ _) as [result [e|]].
  - destruct (_ && _); reflexivity.
  - destruct (groq.IsMalicious result); reflexivity.
Qed.

(** X5.  Where an error of [CheckMessageContent] comes from: whenever the
    returned error is not nil, the verdict is [(false, "", "")], the
    client was initialized, and either the remote call itself failed (the
    error wraps its message) or it succeeded with an empty choice list.
    No other path returns an error. *)
Theorem CheckMessageContent_error_origin (caseTable : Z -> Z)
  (json_Unmarshal :
     string -> groq.moderationResult -> groq.moderationResult * error)
  (c : option groq.Client) (ctx : Context) (text e : string) :
  snd (value (groq.CheckMessageContent caseTable json_Unmarshal c ctx text))
  = Some e ->
  value (groq.CheckMessageContent caseTable json_Unmarshal c ctx text)
  = (false, "", "", Some e)
  /\ exists c' api resp,
      groq.initialized c = Some (c', api)
      /\ ((exists e',
              openai.CreateChatCompletion api ctx (spec.requestFor c' text)
              = (resp, Some e')
              /\ e = "error calling Groq API: " ++ e')
          \/ (openai.CreateChatCompletion api ctx (spec.requestFor c' text)
              = (resp, None)
              /\ openai.Choices resp = []
              /\ e = "no response from Groq API")).
Proof.
  destruct (groq.initialized c) as [[c' api]|] eqn:Hc.
  - destruct (openai.CreateChatCompletion api ctx (spec.requestFor c' text))
      as [resp [e'|]] eqn:Hcall.
    + rewrite (check_call_error caseTable json_Unmarshal c c' api ctx text
                 resp e' Hc Hcall).
      cbn [snd]. intros [= <-]. split; [reflexivity|].
      exists c', api, resp. split; [reflexivity|]. left. now exists e'.
    + destruct (openai.Choices resp) as [|choice0 rest] eqn:Hchoices.
      * rewrite (check_no_choice caseTable json_Unmarshal c c' api ctx text
                   resp Hc Hcall Hchoices).
        cbn [snd]. intros [= <-]. split; [reflexivity|].
        exists c', api, resp. split; [reflexivity|]. now right.
      * rewrite (check_reply caseTable json_Unmarshal c c' api ctx text
                   resp choice0 rest Hc Hcall Hchoices).
        rewrite verdictOfReply_no_error. discriminate.
  - rewrite (check_uninitialized caseTable json_Unmarshal c ctx text Hc).
    discriminate.
Qed.

Lemma CheckMessageContent_error_origin_witness :
  value (example.check
           (Some (example.clientWith (example.failing "timeout") ["spam"]))
           "hello")
  = (false, "", "", Some "error calling Groq API: timeout").
Proof.
  apply (CheckMessageContent_error_origin example.caseTable json.Unmarshal
           (Some (example.clientWith (example.failing "timeout") ["spam"]))
           Background "hello" "error calling Groq API: timeout").
  vm_compute. reflexivity.
Defined.

(** X6.  How many requests a check sends: none when the client is not
    initialized, and otherwise exactly one, whatever the classifier
    answers; that request names the client's model, carries one message of
    role [user] whose content is the prompt built from the message text,
    and has temperature 0.1 and at most 150 tokens. *)
Theorem CheckMessageContent_requests (caseTable : Z -> Z)
  (json_Unmarshal :
     string -> groq.moderationResult -> groq.moderationResult * error)
  (c : option groq.Client) (ctx : Context) (text : string) :
  remoteCalls (groq.CheckMessageContent caseTable json_Unmarshal c ctx text)
  = match groq.initialized c with
    | None => []
    | Some (c', _) =>
        [RemoteCall
           {| openai.Model := groq.model c';
              openai.Messages :=
                [ {| openai.Role := "user";
                     openai.Content := groq.promptBuilder c' text |} ];
              openai.Temperature := (1, 10);
              openai.MaxTokens := 150 |}]
    end.
Proof.
  destruct (groq.initialized c) as [[c' api]|] eqn:Hc.
  - exact (check_remoteCalls caseTable json_Unmarshal c c' api ctx text Hc).
  - rewrite (check_uninitialized caseTable json_Unmarshal c ctx text Hc).
    reflexivity.
Qed.

(** X7.  The verdict is a function of the text of the first choice alone:
    two checks, of whatever messages and through whatever initialized
    clients, whose remote calls succeed with first choices of the same
    text return the same verdict and error.  The message text, the model,
    the blocked terms and any further choice have no influence. *)
Theorem CheckMessageContent_first_choice_only (caseTable : Z -> Z)
  (json_Unmarshal :
     string -> groq.moderationResult -> groq.moderationResult * error)
  (c1 c2 : option groq.Client) (c1' c2' : groq.Client)
  (api1 api2 : openai.Client) (ctx1 ctx2 : Context) (text1 text2 : string)
  (resp1 resp2 : openai.ChatCompletionResponse)
  (first1 first2 : openai.ChatCompletionChoice)
  (rest1 rest2 : list openai.ChatCompletionChoice) :
  groq.initialized c1 = Some (c1', api1) ->
  groq.initialized c2 = Some (c2', api2) ->
  openai.CreateChatCompletion api1 ctx1 (spec.requestFor c1' text1)
  = (resp1, None) ->
  openai.CreateChatCompletion api2 ctx2 (spec.requestFor c2' text2)
  = (resp2, None) ->
  openai.Choices resp1 = first1 :: rest1 ->
  openai.Choices resp2 = first2 :: rest2 ->
  openai.Content (openai.Message first1)
  = openai.Content (openai.Message first2) ->
  value (groq.CheckMessageContent caseTable json_Unmarshal c1 ctx1 text1)
  = value (groq.CheckMessageContent caseTable json_Unmarshal c2 ctx2 text2).
Proof.
  intros Hc1 Hc2 Hcall1 Hcall2 Hch1 Hch2 Hsame.
  rewrite (check_reply caseTable json_Unmarshal c1 c1' api1 ctx1 text1
             resp1 first1 rest1 Hc1 Hcall1 Hch1).
  rewrite (check_reply caseTable json_Unmarshal c2 c2' api2 ctx2 text2
             resp2 first2 rest2 Hc2 Hcall2 Hch2).
  now rewrite Hsame.
Qed.

Lemma CheckMessageContent_first_choice_only_witness :
  value (example.check
           (Some (example.clientWith (example.classifier example.scamReply) []))
           "hello")
  = value (groq.CheckMessageContent example.caseTable json.Unmarshal
             (Some {| groq.client :=
                        Some {| openai.CreateChatCompletion :=
                                  fun _ _ =>
                                    ({| openai.Choices :=
                                          [ {| openai.Message :=
                                                 {| openai.Role := "system";
                                                    openai.Content := example.scamReply |} |};
                                            {| openai.Message :=
                                                 {| openai.Role := "assistant";
                                                    openai.Content := example.safeReply |} |} ] |},
                                     None) |};
                      groq.model := "other";
                      groq.promptBuilder := fun text => text;
                      groq.blockedTerms := ["hello"] |})
             (Derived 7) "good bye").
Proof.
  unfold example.check.
  eapply CheckMessageContent_first_choice_only;
    vm_compute; reflexivity.
Defined.

(** X8.  The validator and the remote classifier: an empty field is
    accepted without any effect; with a client that is not initialized
    every field is accepted and no request is sent; with an initialized
    client a non-empty field costs exactly one request, built from the
    field's text. *)
Theorem AcceptableMessageValidator_requests (caseTable : Z -> Z)
  (json_Unmarshal :
     string -> groq.moderationResult -> groq.moderationResult * error)
  (groqClient : option groq.Client) (fl : validators.FieldLevel) :
  (validators.FieldString fl = "" ->
   validators.AcceptableMessageValidator caseTable json_Unmarshal groqClient fl
   = (true, []))
  /\ (groq.initialized groqClient = None ->
      value (validators.AcceptableMessageValidator caseTable json_Unmarshal
               groqClient fl) = true
      /\ remoteCalls (validators.AcceptableMessageValidator caseTable
                        json_Unmarshal groqClient fl) = [])
  /\ (forall c' api,
         groq.initialized groqClient = Some (c', api) ->
         validators.FieldString fl <> "" ->
         remoteCalls (validators.AcceptableMessageValidator caseTable
                        json_Unmarshal groqClient fl)
         = [RemoteCall (spec.requestFor c' (validators.FieldString fl))]).
Proof.
  unfold validators.AcceptableMessageValidator, groq.FilterMessageWithAI.
  split; [|split].
  - intros ->. reflexivity.
  - intros Hc.
    destruct (String.eqb_spec (validators.FieldString fl) "") as [E|E];
      [split; reflexivity|].
    rewrite value_bind, remoteCalls_bind.
    rewrite (check_uninitialized caseTable json_Unmarshal groqClient
               Background (validators.FieldString fl) Hc).
    split; reflexivity.
  - intros c' api Hc Hne.
    destruct (String.eqb_spec (validators.FieldString fl) "") as [E|_];
      [contradiction|].
    rewrite remoteCalls_bind.
    rewrite (check_remoteCalls caseTable json_Unmarshal groqClient c' api
               Background (validators.FieldString fl) Hc).
    destruct (value _) as [[[isMalicious code] reason] [e|]]; reflexivity.
Qed.

Lemma AcceptableMessageValidator_requests_witness :
  example.validate None "" = (true, [])
  /\ (value (example.validate None "send money now") = true
      /\ remoteCalls (example.validate None "send money now") = [])
  /\ remoteCalls
       (example.validate
          (Some (example.clientWith (example.classifier example.scamReply) []))
          "send money now")
     = [RemoteCall
          (spec.requestFor
             (example.clientWith (example.classifier example.scamReply) [])
             "send money now")].
Proof.
  unfold example.validate. split; [|split].
  - apply (proj1 (AcceptableMessageValidator_requests example.caseTable
                    json.Unmarshal None {| validators.FieldString := "" |})).
    reflexivity.
  - apply (proj1 (proj2 (AcceptableMessageValidator_requests example.caseTable
                           json.Unmarshal None
                           {| validators.FieldString := "send money now" |}))).
    reflexivity.
  - apply (proj2 (proj2 (AcceptableMessageValidator_requests example.caseTable
                           json.Unmarshal
                           (Some (example.clientWith
                                    (example.classifier example.scamReply) []))
                           {| validators.FieldString := "send money now" |}))
             _ (example.classifier example.scamReply)).
    + reflexivity.
    + discriminate.
Defined.

(** ** Building a client *)

Section NewClient.

Variable defaultBlockedTermsFile : string.
Variable Getenv : string -> string.
Variable NewClientWithConfig : openai.ClientConfig -> openai.Client.

#[local] Abbreviation newClient :=
  (groq.NewClient defaultBlockedTermsFile Getenv NewClientWithConfig).

(** The key, the model and the base URL a configuration resolves to. *)
#[local] Abbreviation keyOf cfg :=
  (if String.eqb (groq.APIKey cfg) "" then Getenv "GROQ_API_KEY"
   else groq.APIKey cfg).

Lemma NewClient_with_key (cfg : groq.Config) :
  keyOf cfg <> "" ->
  exists terms,
    value (newClient cfg)
    = Some
        {| groq.client :=
             Some (NewClientWithConfig
                     {| openai.authToken := keyOf cfg;
                        openai.BaseURL :=
                          if String.eqb (groq.BaseURL cfg) ""
                          then "https://api.groq.com/openai/v1"
                          else groq.BaseURL cfg |});
           groq.model :=
             if String.eqb (groq.Model cfg) "" then
               if String.eqb (Getenv "GROQ_MODEL") ""
               then "llama-3.1-8b-instant" else Getenv "GROQ_MODEL"
             else groq.Model cfg;
           groq.promptBuilder :=
             match groq.cfgPromptTemplate cfg with
             | None => groq.defaultPromptTemplate
             | Some builder => builder
             end;
           groq.blockedTerms := terms |}
    /\ terms = match groq.BlockedTerms cfg with
               | None => value (groq.defaultBlockedTerms defaultBlockedTermsFile)
               | Some terms => terms
               end.
Proof.
  intros Hkey. unfold groq.NewClient.
  destruct (String.eqb_spec (keyOf cfg) "") as [E|_]; [contradiction|].
  rewrite value_bind. eexists. split; [reflexivity|].
  destruct (groq.BlockedTerms cfg); reflexivity.
Qed.

Lemma NewClient_key_decided (cfg : groq.Config) :
  (groq.APIKey cfg = "" /\ Getenv "GROQ_API_KEY" = "") \/ keyOf cfg <> "".
Proof.
  destruct (String.eqb_spec (groq.APIKey cfg) "") as [E|E]; [|now right].
  destruct (String.eqb_spec (Getenv "GROQ_API_KEY") "") as [E'|E'];
    [now left | now right].
Qed.

(** X9.  [NewClient] returns nil exactly when neither the configuration
    nor the environment variable [GROQ_API_KEY] gives a key.  Every client
    it does return is initialized, and whatever it returns, [GetModel]
    never gives an empty model name while [GetClient] gives nil exactly
    in the keyless case. *)
Theorem NewClient_nil_iff_no_key (cfg : groq.Config) :
  (value (newClient cfg) = None
   <-> groq.APIKey cfg = "" /\ Getenv "GROQ_API_KEY" = "")
  /\ (forall c, value (newClient cfg) = Some c ->
                exists api, groq.initialized (Some c) = Some (c, api))
  /\ groq.GetModel (value (newClient cfg)) <> ""
  /\ (groq.GetClient (value (newClient cfg)) = None
      <-> groq.APIKey cfg = "" /\ Getenv "GROQ_API_KEY" = "").
Proof.
  destruct (NewClient_key_decided cfg) as [[Hcfg Henv]|Hkey].
  - rewrite (NewClient_without_key defaultBlockedTermsFile Getenv
               NewClientWithConfig cfg Hcfg Henv).
    repeat split; try discriminate; auto.
  - destruct (NewClient_with_key cfg Hkey) as (terms & -> & _).
    assert (Hno : ~ (groq.APIKey cfg = "" /\ Getenv "GROQ_API_KEY" = "")).
    { intros [Hcfg Henv]. apply Hkey. rewrite Hcfg, Henv. reflexivity. }
    split; [split; [discriminate | intros H; now destruct Hno]|].
    split; [intros c [= <-]; eexists; reflexivity|].
    split.
    + cbn [groq.GetModel groq.model].
      destruct (String.eqb_spec (groq.Model cfg) "") as [E|E]; [|exact E].
      destruct (String.eqb_spec (Getenv "GROQ_MODEL") "") as [E'|E'];
        [discriminate | exact E'].
    + cbn [groq.GetClient groq.client].
      split; [discriminate | intros H; now destruct Hno].
Qed.

(** X10.  Which settings win: when a key is available, the client that
    [NewClient] builds talks to the API client made from the key (the
    configured one before the environment's) and the base URL (the
    configured one, else Groq's), and every check through it sends one
    request naming the configured model, else the model of [GROQ_MODEL],
    else the default model, with the prompt built by the configured
    template, else by the default template. *)
Theorem NewClient_precedence (cfg : groq.Config) (caseTable : Z -> Z)
  (json_Unmarshal :
     string -> groq.moderationResult -> groq.moderationResult * error)
  (ctx : Context) (text : string) :
  keyOf cfg <> "" ->
  groq.GetClient (value (newClient cfg))
  = Some (NewClientWithConfig
            {| openai.authToken := keyOf cfg;
               openai.BaseURL :=
                 if String.eqb (groq.BaseURL cfg) ""
                 then "https://api.groq.com/openai/v1"
                 else groq.BaseURL cfg |})
  /\ remoteCalls
       (groq.CheckMessageContent caseTable json_Unmarshal
          (value (newClient cfg)) ctx text)
     = [RemoteCall
          {| openai.Model :=
               if String.eqb (groq.Model cfg) "" then
                 if String.eqb (Getenv "GROQ_MODEL") ""
                 then "llama-3.1-8b-instant" else Getenv "GROQ_MODEL"
               else groq.Model cfg;
             openai.Messages :=
               [ {| openai.Role := "user";
                    openai.Content :=
                      match groq.cfgPromptTemplate cfg with
                      | None => groq.defaultPromptTemplate text
                      | Some builder => builder text
                      end |} ];
             openai.Temperature := (1, 10);
             openai.MaxTokens := 150 |}].
Proof.
  intros Hkey. destruct (NewClient_with_key cfg Hkey) as (terms & -> & _).
  split; [reflexivity|].
  erewrite check_remoteCalls by reflexivity.
  unfold spec.requestFor. cbn [groq.model groq.promptBuilder].
  destruct (groq.cfgPromptTemplate cfg); reflexivity.
Qed.


End NewClient.

Lemma NewClient_nil_iff_no_key_witness :
  exists api,
    groq.initialized
      (Some {| groq.client := Some example.mute;
               groq.model := "llama-3.1-8b-instant";
               groq.promptBuilder := groq.defaultPromptTemplate;
               groq.blockedTerms := [] |})
    = Some ({| groq.client := Some example.mute;
               groq.model := "llama-3.1-8b-instant";
               groq.promptBuilder := groq.defaultPromptTemplate;
               groq.blockedTerms := [] |}, api).
Proof.
  apply (proj1 (proj2 (NewClient_nil_iff_no_key "spam" example.noEnvironment
                         (fun _ => example.mute)
                         {| groq.APIKey := "key";
                            groq.Model := "";
                            groq.BaseURL := "";
                            groq.cfgPromptTemplate := None;
                            groq.BlockedTerms := Some [] |}))).
  reflexivity.
Defined.

Lemma NewClient_precedence_witness :
  groq.GetClient
    (value (groq.NewClient "spam"
              (fun name => if String.eqb name "GROQ_MODEL" then "env-model"
                           else "env-key")
              (fun _ => example.mute)
              {| groq.APIKey := "key";
                 groq.Model := "";
                 groq.BaseURL := "";
                 groq.cfgPromptTemplate := Some (fun text => text);
                 groq.BlockedTerms := None |}))
  = Some example.mute
  /\ remoteCalls
       (groq.CheckMessageContent example.caseTable json.Unmarshal
          (value (groq.NewClient "spam"
                    (fun name => if String.eqb name "GROQ_MODEL" then "env-model"
                                 else "env-key")
                    (fun _ => example.mute)
                    {| groq.APIKey := "key";
                       groq.Model := "";
                       groq.BaseURL := "";
                       groq.cfgPromptTemplate := Some (fun text => text);
                       groq.BlockedTerms := None |}))
          Background "hello")
     = [RemoteCall
          {| openai.Model := "env-model";
             openai.Messages :=
               [ {| openai.Role := "user"; openai.Content := "hello" |} ];
             openai.Temperature := (1, 10);
             openai.MaxTokens := 150 |}].
Proof.
  apply (NewClient_precedence "spam"
           (fun name => if String.eqb name "GROQ_MODEL" then "env-model"
                        else "env-key")
           (fun _ => example.mute)
           {| groq.APIKey := "key";
              groq.Model := "";
              groq.BaseURL := "";
              groq.cfgPromptTemplate := Some (fun text => text);
              groq.BlockedTerms := None |}
           example.caseTable json.Unmarshal Background "hello").
  discriminate.
Defined.


(** ** The default prompt *)

Lemma append_inj_l (a b c : string) : a ++ b = a ++ c -> b = c.
Proof.
  induction a as [|x a IH]; cbn [append]; intros H; [exact H|].
  injection H as H. now apply IH.
Qed.

(** X12.  The default prompt is a fixed text around the message: the
    message is put, byte for byte and without any escaping, between the
    words [Message:] with an opening quote and a closing quote.  Distinct messages therefore give
    distinct prompts, and the fixed text after the message names each of
    the six error codes. *)
Theorem defaultPromptTemplate_embeds :
  exists head tail,
    (forall messageText,
        groq.defaultPromptTemplate messageText = head ++ messageText ++ tail)
    /\ strings.HasSuffix head ("Message: " ++ dquote) = true
    /\ strings.HasPrefix tail dquote = true
    /\ (forall code, In code spec.definedCodes ->
                     strings.Contains tail code = true)
    /\ (forall m1 m2,
           groq.defaultPromptTemplate m1 = groq.defaultPromptTemplate m2 ->
           m1 = m2).
Proof.
  exists (take (Z.to_nat (strings.Index (groq.defaultPromptTemplate "")
                            "Message: ") + 10)
            (groq.defaultPromptTemplate "")),
    (drop (Z.to_nat (strings.Index (groq.defaultPromptTemplate "")
                       "Message: ") + 10)
       (groq.defaultPromptTemplate "")).
  assert (Hform : forall messageText,
             groq.defaultPromptTemplate messageText
             = take (Z.to_nat (strings.Index (groq.defaultPromptTemplate "")
                                 "Message: ") + 10)
                 (groq.defaultPromptTemplate "")
               ++ messageText
               ++ drop (Z.to_nat (strings.Index (groq.defaultPromptTemplate "")
                                    "Message: ") + 10)
                    (groq.defaultPromptTemplate "")).
  { intros messageText. unfold groq.defaultPromptTemplate at 1.
    cbn [String.concat]. rewrite !append_assoc. vm_compute. reflexivity. }
  split; [exact Hform|].
  split; [vm_compute; reflexivity|].
  split; [vm_compute; reflexivity|].
  split.
  - intros code Hcode. vm_compute in Hcode.
    repeat (destruct Hcode as [<- | Hcode]; [vm_compute; reflexivity|]).
    contradiction.
  - intros m1 m2 H. rewrite (Hform m1), (Hform m2) in H.
    apply append_inj_l in H. now apply append_inj_r in H.
Qed.

Lemma defaultPromptTemplate_embeds_witness :
  groq.defaultPromptTemplate "hello" <> groq.defaultPromptTemplate "hullo".
Proof.
  destruct defaultPromptTemplate_embeds as (head & tail & _ & _ & _ & _ & Hinj).
  intros H. apply Hinj in H. discriminate.
Defined.

(** ** Cleaning a reply: what is kept and what is dropped *)

(** X13.  The cleaned reply text never begins or ends with white space
    (trimming it again changes nothing), and a reply that, once trimmed,
    does not begin with three backticks is cleaned by trimming alone. *)
Theorem cleanResponseText_trimmed (responseText : string) :
  strings.TrimSpace (groq.cleanResponseText responseText)
  = groq.cleanResponseText responseText
  /\ (strings.HasPrefix (strings.TrimSpace responseText) "```" = false ->
      groq.cleanResponseText responseText = strings.TrimSpace responseText).
Proof.
  unfold groq.cleanResponseText. split; [apply TrimSpace_idempotent|].
  intros Hfence.
  destruct (strings.HasPrefix (strings.TrimSpace responseText) "```json")
    eqn:Hjson.
  - apply HasPrefix_iff in Hjson as (r & Hr).
    rewrite Hr in Hfence.
    replace ("```json" ++ r) with ("```" ++ ("json" ++ r)) in Hfence by assoc.
    rewrite HasPrefix_append in Hfence. discriminate.
  - rewrite Hfence. apply TrimSpace_idempotent.
Qed.

Lemma cleanResponseText_trimmed_witness :
  groq.cleanResponseText ("  `` not a fence " ++ nl)
  = strings.TrimSpace ("  `` not a fence " ++ nl).
Proof.
  apply (proj2 (cleanResponseText_trimmed ("  `` not a fence " ++ nl))).
  vm_compute. reflexivity.
Defined.

Lemma tight_backtick_brace (inner : string) : spec.tight ("`" ++ inner ++ "}").
Proof. apply tight_between; intros x; vm_compute; reflexivity. Qed.

Lemma tight_brace_backtick (inner : string) : spec.tight ("{" ++ inner ++ "`").
Proof. apply tight_between; intros x; vm_compute; reflexivity. Qed.

Lemma HasPrefix_fence_json (s : string) :
  strings.HasPrefix ("```" ++ s) "```json" = strings.HasPrefix s "json".
Proof. reflexivity. Qed.

Lemma HasSuffix_brace_fence (s : string) :
  strings.HasSuffix (s ++ "}") "```" = false.
Proof.
  rewrite HasSuffix_rev, rev_append. vm_compute. reflexivity.
Qed.

(** X14.  Half-fenced replies.  An opening fence (with or without the
    [json] tag) is removed even when no closing fence follows, so that an
    object after it is recovered; a closing fence that no opening fence
    precedes is kept, so that the cleaned text still ends with the three
    backticks. *)
Theorem cleanResponseText_half_fenced
  (lang w1 w2 w4 before inner after : string) :
  lang = "json" \/ lang = "" ->
  spec.whiteSpace w1 -> spec.whiteSpace w2 -> spec.whiteSpace w4 ->
  spec.whiteSpace before ->
  groq.cleanResponseText
    (w1 ++ "```" ++ lang ++ w2 ++ before ++ "{" ++ inner ++ "}" ++ w4)
  = "{" ++ inner ++ "}"
  /\ groq.cleanResponseText
       (w1 ++ "{" ++ inner ++ "}" ++ after ++ "```" ++ w4)
     = "{" ++ inner ++ "}" ++ after ++ "```".
Proof.
  intros Hlang H1 H2 H4 Hb. unfold groq.cleanResponseText. split.
  - replace (w1 ++ "```" ++ lang ++ w2 ++ before ++ "{" ++ inner ++ "}" ++ w4)
      with (w1 ++ ("`" ++ ("``" ++ lang ++ w2 ++ before ++ "{" ++ inner) ++ "}")
               ++ w4) by assoc.
    rewrite (TrimSpace_tight w1 _ w4 H1 H4 (tight_backtick_brace _)).
    assert (E : forall F,
               F = "`" ++ ("``" ++ lang ++ w2 ++ before ++ "{" ++ inner) ++ "}" ->
               (if strings.HasPrefix F "```json"
                then strings.TrimSuffix (strings.TrimPrefix F "```json") "```"
                else if strings.HasPrefix F "```"
                     then strings.TrimSuffix (strings.TrimPrefix F "```") "```"
                     else F)
               = (w2 ++ before) ++ "{" ++ inner ++ "}").
    { intros F ->. destruct Hlang as [-> | ->].
      - replace ("`" ++ ("``" ++ "json" ++ w2 ++ before ++ "{" ++ inner) ++ "}")
          with ("```json" ++ (((w2 ++ before) ++ "{" ++ inner) ++ "}")) by assoc.
        rewrite HasPrefix_append. unfold strings.TrimPrefix.
        rewrite HasPrefix_append, drop_append.
        unfold strings.TrimSuffix. rewrite HasSuffix_brace_fence. assoc.
      - replace ("`" ++ ("``" ++ "" ++ w2 ++ before ++ "{" ++ inner) ++ "}")
          with ("```" ++ (((w2 ++ before) ++ "{" ++ inner) ++ "}")) by assoc.
        replace (strings.HasPrefix
                   ("```" ++ ((w2 ++ before) ++ "{" ++ inner) ++ "}") "```json")
          with false.
        + rewrite HasPrefix_append. unfold strings.TrimPrefix.
          rewrite HasPrefix_append, drop_append.
          unfold strings.TrimSuffix. rewrite HasSuffix_brace_fence. assoc.
        + symmetry. rewrite HasPrefix_fence_json.
          replace (((w2 ++ before) ++ "{" ++ inner) ++ "}")
            with ((w2 ++ before) ++ "{" ++ (inner ++ "}")) by assoc.
          apply (white_then_brace_not_json (w2 ++ before)).
          now apply whiteSpace_app. }
    rewrite (E _ eq_refl). clear E.
    replace ((w2 ++ before) ++ "{" ++ inner ++ "}")
      with ((w2 ++ before) ++ ("{" ++ inner ++ "}") ++ "") by assoc.
    apply TrimSpace_tight;
      [now apply whiteSpace_app | constructor | apply tight_braces].
  - replace (w1 ++ "{" ++ inner ++ "}" ++ after ++ "```" ++ w4)
      with (w1 ++ ("{" ++ (inner ++ "}" ++ after ++ "``") ++ "`") ++ w4)
      by assoc.
    rewrite (TrimSpace_tight w1 _ w4 H1 H4 (tight_brace_backtick _)).
    replace (strings.HasPrefix ("{" ++ (inner ++ "}" ++ after ++ "``") ++ "`")
               "```json") with false by reflexivity.
    replace (strings.HasPrefix ("{" ++ (inner ++ "}" ++ after ++ "``") ++ "`")
               "```") with false by reflexivity.
    rewrite (TrimSpace_of_tight _ (tight_brace_backtick _)). assoc.
Qed.

Lemma cleanResponseText_half_fenced_witness :
  groq.cleanResponseText ("```json" ++ nl ++ "{}")
  = "{}"
  /\ groq.cleanResponseText ("{}" ++ nl ++ "```" ++ nl)
     = "{}" ++ nl ++ "```".
Proof.
  assert (Hnl : spec.whiteSpace nl).
  { apply (spec.ws_cons nl ""); [vm_compute; tauto | constructor]. }
  apply (cleanResponseText_half_fenced "json" "" nl nl "" "" nl).
  - now left.
  - constructor.
  - exact Hnl.
  - exact Hnl.
  - constructor.
Defined.

(** ** Token claims and their validity window *)

Lemma wrap64_id (x : Z) : - 2 ^ 63 <= x < 2 ^ 63 -> wrap64 x = x.
Proof. intros H. unfold wrap64. rewrite Z.mod_small; lia. Qed.

Lemma Valid_nil_iff (now : Z) (c : helpers.CustomClaims) :
  helpers.Valid now c = None
  <-> helpers.IssuedAt c <= now <= helpers.ExpirationTime c.
Proof.
  unfold helpers.Valid, jwt.NewValidationError.
  destruct (Z.ltb_spec (helpers.ExpirationTime c) now);
    [split; [discriminate | lia]|].
  destruct (Z.ltb_spec now (helpers.IssuedAt c));
    [split; [discriminate | lia]|].
  split; [lia | reflexivity].
Qed.

Lemma Add_seconds (t : time.Time) (n : Z) :
  0 <= time.nsec t < 1000000000 ->
  - 9223372036 <= n <= 9223372036 ->
  - 2 ^ 63 <= time.abs t + n < 2 ^ 63 ->
  time.Add t (time.seconds n)
  = {| time.abs := time.abs t + n; time.nsec := time.nsec t |}.
Proof.
  intros Hnsec Hn Hsum. unfold time.seconds, time.Second.
  rewrite wrap64_id by lia. unfold time.Add.
  rewrite Z.quot_mul, Z.rem_mul by lia. rewrite Z.add_0_r.
  destruct (Z.leb_spec 1000000000 (time.nsec t)); [lia|].
  destruct (Z.ltb_spec (time.nsec t) 0); [lia|].
  unfold time.addSec. cbn [time.abs time.nsec].
  rewrite wrap64_id by lia.
  destruct (Z.ltb_spec (time.abs t) (time.abs t + n));
    destruct (Z.ltb_spec 0 n); try lia; reflexivity.
Qed.

(** X15.  [WithValidAt] opens a window of exactly one day: for every
    instant [now] that is not within a day (and the offset to year 1) of
    the end of the [int64] range, the claims it returns are issued at
    [now], expire at [now + 86400], and are valid at an instant [t]
    exactly when [now <= t <= now + 86400]; the subject, and with it
    [GetID], is left as it was. *)
Theorem WithValidAt_window (c : helpers.CustomClaims) (now t : Z) :
  - 2 ^ 63 <= now <= 2 ^ 63 - 1 - 62135596800 - 86400 ->
  helpers.IssuedAt (helpers.WithValidAt c now) = now
  /\ helpers.ExpirationTime (helpers.WithValidAt c now) = now + 86400
  /\ (helpers.Valid t (helpers.WithValidAt c now) = None
      <-> now <= t <= now + 86400)
  /\ helpers.GetID (helpers.WithValidAt c now) = helpers.GetID c.
Proof.
  intros Hnow.
  assert (Hexp : helpers.ExpirationTime (helpers.WithValidAt c now)
                 = now + 86400).
  { unfold helpers.WithValidAt. cbn [helpers.ExpirationTime].
    unfold time.Unix. cbn [Z.ltb Z.leb Z.compare orb].
    change (time.Hour * 24) with (time.seconds 86400).
    unfold time.unixToInternal.
    rewrite wrap64_id by lia.
    rewrite Add_seconds; cbn [time.abs time.nsec]; try lia.
    unfold time.Time_Unix, time.internalToUnix, time.unixToInternal.
    cbn [time.abs]. rewrite wrap64_id by lia. lia. }
  split; [reflexivity|]. split; [exact Hexp|]. split; [|reflexivity].
  rewrite Valid_nil_iff, Hexp. reflexivity.
Qed.

Lemma WithValidAt_window_witness :
  helpers.ExpirationTime
    (helpers.WithValidAt
       {| helpers.Issuer := "https://talentpitch.co";
          helpers.ID := "42";
          helpers.IssuedAt := 0;
          helpers.ExpirationTime := 0;
          helpers.Name := "Ada";
          helpers.Email := "ada@example.org";
          helpers.Avatar := "";
          helpers.About := "";
          helpers.AboutVideo := "";
          helpers.ProfileId := 7 |} 1700000000)
  = 1700000000 + 86400.
Proof.
  apply (WithValidAt_window _ 1700000000 1700000001).
  lia.
Defined.

Section CreateToken.

Variable SignedString : helpers.CustomClaims -> string -> string * error.

(** X16.  The claims [CreateToken] signs.  For a well-formed clock
    reading [iat] and lifetimes that fit a [time.Duration] (at most
    9223372036 seconds in absolute value), whatever the signer: the token
    is issued at [iat], expires [ttlSeconds] later, or
    [ttlSeconds + refreshTTL] later for a refresh token, and carries the
    user's fields; it is valid at the instant it is issued exactly when
    that lifetime is not negative.  The result is the signer's token with
    a nil error, or the empty string with the signer's error. *)
Theorem CreateToken_claims (iat : time.Time) (user : helpers.UserContext)
  (url : string) (ttlSeconds : Z) (secretKey : string) (refresh : bool)
  (refreshTTL : Z) :
  0 <= time.nsec iat < 1000000000 ->
  - 2 ^ 62 <= time.abs iat <= 2 ^ 62 ->
  - 9223372036 <= ttlSeconds <= 9223372036 ->
  - 9223372036 <= refreshTTL <= 9223372036 ->
  let lifetime := ttlSeconds + (if refresh then refreshTTL else 0) in
  let claims :=
    {| helpers.Issuer := url;
       helpers.ID := helpers.userID user;
       helpers.IssuedAt := time.Time_Unix iat;
       helpers.ExpirationTime := time.Time_Unix iat + lifetime;
       helpers.Name := helpers.userName user;
       helpers.Email := helpers.userEmail user;
       helpers.Avatar := helpers.userAvatar user;
       helpers.About := helpers.userAbout user;
       helpers.AboutVideo := helpers.userAboutVideo user;
       helpers.ProfileId := helpers.userProfileId user |} in
  helpers.CreateToken SignedString iat user url ttlSeconds secretKey refresh
    refreshTTL
  = match SignedString claims secretKey with
    | (_, Some e) => ("", Some e)
    | (tokenString, None) => (tokenString, None)
    end
  /\ (helpers.Valid (time.Time_Unix iat) claims = None <-> 0 <= lifetime).
Proof.
  intros Hnsec Habs Httl Hrefresh lifetime claims.
  assert (Hclaims : helpers.tokenClaimsFor iat user url ttlSeconds refresh
                      refreshTTL = claims).
  { unfold helpers.tokenClaimsFor, claims, lifetime.
    rewrite (Add_seconds iat ttlSeconds) by lia.
    assert (Hunix : forall a n,
               - 2 ^ 62 - 9223372036 * 2 <= a <= 2 ^ 62 + 9223372036 * 2 ->
               time.Time_Unix {| time.abs := a; time.nsec := n |}
               = a - 62135596800).
    { intros a n Ha. unfold time.Time_Unix, time.internalToUnix,
        time.unixToInternal. cbn [time.abs]. rewrite wrap64_id by lia. lia. }
    assert (Hiat : time.Time_Unix iat = time.abs iat - 62135596800).
    { unfold time.Time_Unix, time.internalToUnix, time.unixToInternal.
      rewrite wrap64_id by lia. lia. }
    destruct refresh.
    - rewrite Add_seconds; cbn [time.abs time.nsec]; try lia.
      rewrite Hunix, Hiat by lia. f_equal. lia.
    - rewrite Hunix, Hiat by lia. f_equal. lia. }
  split.
  - unfold helpers.CreateToken. rewrite Hclaims.
    destruct (SignedString claims secretKey) as [tokenString [e|]];
      reflexivity.
  - rewrite Valid_nil_iff. unfold claims. cbn [helpers.IssuedAt
      helpers.ExpirationTime]. lia.
Qed.

(** X17.  Lifetimes that do not fit a [time.Duration]: the product
    [time.Duration(ttlSeconds) * time.Second] wraps around, and for
    [ttlSeconds] from 9223372037 to 18446744072 the wrapped duration is
    negative by more than a second, so that the token [CreateToken] signs
    expires before it is issued and is expired at its own issue time. *)
Theorem CreateToken_lifetime_overflow (iat : time.Time)
  (user : helpers.UserContext) (url : string) (ttlSeconds : Z)
  (secretKey : string) (refreshTTL : Z) :
  0 <= time.nsec iat < 1000000000 ->
  - 2 ^ 62 <= time.abs iat <= 2 ^ 62 ->
  9223372037 <= ttlSeconds <= 18446744072 ->
  exists claims,
    helpers.CreateToken SignedString iat user url ttlSeconds secretKey false
      refreshTTL
    = match SignedString claims secretKey with
      | (_, Some e) => ("", Some e)
      | (tokenString, None) => (tokenString, None)
      end
    /\ helpers.IssuedAt claims = time.Time_Unix iat
    /\ helpers.ExpirationTime claims < helpers.IssuedAt claims
    /\ helpers.Valid (helpers.IssuedAt claims) claims
       = Some "token is expired".
Proof.
  intros Hnsec Habs Httl.
  exists (helpers.tokenClaimsFor iat user url ttlSeconds false refreshTTL).
  assert (Hexp : helpers.ExpirationTime
                   (helpers.tokenClaimsFor iat user url ttlSeconds false
                      refreshTTL)
                 < time.Time_Unix iat).
  { unfold helpers.tokenClaimsFor. cbn [helpers.ExpirationTime].
    unfold time.seconds, time.Second.
    assert (Hwrap : wrap64 (ttlSeconds * 1000000000)
                    = ttlSeconds * 1000000000 - 2 ^ 64).
    { unfold wrap64.
      replace (ttlSeconds * 1000000000 + 2 ^ 63)
        with (ttlSeconds * 1000000000 - 2 ^ 63 + 1 * 2 ^ 64) by lia.
      rewrite Z.mod_add by lia. rewrite Z.mod_small by lia. lia. }
    rewrite Hwrap. set (d := ttlSeconds * 1000000000 - 2 ^ 64).
    assert (Hd : - 2 ^ 63 < d < - 1000000000) by (unfold d; lia).
    pose proof (Z.quot_rem' d 1000000000) as Hqr.
    pose proof (Z.rem_bound_abs d 1000000000 ltac:(lia)) as Hr.
    pose proof (Z.rem_nonpos d 1000000000 ltac:(lia) ltac:(lia)) as Hr'.
    unfold time.Add.
    set (q := Z.quot d 1000000000) in *. set (r := Z.rem d 1000000000) in *.
    assert (Hq : - 9223372037 <= q <= - 1) by lia.
    destruct (Z.leb_spec 1000000000 (time.nsec iat + r)); [lia|].
    unfold time.Time_Unix at 2.
    unfold time.internalToUnix, time.unixToInternal.
    rewrite (wrap64_id (time.abs iat + _)) by lia.
    destruct (Z.ltb_spec (time.nsec iat + r) 0).
    - rewrite wrap64_id by lia. unfold time.addSec. cbn [time.abs time.nsec].
      rewrite wrap64_id by lia.
      destruct (Z.ltb_spec (time.abs iat) (time.abs iat + (q - 1)));
        [lia|].
      destruct (Z.ltb_spec 0 (q - 1)); [lia|]. cbn [Bool.eqb].
      unfold time.Time_Unix, time.internalToUnix, time.unixToInternal.
      cbn [time.abs]. rewrite wrap64_id by lia. lia.
    - unfold time.addSec. cbn [time.abs time.nsec].
      rewrite wrap64_id by lia.
      destruct (Z.ltb_spec (time.abs iat) (time.abs iat + q)); [lia|].
      destruct (Z.ltb_spec 0 q); [lia|]. cbn [Bool.eqb].
      unfold time.Time_Unix, time.internalToUnix, time.unixToInternal.
      cbn [time.abs]. rewrite wrap64_id by lia. lia. }
  split; [reflexivity|]. split; [reflexivity|]. split; [exact Hexp|].
  unfold helpers.Valid, jwt.NewValidationError.
  change (helpers.IssuedAt
            (helpers.tokenClaimsFor iat user url ttlSeconds false refreshTTL))
    with (time.Time_Unix iat).
  destruct (Z.ltb_spec
              (helpers.ExpirationTime
                 (helpers.tokenClaimsFor iat user url ttlSeconds false
                    refreshTTL))
              (time.Time_Unix iat)); [reflexivity | lia].
Qed.

End CreateToken.

Lemma CreateToken_lifetime_overflow_witness :
  exists claims,
    helpers.CreateToken (fun claims key => (helpers.ID claims ++ "." ++ key, None))
      {| time.abs := 63835596800; time.nsec := 5 |}
      {| helpers.userID := "42";
         helpers.userName := "Ada";
         helpers.userEmail := "ada@example.org";
         helpers.userAvatar := "";
         helpers.userAbout := "";
         helpers.userAboutVideo := "";
         helpers.userProfileId := 7 |}
      "https://talentpitch.co" 10000000000 "secret" false 0
    = match (helpers.ID claims ++ "." ++ "secret", @None string) with
      | (_, Some e) => ("", Some e)
      | (tokenString, None) => (tokenString, None)
      end
    /\ helpers.IssuedAt claims
       = time.Time_Unix {| time.abs := 63835596800; time.nsec := 5 |}
    /\ helpers.ExpirationTime claims < helpers.IssuedAt claims
    /\ helpers.Valid (helpers.IssuedAt claims) claims
       = Some "token is expired".
Proof.
  apply (CreateToken_lifetime_overflow
           (fun claims key => (helpers.ID claims ++ "." ++ key, None))
           {| time.abs := 63835596800; time.nsec := 5 |}
           {| helpers.userID := "42";
              helpers.userName := "Ada";
              helpers.userEmail := "ada@example.org";
              helpers.userAvatar := "";
              helpers.userAbout := "";
              helpers.userAboutVideo := "";
              helpers.userProfileId := 7 |}
           "https://talentpitch.co" 10000000000 "secret" 0);
    cbn [time.nsec time.abs]; lia.
Defined.

Lemma CreateToken_claims_witness :
  helpers.CreateToken (fun claims key => (helpers.ID claims ++ "." ++ key, None))
    {| time.abs := 63835596800; time.nsec := 5 |}
    {| helpers.userID := "42";
       helpers.userName := "Ada";
       helpers.userEmail := "ada@example.org";
       helpers.userAvatar := "";
       helpers.userAbout := "";
       helpers.userAboutVideo := "";
       helpers.userProfileId := 7 |}
    "https://talentpitch.co" 3600 "secret" true 600
  = ("42.secret", None).
Proof.
  refine (proj1 (CreateToken_claims
           (fun claims key => (helpers.ID claims ++ "." ++ key, None))
           {| time.abs := 63835596800; time.nsec := 5 |}
           {| helpers.userID := "42";
              helpers.userName := "Ada";
              helpers.userEmail := "ada@example.org";
              helpers.userAvatar := "";
              helpers.userAbout := "";
              helpers.userAboutVideo := "";
              helpers.userProfileId := 7 |}
           "https://talentpitch.co" 3600 "secret" true 600 _ _ _ _));
    cbn [time.nsec time.abs]; lia.
Defined.

(** ** Splitting at a byte *)

Lemma splitByte_cons (sep : ascii) (s : string) :
  exists field fields, strings.splitByte sep s = field :: fields.
Proof.
  induction s as [|c s (field & fields & IH)]; cbn [strings.splitByte].
  - now exists "", [].
  - rewrite IH. destruct (Ascii.eqb c sep); eexists; eexists; reflexivity.
Qed.

Lemma splitByte_none (sep : ascii) (s : string) :
  hasByte sep s = false -> strings.splitByte sep s = [s].
Proof.
  induction s as [|c s IH]; cbn [strings.splitByte hasByte]; [reflexivity|].
  intros H. apply orb_false_iff in H as [Hc Hs].
  rewrite (IH Hs), Hc. reflexivity.
Qed.

Lemma splitByte_app (sep : ascii) (a b : string) :
  strings.splitByte sep (a ++ String sep b)
  = (strings.splitByte sep a ++ strings.splitByte sep b)%list.
Proof.
  induction a as [|c a IH]; cbn [append strings.splitByte].
  - destruct (splitByte_cons sep b) as (field & fields & ->).
    rewrite Ascii.eqb_refl. reflexivity.
  - rewrite IH. destruct (splitByte_cons sep a) as (field & fields & ->).
    cbn [app]. destruct (Ascii.eqb c sep); reflexivity.
Qed.

Lemma splitByte_first (sep : ascii) (a b : string) :
  hasByte sep a = false ->
  strings.splitByte sep (a ++ String sep b) = a :: strings.splitByte sep b.
Proof.
  intros Ha. rewrite splitByte_app, (splitByte_none sep a Ha). reflexivity.
Qed.

(** ** The client address *)

Section ClientIP.

Variable ParseIP : string -> bool.

#[local] Abbreviation getClientIP := (talentpitchtools.getClientIP ParseIP).

(** X18.  The address [getClientIP] settles on is either Gin's own
    [ClientIP()] or a trimmed header value that [net.ParseIP] accepts: a
    header value is never passed on unchecked.  [clientIPMiddleware]
    stores that address under the key [client_ip] and always hands over
    to the next handler. *)
Theorem getClientIP_checked (c : talentpitchtools.Context) :
  (getClientIP c = talentpitchtools.ClientIP c
   \/ (ParseIP (getClientIP c) = true
       /\ strings.TrimSpace (getClientIP c) = getClientIP c
       /\ (getClientIP c
           = strings.TrimSpace
               (talentpitchtools.first
                  (strings.splitByte ","
                     (talentpitchtools.GetHeader c "X-Forwarded-For")))
           \/ getClientIP c
              = strings.TrimSpace
                  (talentpitchtools.GetHeader c "X-Real-IP"))))
  /\ talentpitchtools.clientIPMiddleware ParseIP c
     = [talentpitchtools.Set_ "client_ip"
          (talentpitchtools.StringValue (getClientIP c));
        talentpitchtools.Next].
Proof.
  split; [|reflexivity].
  unfold talentpitchtools.getClientIP.
  set (fromRealIP :=
         if negb (talentpitchtools.GetHeader c "X-Real-IP" =? "")%string
         then
           if ParseIP (strings.TrimSpace
                         (talentpitchtools.GetHeader c "X-Real-IP"))
           then strings.TrimSpace (talentpitchtools.GetHeader c "X-Real-IP")
           else talentpitchtools.ClientIP c
         else talentpitchtools.ClientIP c).
  assert (Hreal : fromRealIP = talentpitchtools.ClientIP c
                  \/ (ParseIP fromRealIP = true
                      /\ strings.TrimSpace fromRealIP = fromRealIP
                      /\ fromRealIP
                         = strings.TrimSpace
                             (talentpitchtools.GetHeader c "X-Real-IP"))).
  { unfold fromRealIP.
    destruct (negb _); [|now left].
    destruct (ParseIP _) eqn:E; [|now left].
    right. rewrite E, TrimSpace_idempotent. auto. }
  assert (Hfallback :
            fromRealIP = talentpitchtools.ClientIP c
            \/ (ParseIP fromRealIP = true
                /\ strings.TrimSpace fromRealIP = fromRealIP
                /\ (fromRealIP
                    = strings.TrimSpace
                        (talentpitchtools.first
                           (strings.splitByte ","
                              (talentpitchtools.GetHeader c "X-Forwarded-For")))
                    \/ fromRealIP
                       = strings.TrimSpace
                           (talentpitchtools.GetHeader c "X-Real-IP")))).
  { destruct Hreal as [H | (H1 & H2 & H3)]; [now left | right; auto]. }
  clearbody fromRealIP.
  destruct (negb _); [|exact Hfallback].
  destruct (0 <? _)%nat; [|exact Hfallback].
  destruct (ParseIP (strings.TrimSpace _)) eqn:E; [|exact Hfallback].
  right. rewrite E, TrimSpace_idempotent. auto.
Qed.


End ClientIP.


(** ** The token middlewares *)

Section Middlewares.

Variable ParseWithClaims :
  string -> helpers.Keyfunc -> option helpers.Token * error.
Variable jwtSecret : string.

#[local] Abbreviation required :=
  (talentpitchtools.JWTMiddleware ParseWithClaims jwtSecret).
#[local] Abbreviation optional :=
  (talentpitchtools.optionalJWTMiddleware ParseWithClaims jwtSecret).

(** What both middlewares do with a parsed token. *)
Lemma split_two (scheme tokenString : string) :
  hasByte " " scheme = false -> hasByte " " tokenString = false ->
  strings.splitByte " " (scheme ++ " " ++ tokenString)
  = [scheme; tokenString].
Proof.
  intros Hs Ht.
  replace (scheme ++ " " ++ tokenString)
    with (scheme ++ String " " tokenString) by reflexivity.
  rewrite (splitByte_first " " scheme tokenString Hs).
  now rewrite (splitByte_none " " tokenString Ht).
Qed.

Lemma split_three (a b d : string) :
  (2 < List.length (strings.splitByte " " (a ++ " " ++ b ++ " " ++ d)))%nat.
Proof.
  replace (a ++ " " ++ b ++ " " ++ d)
    with (a ++ String " " (b ++ String " " d)) by reflexivity.
  rewrite !splitByte_app, !length_app.
  destruct (splitByte_cons " " a) as (fa & fsa & ->).
  destruct (splitByte_cons " " b) as (fb & fsb & ->).
  destruct (splitByte_cons " " d) as (fd & fsd & ->).
  cbn [List.length]. lia.
Qed.

Lemma JWTMiddleware_two_parts (c : talentpitchtools.Context)
  (scheme tokenString : string) :
  talentpitchtools.GetHeader c "Authorization" = scheme ++ " " ++ tokenString ->
  hasByte " " scheme = false -> hasByte " " tokenString = false ->
  required c
  = match ParseWithClaims tokenString (helpers.hmacKeyfunc jwtSecret) with
    | (_, Some _) => Ret [talentpitchtools.AbortWithStatus 403]
    | (None, None) => Panic
    | (Some token, None) =>
        if helpers.tokenValid token then
          match helpers.tokenClaims token with
          | Some claims =>
              Ret [talentpitchtools.Set_ "user"
                     (talentpitchtools.ClaimsValue claims);
                   talentpitchtools.Next]
          | None => Panic
          end
        else Ret [talentpitchtools.AbortWithStatus 403]
    end.
Proof.
  unfold talentpitchtools.JWTMiddleware. intros -> Hs Ht.
  destruct (String.eqb_spec (scheme ++ " " ++ tokenString) "") as [E|_];
    [destruct scheme; discriminate|].
  rewrite (split_two scheme tokenString Hs Ht).
  cbn [List.length Nat.eqb negb List.nth].
  destruct (ParseWithClaims tokenString (helpers.hmacKeyfunc jwtSecret))
    as [[token|] [e|]]; cbn [helpers.rejected bindRes]; try reflexivity.
  destruct (helpers.tokenValid token); cbn [negb]; [|reflexivity].
  cbn [talentpitchtools.claimsOf].
  destruct (helpers.tokenClaims token); reflexivity.
Qed.

(** X20.  What [JWTMiddleware] answers.  Without an [Authorization]
    header, with a header that has no space, or with one that has two or
    more spaces, the request is aborted with status 401.  A header of two
    space-free parts is judged by its second part alone, whatever the
    first part (the scheme) says: status 403 when the parser reports an
    error or the token is not valid, and otherwise the token's claims are
    stored under [user] and the next handler runs. *)
Theorem JWTMiddleware_outcomes (c : talentpitchtools.Context) :
  (talentpitchtools.GetHeader c "Authorization" = "" ->
   required c = Ret [talentpitchtools.AbortWithStatus 401])
  /\ (hasByte " " (talentpitchtools.GetHeader c "Authorization") = false ->
      required c = Ret [talentpitchtools.AbortWithStatus 401])
  /\ (forall a b d,
         talentpitchtools.GetHeader c "Authorization"
         = a ++ " " ++ b ++ " " ++ d ->
         required c = Ret [talentpitchtools.AbortWithStatus 401])
  /\ (forall scheme tokenString,
         talentpitchtools.GetHeader c "Authorization"
         = scheme ++ " " ++ tokenString ->
         hasByte " " scheme = false -> hasByte " " tokenString = false ->
         required c
         = match ParseWithClaims tokenString (helpers.hmacKeyfunc jwtSecret) with
           | (_, Some _) => Ret [talentpitchtools.AbortWithStatus 403]
           | (None, None) => Panic
           | (Some token, None) =>
               if helpers.tokenValid token then
                 match helpers.tokenClaims token with
                 | Some claims =>
                     Ret [talentpitchtools.Set_ "user"
                            (talentpitchtools.ClaimsValue claims);
                          talentpitchtools.Next]
                 | None => Panic
                 end
               else Ret [talentpitchtools.AbortWithStatus 403]
           end).
Proof.
  unfold talentpitchtools.JWTMiddleware.
  split; [|split; [|split]].
  - intros ->. reflexivity.
  - intros Hspace. destruct (String.eqb _ ""); [reflexivity|].
    rewrite (splitByte_none _ _ Hspace). reflexivity.
  - intros a b d ->. destruct (String.eqb _ ""); [reflexivity|].
    pose proof (split_three a b d) as H.
    destruct (Nat.eqb_spec
                (List.length (strings.splitByte " " (a ++ " " ++ b ++ " " ++ d)))
                2) as [E|_]; [lia | reflexivity].
  - intros scheme tokenString. fold required.
    apply JWTMiddleware_two_parts.
Qed.

(** X21.  [optionalJWTMiddleware] is [JWTMiddleware] with every abort
    replaced by a plain hand-over to the next handler: it stores the
    claims in exactly the cases in which the required middleware does,
    panics in exactly the same cases, and never aborts a request. *)
Theorem optionalJWTMiddleware_never_aborts (c : talentpitchtools.Context) :
  optional c
  = match required c with
    | Ret [talentpitchtools.AbortWithStatus _] => Ret [talentpitchtools.Next]
    | outcome => outcome
    end
  /\ (forall actions code,
         optional c = Ret actions ->
         ~ In (talentpitchtools.AbortWithStatus code) actions)
  /\ (forall actions,
         optional c = Ret actions ->
         List.last actions (talentpitchtools.AbortWithStatus 0)
         = talentpitchtools.Next).
Proof.
  assert (Hcases :
            (optional c = Ret [talentpitchtools.Next]
             /\ exists code,
                 required c = Ret [talentpitchtools.AbortWithStatus code])
            \/ (optional c = Panic /\ required c = Panic)
            \/ (exists claims,
                   optional c
                   = Ret [talentpitchtools.Set_ "user"
                            (talentpitchtools.ClaimsValue claims);
                          talentpitchtools.Next]
                   /\ required c
                      = Ret [talentpitchtools.Set_ "user"
                               (talentpitchtools.ClaimsValue claims);
                             talentpitchtools.Next])).
  { unfold talentpitchtools.optionalJWTMiddleware,
      talentpitchtools.JWTMiddleware.
    destruct (String.eqb _ ""); [left; split; [reflexivity | now eexists]|].
    destruct (negb _); [left; split; [reflexivity | now eexists]|].
    destruct (ParseWithClaims _ _) as [[token|] [e|]];
      cbn [helpers.rejected bindRes];
      try (left; split; [reflexivity | now eexists]);
      try (right; left; split; reflexivity).
    destruct (helpers.tokenValid token); cbn [negb];
      [|left; split; [reflexivity | now eexists]].
    cbn [talentpitchtools.claimsOf].
    destruct (helpers.tokenClaims token) as [claims|]; cbn [bindRes].
    - right; right. exists claims. split; reflexivity.
    - right; left. split; reflexivity. }
  destruct Hcases as [[Ho [code Hr]] | [[Ho Hr] | (claims & Ho & Hr)]];
    rewrite Ho, Hr.
  - split; [reflexivity|]. split; intros actions.
    + intros code' [= <-] [H|[]]. discriminate.
    + intros [= <-]. reflexivity.
  - split; [reflexivity|]. split; intros; discriminate.
  - split; [reflexivity|]. split; intros actions.
    + intros code' [= <-] [H|[H|[]]]; discriminate.
    + intros [= <-]. reflexivity.
Qed.

Lemma GetTokenExpiration_cases (tokenString : string) :
  helpers.GetTokenExpiration ParseWithClaims tokenString jwtSecret
  = match ParseWithClaims tokenString (helpers.hmacKeyfunc jwtSecret) with
    | (_, Some _) => Ret (0, Some "invalid token")
    | (None, None) => Panic
    | (Some token, None) =>
        if helpers.tokenValid token then
          match helpers.tokenClaims token with
          | Some claims => Ret (helpers.ExpirationTime claims, None)
          | None => Ret (0, Some "could not parse claims")
          end
        else Ret (0, Some "invalid token")
    end.
Proof.
  unfold helpers.GetTokenExpiration.
  destruct (ParseWithClaims tokenString (helpers.hmacKeyfunc jwtSecret))
    as [[token|] [e|]]; cbn [helpers.rejected bindRes]; try reflexivity.
  destruct (helpers.tokenValid token); reflexivity.
Qed.

(** X22.  [JWTMiddleware] and [GetTokenExpiration] judge a token alike.
    For a header of two space-free parts and the same secret, at the same
    instant: the middleware lets the request through with some claims
    exactly when [GetTokenExpiration] returns the expiry of those claims
    without error; it answers 403 exactly when [GetTokenExpiration]
    reports an invalid token; and where the token carries claims of
    another type the middleware panics while [GetTokenExpiration]
    reports that the claims could not be parsed. *)
Theorem JWTMiddleware_agrees_with_GetTokenExpiration
  (c : talentpitchtools.Context) (scheme tokenString : string) :
  talentpitchtools.GetHeader c "Authorization" = scheme ++ " " ++ tokenString ->
  hasByte " " scheme = false -> hasByte " " tokenString = false ->
  (forall claims,
      required c
      = Ret [talentpitchtools.Set_ "user" (talentpitchtools.ClaimsValue claims);
             talentpitchtools.Next] ->
      helpers.GetTokenExpiration ParseWithClaims tokenString jwtSecret
      = Ret (helpers.ExpirationTime claims, None))
  /\ (forall exp,
         helpers.GetTokenExpiration ParseWithClaims tokenString jwtSecret
         = Ret (exp, None) ->
         exists claims,
           required c
           = Ret [talentpitchtools.Set_ "user"
                    (talentpitchtools.ClaimsValue claims);
                  talentpitchtools.Next]
           /\ helpers.ExpirationTime claims = exp)
  /\ (required c = Ret [talentpitchtools.AbortWithStatus 403]
      <-> helpers.GetTokenExpiration ParseWithClaims tokenString jwtSecret
          = Ret (0, Some "invalid token"))
  /\ (required c = Panic
      <-> helpers.GetTokenExpiration ParseWithClaims tokenString jwtSecret
          = Panic
          \/ helpers.GetTokenExpiration ParseWithClaims tokenString jwtSecret
             = Ret (0, Some "could not parse claims")).
Proof.
  intros Hheader Hs Ht.
  rewrite (JWTMiddleware_two_parts c scheme tokenString Hheader Hs Ht).
  rewrite GetTokenExpiration_cases.
  destruct (ParseWithClaims tokenString (helpers.hmacKeyfunc jwtSecret))
    as [[token|] [e|]].
  - split; [discriminate|]. split; [discriminate|].
    split; [tauto|]. split; [discriminate | intros [H|H]; discriminate].
  - destruct (helpers.tokenValid token).
    + destruct (helpers.tokenClaims token) as [claims|].
      * split; [intros claims' [= <-]; reflexivity|].
        split; [intros exp [= <-]; now exists claims|].
        split; [split; discriminate|].
        split; [discriminate | intros [H|H]; discriminate].
      * split; [discriminate|]. split; [discriminate|].
        split; [split; discriminate|]. split; [now right | reflexivity].
    + split; [discriminate|]. split; [discriminate|].
      split; [tauto|]. split; [discriminate | intros [H|H]; discriminate].
  - split; [discriminate|]. split; [discriminate|].
    split; [tauto|]. split; [discriminate | intros [H|H]; discriminate].
  - split; [discriminate|]. split; [discriminate|].
    split; [split; discriminate|]. split; [now left | reflexivity].
Qed.

(** X23.  What [GetTokenExpiration] can return.  An expiry with a nil
    error is the [ExpirationTime] of the claims of a token that the parser
    returned without error and marked valid.  Every error comes with the
    expiry 0 and is one of two fixed messages: the parser's own error
    message is never passed on.  The call panics only on a nil token
    returned together with a nil error. *)
Theorem GetTokenExpiration_results (tokenString : string) :
  (forall exp,
      helpers.GetTokenExpiration ParseWithClaims tokenString jwtSecret
      = Ret (exp, None) ->
      exists token claims,
        ParseWithClaims tokenString (helpers.hmacKeyfunc jwtSecret)
        = (Some token, None)
        /\ helpers.tokenValid token = true
        /\ helpers.tokenClaims token = Some claims
        /\ exp = helpers.ExpirationTime claims)
  /\ (forall exp e,
         helpers.GetTokenExpiration ParseWithClaims tokenString jwtSecret
         = Ret (exp, Some e) ->
         exp = 0 /\ (e = "invalid token" \/ e = "could not parse claims"))
  /\ (helpers.GetTokenExpiration ParseWithClaims tokenString jwtSecret = Panic
      <-> ParseWithClaims tokenString (helpers.hmacKeyfunc jwtSecret)
          = (None, None))
  /\ helpers.GetTokenExpiration ParseWithClaims tokenString jwtSecret
     <> Diverge.
Proof.
  rewrite GetTokenExpiration_cases.
  destruct (ParseWithClaims tokenString (helpers.hmacKeyfunc jwtSecret))
    as [[token|] [e|]].
  - split; [discriminate|]. split; [intros exp e' [= <- <-]; auto|].
    split; [split; discriminate | discriminate].
  - destruct (helpers.tokenValid token) eqn:Hvalid.
    + destruct (helpers.tokenClaims token) as [claims|] eqn:Hclaims.
      * split; [intros exp [= <-]; exists token, claims; auto|].
        split; [discriminate|]. split; [split; discriminate | discriminate].
      * split; [discriminate|]. split; [intros exp e' [= <- <-]; auto|].
        split; [split; discriminate | discriminate].
    + split; [discriminate|]. split; [intros exp e' [= <- <-]; auto|].
      split; [split; discriminate | discriminate].
  - split; [discriminate|]. split; [intros exp e' [= <- <-]; auto|].
    split; [split; discriminate | discriminate].
  - split; [discriminate|]. split; [discriminate|].
    split; [split; reflexivity | discriminate].
Qed.

End Middlewares.

Lemma JWTMiddleware_outcomes_witness :
  talentpitchtools.JWTMiddleware sample.parser "secret"
    (sample.request "Token good")
  = Ret [talentpitchtools.Set_ "user" (talentpitchtools.ClaimsValue sample.claims);
         talentpitchtools.Next]
  /\ talentpitchtools.JWTMiddleware sample.parser "secret"
       (sample.request "Bearer  good")
     = Ret [talentpitchtools.AbortWithStatus 401].
Proof.
  destruct (JWTMiddleware_outcomes sample.parser "secret"
              (sample.request "Token good")) as (_ & _ & _ & Htwo).
  destruct (JWTMiddleware_outcomes sample.parser "secret"
              (sample.request "Bearer  good")) as (_ & _ & Hthree & _).
  split.
  - rewrite (Htwo "Token" "good"); reflexivity.
  - apply (Hthree "Bearer" "" "good"). reflexivity.
Defined.

Lemma optionalJWTMiddleware_never_aborts_witness :
  ~ In (talentpitchtools.AbortWithStatus 403) [talentpitchtools.Next]
  /\ List.last [talentpitchtools.Next] (talentpitchtools.AbortWithStatus 0)
     = talentpitchtools.Next.
Proof.
  destruct (optionalJWTMiddleware_never_aborts sample.parser "secret"
              (sample.request "Bearer forged")) as (_ & Hnever & Hlast).
  split.
  - apply (Hnever [talentpitchtools.Next] 403). reflexivity.
  - apply (Hlast [talentpitchtools.Next]). reflexivity.
Defined.

Lemma JWTMiddleware_agrees_with_GetTokenExpiration_witness :
  helpers.GetTokenExpiration sample.parser "good" "secret"
  = Ret (1700003600, None).
Proof.
  apply (proj1 (JWTMiddleware_agrees_with_GetTokenExpiration sample.parser
                  "secret" (sample.request "Bearer good") "Bearer" "good"
                  eq_refl eq_refl eq_refl) sample.claims).
  reflexivity.
Defined.

Lemma GetTokenExpiration_results_witness :
  0 = 0 /\ ("invalid token" = "invalid token"
            \/ "invalid token" = "could not parse claims").
Proof.
  apply (proj1 (proj2 (GetTokenExpiration_results sample.parser "secret"
                         "forged")) 0 "invalid token").
  reflexivity.
Defined.

(** ** The subject of a token as a number *)

Lemma of_uint_acc_ge (d : Decimal.uint) :
  forall acc, (acc <= Nat.of_uint_acc d acc)%nat.
Proof.
  induction d; intros acc; cbn [Nat.of_uint_acc]; [lia|..];
    rewrite Nat.tail_mul_spec;
    (eapply Nat.le_trans; [|apply IHd]); lia.
Qed.

Lemma digits_string_of_uint (d : Decimal.uint) :
  forall acc, 0 <= acc ->
    strconv.digits acc (NilEmpty.string_of_uint d)
    = Some (Z.of_nat (Nat.of_uint_acc d (Z.to_nat acc))).
Proof.
  induction d; intros acc Hacc;
    cbn [NilEmpty.string_of_uint strconv.digits Nat.of_uint_acc];
    [now rewrite Z2Nat.id|..];
    rewrite Nat.tail_mul_spec;
    match goal with
    | |- context [byteval ?c - byteval "0"] =>
        let v := eval vm_compute in (byteval c - byteval "0") in
        change (byteval c - byteval "0") with v
    end;
    cbn [Z.leb Z.compare andb Pos.compare Pos.compare_cont];
    (rewrite IHd by lia); do 3 f_equal; lia.
Qed.

Lemma ParseUint_loop_string_of_uint (d : Decimal.uint) :
  forall acc, 0 <= acc ->
    Z.of_nat (Nat.of_uint_acc d (Z.to_nat acc)) < 2 ^ 64 ->
    strconv.ParseUint_loop acc (NilEmpty.string_of_uint d)
    = (Z.of_nat (Nat.of_uint_acc d (Z.to_nat acc)), None).
Proof.
  induction d; intros acc Hacc Hbound;
    cbn [NilEmpty.string_of_uint strconv.ParseUint_loop Nat.of_uint_acc] in *;
    [now rewrite Z2Nat.id|..];
    rewrite Nat.tail_mul_spec in *;
    match goal with
    | H : Z.of_nat (Nat.of_uint_acc d ?a) < _ |- _ =>
        pose proof (of_uint_acc_ge d a) as Hge
    end;
    match goal with
    | |- context [byteval ?c - byteval "0"] =>
        let v := eval vm_compute in (byteval c - byteval "0") in
        change (byteval c - byteval "0") with v;
        let w := eval vm_compute in
                   ((byteval "0" <=? byteval c) && (byteval c <=? byteval "9")) in
        change ((byteval "0" <=? byteval c) && (byteval c <=? byteval "9")) with w
    end;
    cbn iota; cbn [Z.leb Z.compare Pos.compare Pos.compare_cont];
    change (maxUint64 / 10 + 1) with 1844674407370955162;
    (destruct (Z.leb_spec 1844674407370955162 acc); [lia|]);
    unfold wrapU64; (rewrite Z.mod_small by lia);
    match goal with
    | |- context [?x <? ?y] => destruct (Z.ltb_spec x y); [lia|]
    end;
    (rewrite IHd; [do 3 f_equal; lia | lia |]);
    match goal with
    | |- Z.of_nat (Nat.of_uint_acc d ?a) < _ =>
        match type of Hbound with
        | Z.of_nat (Nat.of_uint_acc d ?b) < _ =>
            replace a with b by lia; exact Hbound
        end
    end.
Qed.

Lemma string_of_uint_digit (d : Decimal.uint) (c0 : ascii) (rest : string) :
  NilEmpty.string_of_uint d = String c0 rest ->
  Ascii.eqb c0 "-" = false /\ Ascii.eqb c0 "+" = false.
Proof.
  destruct d; cbn [NilEmpty.string_of_uint]; intros [= <- _];
    try discriminate; split; reflexivity.
Qed.

Lemma itoa_cons (n : nat) :
  exists c0 rest,
    itoa n = String c0 rest
    /\ Ascii.eqb c0 "-" = false /\ Ascii.eqb c0 "+" = false.
Proof.
  unfold itoa.
  destruct (NilEmpty.string_of_uint (Nat.to_uint n)) as [|c0 rest] eqn:E.
  - exfalso. apply (DecimalFacts.unorm_nonnil (Nat.to_uint n)).
    rewrite <- DecimalNat.Unsigned.to_of, DecimalNat.Unsigned.of_to.
    destruct (Nat.to_uint n); [reflexivity | discriminate..].
  - exists c0, rest. split; [reflexivity|].
    exact (string_of_uint_digit _ _ _ E).
Qed.

Lemma digits_itoa (n : nat) : strconv.digits 0 (itoa n) = Some (Z.of_nat n).
Proof.
  unfold itoa. rewrite digits_string_of_uint by lia.
  change (Nat.of_uint_acc (Nat.to_uint n) (Z.to_nat 0))
    with (Nat.of_uint (Nat.to_uint n)).
  now rewrite DecimalNat.Unsigned.of_to.
Qed.

Lemma ParseUint_itoa (n : nat) :
  Z.of_nat n < 2 ^ 64 -> strconv.ParseUint (itoa n) = (Z.of_nat n, None).
Proof.
  intros Hn. unfold strconv.ParseUint.
  destruct (itoa_cons n) as (c0 & rest & E & _).
  rewrite E. cbn [String.eqb]. rewrite <- E. unfold itoa.
  assert (Hval : Nat.of_uint_acc (Nat.to_uint n) (Z.to_nat 0) = n)
    by apply DecimalNat.Unsigned.of_to.
  rewrite ParseUint_loop_string_of_uint; rewrite ?Hval; auto; lia.
Qed.

Lemma Atoi_itoa (n : nat) :
  Z.of_nat n < 2 ^ 63 -> strconv.Atoi (itoa n) = (Z.of_nat n, None).
Proof.
  intros Hn. unfold strconv.Atoi.
  destruct (itoa_cons n) as (c0 & rest & E & Hminus & Hplus).
  destruct (_ && _).
  - rewrite E, Hminus, Hplus. cbn [orb andb]. rewrite <- E.
    now rewrite digits_itoa.
  - unfold strconv.ParseInt. rewrite E, Hminus, Hplus. cbn [orb negb andb].
    rewrite <- E, ParseUint_itoa by lia.
    destruct (Z.leb_spec (2 ^ 63) (Z.of_nat n)); [lia|].
    now rewrite wrap64_id by lia.
Qed.

Lemma Atoi_minus_itoa (n : nat) :
  Z.of_nat n <= 2 ^ 63 ->
  strconv.Atoi ("-" ++ itoa n) = (- Z.of_nat n, None).
Proof.
  intros Hn. unfold strconv.Atoi.
  destruct (itoa_cons n) as (c0 & rest & E & Hminus & Hplus).
  cbn [append].
  destruct (_ && _).
  - cbn [Ascii.eqb Bool.eqb orb andb]. rewrite E at 1.
    cbn [String.length Nat.ltb Nat.leb]. now rewrite digits_itoa.
  - unfold strconv.ParseInt. cbn [Ascii.eqb Bool.eqb orb andb negb].
    rewrite ParseUint_itoa by lia.
    destruct (Z.ltb_spec (2 ^ 63) (Z.of_nat n)); [lia|].
    f_equal.
    destruct (Z.eq_dec (Z.of_nat n) (2 ^ 63)) as [->|Hne].
    + vm_compute. reflexivity.
    + rewrite (wrap64_id (Z.of_nat n)) by lia. apply wrap64_id. lia.
Qed.

Lemma Atoi_syntax_error (s : string) (v : Z) :
  strconv.Atoi s = (v, Some strconv.ErrSyntax) -> v = 0.
Proof.
  unfold strconv.Atoi.
  destruct (_ && _).
  - destruct s as [|c0 rest]; [now intros [= <-]|].
    destruct (_ && _); [now intros [= <-]|].
    destruct (strconv.digits 0 _); [discriminate | now intros [= <-]].
  - unfold strconv.ParseInt. destruct s as [|c0 rest]; [now intros [= <-]|].
    destruct (strconv.ParseUint _) as [un [[|]|]]; [now intros [= <-] |..];
      repeat destruct (_ && _); discriminate.
Qed.

(** X24.  [GetID] on decimal subjects.  When the subject is the decimal
    numeral of a number below 2^63, [GetID] is that number.  When it is a
    minus sign followed by the numeral of [n], with [n] from 1 to 2^63,
    the conversion to [uint] wraps around and [GetID] is [2^64 - n].  And
    when [Atoi] rejects the subject as not a number, the error is dropped
    and [GetID] is 0. *)
Theorem GetID_of_numeral (c : helpers.CustomClaims) (n : nat) :
  (helpers.ID c = itoa n -> Z.of_nat n < 2 ^ 63 ->
   helpers.GetID c = Z.of_nat n)
  /\ (helpers.ID c = "-" ++ itoa n -> 0 < Z.of_nat n <= 2 ^ 63 ->
      helpers.GetID c = 2 ^ 64 - Z.of_nat n)
  /\ (snd (strconv.Atoi (helpers.ID c)) = Some strconv.ErrSyntax ->
      helpers.GetID c = 0).
Proof.
  unfold helpers.GetID. split; [|split].
  - intros -> Hn. rewrite (Atoi_itoa n Hn). unfold wrapU64.
    apply Z.mod_small. lia.
  - intros -> Hn. rewrite (Atoi_minus_itoa n) by lia. unfold wrapU64.
    replace (- Z.of_nat n) with (2 ^ 64 - Z.of_nat n + (- 1) * 2 ^ 64) by lia.
    rewrite Z.mod_add by lia. apply Z.mod_small. lia.
  - destruct (strconv.Atoi (helpers.ID c)) as [id err] eqn:E.
    cbn [snd]. intros ->. now rewrite (Atoi_syntax_error _ _ E).
Qed.

Lemma GetID_of_numeral_witness :
  helpers.GetID sample.claims = 42
  /\ helpers.GetID
       {| helpers.Issuer := "";
          helpers.ID := "-1";
          helpers.IssuedAt := 0;
          helpers.ExpirationTime := 0;
          helpers.Name := "";
          helpers.Email := "";
          helpers.Avatar := "";
          helpers.About := "";
          helpers.AboutVideo := "";
          helpers.ProfileId := 0 |}
     = 18446744073709551615
  /\ helpers.GetID
       {| helpers.Issuer := "";
          helpers.ID := "4x2";
          helpers.IssuedAt := 0;
          helpers.ExpirationTime := 0;
          helpers.Name := "";
          helpers.Email := "";
          helpers.Avatar := "";
          helpers.About := "";
          helpers.AboutVideo := "";
          helpers.ProfileId := 0 |}
     = 0.
Proof.
  split; [|split].
  - apply (proj1 (GetID_of_numeral sample.claims 42)); [reflexivity | lia].
  - apply (proj1 (proj2 (GetID_of_numeral _ 1))); [reflexivity | lia].
  - apply (proj2 (proj2 (GetID_of_numeral _ 0))). reflexivity.
Defined.

(** ** The empty term *)

Lemma isWholeWord_loop_empty_step (fuel : nat) (message : string) (i : nat) :
  (i <= String.length message)%nat ->
  groq.isWholeWord_loop (S fuel) message "" (Z.of_nat i)
  = if spec.cleanBeforeb message i && spec.cleanAfterb message i
    then Ret true
    else groq.isWholeWord_loop fuel message "" (Z.of_nat (S i)).
Proof.
  intros Hi. rewrite isWholeWord_loop_step by exact Hi. cbv zeta.
  replace (strings.Index (drop i message) "") with 0
    by (destruct (drop i message); reflexivity).
  cbn [Z.eqb Z.to_nat String.length]. now rewrite !Nat.add_0_r.
Qed.

Lemma isWholeWord_loop_beyond (fuel : nat) (message term : string) :
  groq.isWholeWord_loop (S fuel) message term
    (Z.of_nat (S (String.length message))) = Panic.
Proof.
  cbn [groq.isWholeWord_loop]. unfold sliceFrom, len.
  replace (Z.of_nat (S (String.length message))
           <=? Z.of_nat (String.length message))
    with false by (symmetry; apply Z.leb_gt; lia).
  rewrite andb_false_r. reflexivity.
Qed.

Lemma isWholeWord_loop_empty (message : string) :
  forall (fuel i : nat),
    (i <= S (String.length message))%nat ->
    (String.length message + 2 <= fuel + i)%nat ->
    ((exists p, (i <= p)%nat /\ spec.boundaryAt message "" p) ->
     groq.isWholeWord_loop fuel message "" (Z.of_nat i) = Ret true)
    /\ ((forall p, (i <= p)%nat -> ~ spec.boundaryAt message "" p) ->
        groq.isWholeWord_loop fuel message "" (Z.of_nat i) = Panic).
Proof.
  induction fuel as [|fuel IH]; intros i Hi Hfuel; [lia|].
  destruct (Nat.eq_dec i (S (String.length message))) as [->|Hne].
  - rewrite isWholeWord_loop_beyond. split; [|reflexivity].
    intros (p & Hp & Hat). apply boundaryAt_iff in Hat as (Hle & _). lia.
  - rewrite isWholeWord_loop_empty_step by lia.
    destruct (IH (S i) ltac:(lia) ltac:(lia)) as [IHyes IHno].
    destruct (spec.cleanBeforeb message i && spec.cleanAfterb message i)
      eqn:Hhere.
    + split; [reflexivity|]. intros Hnone. exfalso.
      apply andb_true_iff in Hhere as [Hb Ha].
      apply (Hnone i (Nat.le_refl i)), boundaryAt_iff.
      split; [lia|]. split; [now destruct (drop i message)|].
      cbn [String.length]. rewrite Nat.add_0_r. now split.
    + assert (Hnot : ~ spec.boundaryAt message "" i).
      { intros Hat. apply boundaryAt_iff in Hat as (_ & _ & Hb & Ha).
        cbn [String.length] in Ha. rewrite Nat.add_0_r in Ha.
        rewrite Hb, Ha in Hhere. discriminate. }
      split.
      * intros (p & Hp & Hat). apply IHyes. exists p. split; [|exact Hat].
        destruct (Nat.eq_dec p i) as [->|]; [contradiction | lia].
      * intros Hnone. apply IHno. intros p Hp. apply Hnone. lia.
Qed.

Lemma boundaryAt_decided (message term : string) (n : nat) :
  (exists p, (p < n)%nat /\ spec.boundaryAt message term p)
  \/ (forall p, (p < n)%nat -> ~ spec.boundaryAt message term p).
Proof.
  induction n as [|n [IH|IH]].
  - right. intros p Hp. lia.
  - left. destruct IH as (p & Hp & Hat). exists p. split; [lia | exact Hat].
  - destruct (Nat.leb_spec n (String.length message)) as [Hn|Hn].
    + destruct (strings.HasPrefix (drop n message) term) eqn:Hocc;
        [destruct (spec.cleanBeforeb message n) eqn:Hb;
         [destruct (spec.cleanAfterb message (n + String.length term)) eqn:Ha|]|].
      * left. exists n. split; [lia|]. now apply boundaryAt_iff.
      * right. intros p Hp Hat.
        destruct (Nat.eq_dec p n) as [->|]; [|apply (IH p); [lia | exact Hat]].
        apply boundaryAt_iff in Hat as (_ & _ & _ & Ha'). congruence.
      * right. intros p Hp Hat.
        destruct (Nat.eq_dec p n) as [->|]; [|apply (IH p); [lia | exact Hat]].
        apply boundaryAt_iff in Hat as (_ & _ & Hb' & _). congruence.
      * right. intros p Hp Hat.
        destruct (Nat.eq_dec p n) as [->|]; [|apply (IH p); [lia | exact Hat]].
        apply boundaryAt_iff in Hat as (_ & Hocc' & _). congruence.
    + right. intros p Hp Hat.
      destruct (Nat.eq_dec p n) as [->|]; [|apply (IH p); [lia | exact Hat]].
      apply boundaryAt_iff in Hat as (Hle & _). lia.
Qed.

(** X25.  [isWholeWord] on the empty term never answers [false]: it
    answers [true] when the message has a position with no letter or
    digit on either side (the empty message has one), and otherwise the
    slice [message[index:]] ends up one past the end of the message and
    the call panics.  It panics in particular on every non-empty message
    made of letters and digits only; [containsBlockedTerm] skips empty
    terms before it calls [isWholeWord]. *)
Theorem isWholeWord_empty_term (message : string) :
  (spec.occursAtBoundary message "" ->
   groq.isWholeWord message "" = Ret true)
  /\ (~ spec.occursAtBoundary message "" ->
      groq.isWholeWord message "" = Panic)
  /\ (groq.isWholeWord message "" = Ret true
      \/ groq.isWholeWord message "" = Panic)
  /\ (message <> "" ->
      (forall i b, String.get i message = Some b ->
                   groq.isAlphanumeric b = true) ->
      groq.isWholeWord message "" = Panic).
Proof.
  destruct (isWholeWord_loop_empty message (S (S (String.length message))) 0
              ltac:(lia) ltac:(lia)) as [Hyes Hno].
  change (groq.isWholeWord_loop (S (S (String.length message))) message ""
            (Z.of_nat 0)) with (groq.isWholeWord message "") in *.
  assert (Htrue : spec.occursAtBoundary message "" ->
                  groq.isWholeWord message "" = Ret true).
  { intros Hocc. apply Hyes. apply occursAtBoundary_iff in Hocc as (p & Hat).
    exists p. split; [lia | exact Hat]. }
  assert (Hpanic : ~ spec.occursAtBoundary message "" ->
                   groq.isWholeWord message "" = Panic).
  { intros Hocc. apply Hno. intros p _ Hat. apply Hocc.
    apply occursAtBoundary_iff. now exists p. }
  split; [exact Htrue|]. split; [exact Hpanic|]. split.
  - destruct (boundaryAt_decided message "" (S (String.length message)))
      as [(p & _ & Hat) | Hnone].
    + left. apply Htrue, occursAtBoundary_iff. now exists p.
    + right. apply Hpanic. intros Hocc.
      apply occursAtBoundary_iff in Hocc as (p & Hat).
      apply (Hnone p); [|exact Hat].
      apply boundaryAt_iff in Hat as (Hle & _). lia.
  - intros Hne Hall. apply Hpanic.
    intros (before & after & E & Hb & Ha). cbn [append] in E.
    assert (before = "").
    { destruct Hb as [Hb | (front & b & Hb & Hnot)]; [exact Hb|].
      exfalso. apply Hnot, isAlphanumeric_spec.
      apply (Hall (String.length front) b).
      rewrite E, Hb, append_assoc. cbn [append]. apply get_append_at. }
    assert (after = "").
    { destruct Ha as [Ha | (b & back & Ha & Hnot)]; [exact Ha|].
      exfalso. apply Hnot, isAlphanumeric_spec.
      apply (Hall (String.length before) b).
      rewrite E, Ha. apply get_append_at. }
    subst. now apply Hne.
Qed.

Lemma isWholeWord_empty_term_witness :
  groq.isWholeWord "spam" "" = Panic.
Proof.
  apply (proj2 (proj2 (proj2 (isWholeWord_empty_term "spam")))).
  - discriminate.
  - intros [|[|[|[|i]]]] b; cbn [String.get]; intros [= <-]; reflexivity.
Defined.

(** ** Padded entries *)

Lemma candidate_TrimSpace (caseTable : Z -> Z) (term : string) :
  spec.candidate caseTable (strings.TrimSpace term)
  = spec.candidate caseTable term.
Proof. unfold spec.candidate. now rewrite TrimSpace_idempotent. Qed.

(** X26.  Entries of the term list are compared trimmed: trimming every
    entry beforehand, and so padding any entry with white space, changes
    neither whether a text matches nor the term that is returned. *)
Theorem containsBlockedTerm_trimmed_entries (caseTable : Z -> Z) (X : string)
  (T : list string) :
  groq.containsBlockedTerm caseTable X (List.map strings.TrimSpace T)
  = groq.containsBlockedTerm caseTable X T.
Proof.
  rewrite !containsBlockedTerm_is_loop.
  induction T as [|u T IH]; [reflexivity|]. cbn [List.map].
  destruct (containsBlockedTerm_loop_cons caseTable
              (strings.ToLower caseTable X)
              (spec.normalizeSeparators (strings.ToLower caseTable X))
              (strings.TrimSpace u) (List.map strings.TrimSpace T))
    as [Hyes' Hno'].
  destruct (containsBlockedTerm_loop_cons caseTable
              (strings.ToLower caseTable X)
              (spec.normalizeSeparators (strings.ToLower caseTable X))
              u T) as [Hyes Hno].
  unfold spec.hits in Hyes', Hno'. rewrite candidate_TrimSpace in Hyes', Hno'.
  destruct (hits_decided caseTable (strings.ToLower caseTable X)
              (spec.normalizeSeparators (strings.ToLower caseTable X)) u)
    as [Hu|Hu].
  - rewrite (Hyes Hu), (Hyes' Hu). reflexivity.
  - rewrite (Hno Hu), (Hno' Hu). exact IH.
Qed.
